(** * Account rotation scheduler: a shallow embedding of
      [src/account_rotator.py] and of its client [src/rotated_client.py],
      and the properties of its specification.

    Conventions of the embedding.

    - Instants and durations are Python floats holding seconds; they are
      idealised as rationals ([Q]).  Python integers are [Z].
    - [time.time()] is an effect.  A run is given a clock [nat -> Q]: the
      [k]-th call of [time.time()] of the run returns [clock k].  The state
      carries the number of calls made so far, so every function below reads
      the clock exactly where the source does, and as often.
    - [AccountState] objects are shared by reference between
      [AccountRotator.accounts], the list built by [available_accounts] and
      the callers of [get_next_account].  A reference is modelled as the
      position of the object in [accounts], which is fixed once the accounts
      are loaded; a method call through a reference updates the store in
      place.
    - The lock of [get_next_account] has no sequential content and is left
      out; logging is left out as well.
    - The file system, the environment and the libraries the client calls
      (Google credentials, [requests], [json]) are used through what a call
      returns or raises: they are variables of the sections that use them,
      so every statement holds whatever they answer. *)

From Stdlib Require Import QArith Lqa.
From stdpp Require Import base list strings sorting gmap pretty.

Local Open Scope Z_scope.

(** ** Rational comparisons as booleans *)

Definition Qltb (x y : Q) : bool := negb (Qle_bool y x).

(** ** The clock

    A computation that may call [time.time()]: it is started with the number
    of calls made so far and returns the number made when it ends. *)

Definition Clock (A : Type) : Type := nat -> A * nat.

#[global] Instance Clock_ret : MRet Clock := fun A x k => (x, k).
#[global] Instance Clock_bind : MBind Clock := fun A B f m k =>
  let '(x, k') := m k in f x k'.

Definition time_time (clock : nat -> Q) : Clock Q := fun k => (clock k, S k).

(** A clock that never runs backwards. *)
Definition monotone (clock : nat -> Q) : Prop :=
  forall i j : nat, (i <= j)%nat -> (clock i <= clock j)%Q.

(** ** Per-account state: [class AccountState] *)

(** The parsed JSON of a credential file; opaque to the scheduler. *)
Definition dict : Type := list (string * string).

Module Account.

Record AccountState : Type := mkAccountState {
  email : string;
  credential_path : string;
  credentials : dict;
  project_id : string;
  request_timestamps : list Q;
  total_requests : Z;
  total_errors : Z;
  is_healthy : bool;
  cooldown_until : Q;
  consecutive_errors : Z;
  last_error : option string
}.

(** The dataclass defaults, as used by [_load_accounts]. *)
Definition new (email credential_path : string) (credentials : dict)
    (project_id : string) : AccountState :=
  mkAccountState email credential_path credentials project_id
    [] 0 0 true 0%Q 0 None.

(** Attribute assignments [self.f = v]. *)
Definition set_credentials (v : dict) (a : AccountState) :=
  mkAccountState (email a) (credential_path a) v (project_id a)
    (request_timestamps a) (total_requests a) (total_errors a) (is_healthy a)
    (cooldown_until a) (consecutive_errors a) (last_error a).

Definition set_request_timestamps (v : list Q) (a : AccountState) :=
  mkAccountState (email a) (credential_path a) (credentials a) (project_id a)
    v (total_requests a) (total_errors a) (is_healthy a) (cooldown_until a)
    (consecutive_errors a) (last_error a).

Definition set_total_requests (v : Z) (a : AccountState) :=
  mkAccountState (email a) (credential_path a) (credentials a) (project_id a)
    (request_timestamps a) v (total_errors a) (is_healthy a)
    (cooldown_until a) (consecutive_errors a) (last_error a).

Definition set_total_errors (v : Z) (a : AccountState) :=
  mkAccountState (email a) (credential_path a) (credentials a) (project_id a)
    (request_timestamps a) (total_requests a) v (is_healthy a)
    (cooldown_until a) (consecutive_errors a) (last_error a).

Definition set_is_healthy (v : bool) (a : AccountState) :=
  mkAccountState (email a) (credential_path a) (credentials a) (project_id a)
    (request_timestamps a) (total_requests a) (total_errors a) v
    (cooldown_until a) (consecutive_errors a) (last_error a).

Definition set_cooldown_until (v : Q) (a : AccountState) :=
  mkAccountState (email a) (credential_path a) (credentials a) (project_id a)
    (request_timestamps a) (total_requests a) (total_errors a) (is_healthy a)
    v (consecutive_errors a) (last_error a).

Definition set_consecutive_errors (v : Z) (a : AccountState) :=
  mkAccountState (email a) (credential_path a) (credentials a) (project_id a)
    (request_timestamps a) (total_requests a) (total_errors a) (is_healthy a)
    (cooldown_until a) v (last_error a).

Definition set_last_error (v : option string) (a : AccountState) :=
  mkAccountState (email a) (credential_path a) (credentials a) (project_id a)
    (request_timestamps a) (total_requests a) (total_errors a) (is_healthy a)
    (cooldown_until a) (consecutive_errors a) v.

(** The list comprehension of [requests_in_window]. *)
Definition newer_than (cutoff : Q) (ts : list Q) : list Q :=
  List.filter (fun t => Qltb cutoff t) ts.

(** [min(30 * (2 ** (n - 1)), 300)].  Python's [**] on integers is [Z.pow]
    for an exponent that is not negative; [record_error] evaluates this
    after its increment, so [n >= 1] for an account whose count was never
    negative (it starts at 0 and is only reset to 0 or incremented). *)
Definition backoff_seconds (n : Z) : Z := Z.min (30 * 2 ^ (n - 1)) 300.

Section Methods.

Variable clock : nat -> Q.

(** [is_available]: [and] short-circuits, so the clock is read only for a
    healthy account. *)
Definition is_available (self : AccountState) : Clock bool :=
  if is_healthy self then
    now ← time_time clock;
    mret (Qltb (cooldown_until self) now)
  else mret false.

(** [requests_in_window]: returns the count and the mutated object. *)
Definition requests_in_window (window_seconds : Q) (self : AccountState)
    : Clock (Z * AccountState) :=
  now ← time_time clock;
  let cutoff := (now - window_seconds)%Q in
  let self := set_request_timestamps
                (newer_than cutoff (request_timestamps self)) self in
  mret (Z.of_nat (length (request_timestamps self)), self).

Definition record_request (self : AccountState) : Clock (unit * AccountState) :=
  now ← time_time clock;
  let self := set_request_timestamps (request_timestamps self ++ [now]) self in
  let self := set_total_requests (total_requests self + 1) self in
  let self := set_consecutive_errors 0 self in
  mret (tt, self).

Definition record_error (error_msg : string) (is_rate_limit : bool)
    (self : AccountState) : Clock (unit * AccountState) :=
  let self := set_total_errors (total_errors self + 1) self in
  let self := set_consecutive_errors (consecutive_errors self + 1) self in
  let self := set_last_error (Some error_msg) self in
  if is_rate_limit then
    let backoff := backoff_seconds (consecutive_errors self) in
    now ← time_time clock;
    mret (tt, set_cooldown_until (now + inject_Z backoff)%Q self)
  else if 5 <=? consecutive_errors self then
    mret (tt, set_is_healthy false self)
  else mret (tt, self).

End Methods.

End Account.

(** ** Exceptions and Python's partial operations *)

(** [DanglingReference] belongs to the embedding only: it is what a method
    call through a position outside [accounts] gives.  Python has no such
    reference; [get_next_account] never makes one (it returns normally in
    every state, see [get_next_account_frame]) and the positions it
    returns lie inside [accounts]. *)
Inductive exn : Type := IndexError | ZeroDivisionError | DanglingReference.

Inductive result (A : Type) : Type :=
  | Ok (x : A)
  | Raise (e : exn).
Arguments Ok {A} x.
Arguments Raise {A} e.

(** [len(l)] *)
Definition len {A : Type} (l : list A) : Z := Z.of_nat (length l).

(** [a % b]: floor modulo, as [Z.modulo]; a zero divisor raises. *)
Definition py_mod (a b : Z) : result Z :=
  if b =? 0 then Raise ZeroDivisionError else Ok (a mod b).

(** [l[i]]: a negative index counts from the end; out of range raises. *)
Definition getitem {A : Type} (l : list A) (i : Z) : result A :=
  let j := if i <? 0 then i + len l else i in
  if j <? 0 then Raise IndexError
  else match l !! Z.to_nat j with
       | Some x => Ok x
       | None => Raise IndexError
       end.

(** ** The scheduler: [class AccountRotator] *)

Module Rotator.

Import Account.

Record AccountRotator : Type := mkAccountRotator {
  credentials_dir : string;
  max_rpm : Z;
  min_gap_s : Q;
  accounts : list AccountState;
  _current_index : Z
}.

Definition set_accounts (v : list AccountState) (r : AccountRotator) :=
  mkAccountRotator (credentials_dir r) (max_rpm r) (min_gap_s r) v
    (_current_index r).

Definition set_current_index (v : Z) (r : AccountRotator) :=
  mkAccountRotator (credentials_dir r) (max_rpm r) (min_gap_s r)
    (accounts r) v.

(** The rotator object and the number of clock readings made so far. *)
Record State : Type := mkState {
  rot : AccountRotator;
  ticks : nat
}.

(** Computations on the rotator that may raise. *)
Definition M (A : Type) : Type := State -> result (A * State).

#[global] Instance M_ret : MRet M := fun A x s => Ok (x, s).
#[global] Instance M_bind : MBind M := fun A B f m s =>
  match m s with
  | Ok (x, s') => f x s'
  | Raise e => Raise e
  end.

Definition lift_result {A : Type} (r : result A) : M A := fun s =>
  match r with
  | Ok x => Ok (x, s)
  | Raise e => Raise e
  end.

Definition lift_clock {A : Type} (c : Clock A) : M A := fun s =>
  let '(x, k) := c (ticks s) in Ok (x, mkState (rot s) k).

(** [self.f] and [self._current_index = v] *)
Definition attr {A : Type} (f : AccountRotator -> A) : M A := fun s =>
  Ok (f (rot s), s).

Definition assign_current_index (v : Z) : M unit := fun s =>
  Ok (tt, mkState (set_current_index v (rot s)) (ticks s)).

(** A method call [account.method(...)] through the reference [h]: the
    object in the store is replaced by the mutated one. *)
Definition call {A : Type} (h : nat)
    (method : AccountState -> Clock (A * AccountState)) : M A := fun s =>
  match accounts (rot s) !! h with
  | None => Raise DanglingReference
  | Some a =>
      let '((x, a'), k) := method a (ticks s) in
      Ok (x, mkState (set_accounts (<[h := a']> (accounts (rot s))) (rot s)) k)
  end.

Section Methods.

Variable clock : nat -> Q.

(** [[a for a in self.accounts if a.is_available]], as the references of
    the selected objects; [i] is the position of the head of [l]. *)
Fixpoint available_from (i : nat) (l : list AccountState) : Clock (list nat) :=
  match l with
  | [] => mret []
  | a :: l' =>
      b ← Account.is_available clock a;
      rest ← available_from (S i) l';
      mret (if (b : bool) then i :: rest else rest)
  end.

Definition available_accounts : M (list nat) :=
  l ← attr accounts;
  lift_clock (available_from 0 l).

(** The [for _ in range(len(available))] loop of [get_next_account]; [n]
    is the number of iterations left.  Falling out of the loop returns
    [None]. *)
Fixpoint get_next_account_loop (available : list nat) (n : nat)
    : M (option nat) :=
  match n with
  | O => mret None
  | S n' =>
      idx ← attr _current_index;
      i ← lift_result (py_mod idx (len available));
      account ← lift_result (getitem available i);
      idx ← attr _current_index;
      j ← lift_result (py_mod (idx + 1) (len available));
      assign_current_index j;;
      count ← call account (Account.requests_in_window clock 60%Q);
      limit ← attr max_rpm;
      if limit <=? count then get_next_account_loop available n'
      else
        gap ← attr min_gap_s;
        recent ← call account (Account.requests_in_window clock gap);
        if 0 <? recent then get_next_account_loop available n'
        else mret (Some account)
  end.

Definition get_next_account : M (option nat) :=
  available ← available_accounts;
  match available with
  | [] => mret None
  | _ => get_next_account_loop available (length available)
  end.

Definition record_success (account : nat) : M unit :=
  call account (Account.record_request clock).

Definition record_error (account : nat) (status_code : Z)
    (error_msg : string) : M unit :=
  let is_rate_limit := (status_code =? 429) || (status_code =? 503) in
  call account (Account.record_error clock error_msg is_rate_limit).

(** [reload_credentials]; [json_load path] is what opening and parsing the
    file at [path] gives, [None] when either raises (the source catches
    every exception and goes on to the next account). *)
Definition reload_one (json_load : string -> option dict)
    (account : AccountState) : AccountState :=
  match json_load (credential_path account) with
  | Some creds => set_credentials creds account
  | None => account
  end.

Definition reload_credentials (json_load : string -> option dict) : M unit :=
  fun s =>
    Ok (tt, mkState (set_accounts (map (reload_one json_load)
                                       (accounts (rot s))) (rot s))
                    (ticks s)).

(** *** The selection algorithm as the specification words it

    Step 3 and 4 of the specification: the candidates are [available] read
    cyclically from [cursor mod len(available)], once each; the cursor
    advances by one, modulo [len(available)], on every candidate examined;
    a candidate at its per-minute ceiling or inside its minimum gap is
    skipped and the first one passing both checks is returned. *)

Definition rotation_order (available : list nat) (cursor : Z) : list nat :=
  map (fun k : nat =>
         available !!! Z.to_nat ((cursor + Z.of_nat k) mod len available))
      (seq 0 (length available)).

Definition passes_checks (candidate : nat) : M bool :=
  count ← call candidate (Account.requests_in_window clock 60%Q);
  limit ← attr max_rpm;
  if limit <=? count then mret false
  else
    gap ← attr min_gap_s;
    recent ← call candidate (Account.requests_in_window clock gap);
    mret (negb (0 <? recent)).

Fixpoint first_passing (modulus : Z) (candidates : list nat)
    : M (option nat) :=
  match candidates with
  | [] => mret None
  | candidate :: rest =>
      cursor ← attr _current_index;
      assign_current_index ((cursor + 1) mod modulus);;
      ok ← passes_checks candidate;
      if (ok : bool) then mret (Some candidate)
      else first_passing modulus rest
  end.

Definition select_spec : M (option nat) :=
  available ← available_accounts;
  match available with
  | [] => mret None
  | _ =>
      cursor ← attr _current_index;
      first_passing (len available) (rotation_order available cursor)
  end.

(** *** Callers *)

(** [errors] reported one after the other on one account. *)
Fixpoint record_errors (account : nat) (errors : list (Z * string))
    : M unit :=
  match errors with
  | [] => mret tt
  | (status_code, error_msg) :: rest =>
      record_error account status_code error_msg;;
      record_errors account rest
  end.

(** [n] calls of [get_next_account], a success being recorded on the
    account returned before the next call. *)
Fixpoint select_and_succeed (n : nat) : M (list (option nat)) :=
  match n with
  | O => mret []
  | S n' =>
      r ← get_next_account;
      match r with
      | Some account => record_success account
      | None => mret tt
      end;;
      rest ← select_and_succeed n';
      mret (r :: rest)
  end.

(** The operations of the scheduler, for statements about any sequence of
    them. *)
Inductive op : Type :=
  | RecordSuccess (account : nat)
  | RecordError (account : nat) (status_code : Z) (error_msg : string)
  | RequestsInWindow (account : nat) (window_seconds : Q)
  | GetNextAccount
  | ReloadCredentials (json_load : string -> option dict).

Definition run_op (o : op) : M unit :=
  match o with
  | RecordSuccess account => record_success account
  | RecordError account status_code error_msg =>
      record_error account status_code error_msg
  | RequestsInWindow account window_seconds =>
      call account (Account.requests_in_window clock window_seconds);;
      mret tt
  | GetNextAccount => get_next_account;; mret tt
  | ReloadCredentials json_load => reload_credentials json_load
  end.

Fixpoint run_ops (os : list op) : M unit :=
  match os with
  | [] => mret tt
  | o :: rest => run_op o;; run_ops rest
  end.

End Methods.

End Rotator.

(** ** Sample data for the closed instances *)

(** A clock that advances by [step] seconds at every reading. *)
Definition stepping_clock (step : Q) : nat -> Q := fun k =>
  (inject_Z (Z.of_nat k) * step)%Q.

Definition alice : Account.AccountState :=
  Account.new "alice@example.com" "credentials/alice_at_example_com.json"
    [("refresh_token", "r-alice")] "project-a".

Definition bob : Account.AccountState :=
  Account.new "bob@example.com" "credentials/bob_at_example_com.json"
    [("refresh_token", "r-bob")] "project-b".

Definition carol : Account.AccountState :=
  Account.new "carol@example.com" "credentials/carol_at_example_com.json"
    [("refresh_token", "r-carol")] "project-c".

(** A rotator as [__init__] leaves it, with the defaults of the source:
    10 requests per minute and a gap of 2000 ms; [first_reading] is the
    number of clock readings made before the run. *)
Definition fresh_rotator (accounts : list Account.AccountState)
    (first_reading : nat) : Rotator.State :=
  Rotator.mkState
    (Rotator.mkAccountRotator "./credentials" 10 2%Q accounts 0)
    first_reading.

(** A pool of one account with a ceiling of 2 requests per minute and a
    gap of 2 seconds. *)
Definition tight_rotator (first_reading : nat) : Rotator.State :=
  Rotator.mkState
    (Rotator.mkAccountRotator "./credentials" 2 2%Q [alice] 0)
    first_reading.

(** ** The windowed count the specification asks for

    Written from the specification, not from the source: the number of
    successes recorded for an account within the last [window_seconds]
    seconds at the instant [now], [successes] being the instants at which
    [record_success] ran on the account.  It is what the docstring of
    [requests_in_window] promises (the requests in the last N seconds). *)
Definition successes_within (window_seconds now : Q) (successes : list Q)
    : Z :=
  len (Account.newer_than (now - window_seconds)%Q successes).

(** ** Notions used by the statements *)

Import Account Rotator.

(** What [Rotator.record_error] does to the object it is called on. *)
Definition after_error (clock : nat -> Q) (e : Z * string) (k : nat)
    (a : AccountState) : AccountState :=
  (Account.record_error clock e.2 ((e.1 =? 429) || (e.1 =? 503)) a k).1.2.

(** The parts of the rotator a method call on an account leaves alone. *)
Definition same_rotator_but (h : nat) (s s' : State) : Prop :=
  length (accounts (rot s')) = length (accounts (rot s)) /\
  (forall j : nat, j <> h -> accounts (rot s') !! j = accounts (rot s) !! j) /\
  max_rpm (rot s') = max_rpm (rot s) /\
  min_gap_s (rot s') = min_gap_s (rot s) /\
  _current_index (rot s') = _current_index (rot s).

(** A status code outside the rate-limit class. *)
Definition not_rate_limit (e : Z * string) : Prop := e.1 <> 429 /\ e.1 <> 503.

(** The first [n] candidates of the rotation that starts at [cursor]. *)
Definition rotation_from (available : list nat) (cursor : Z) (n : nat)
    : list nat :=
  map (fun k : nat =>
         available !!! Z.to_nat ((cursor + Z.of_nat k) mod len available))
      (seq 0 n).

(** What the two checks of the loop compute on the object [a] when its
    examination starts at reading [k]: whether it passes, the object as the
    reads leave it, and the number of readings made. *)
Definition examined (clock : nat -> Q) (r : AccountRotator) (k : nat)
    (a : AccountState) : bool * AccountState * nat :=
  let ts60 := newer_than (clock k - 60)%Q (request_timestamps a) in
  if max_rpm r <=? len ts60 then (false, set_request_timestamps ts60 a, S k)
  else
    let tsgap := newer_than (clock (S k) - min_gap_s r)%Q ts60 in
    (negb (0 <? len tsgap), set_request_timestamps tsgap a, S (S k)).

(** The state after a candidate was examined. *)
Definition examined_state (clock : nat -> Q) (modulus : Z) (c : nat)
    (a : AccountState) (s : State) : State :=
  mkState
    (mkAccountRotator (credentials_dir (rot s)) (max_rpm (rot s))
       (min_gap_s (rot s))
       (<[c := (examined clock (rot s) (ticks s) a).1.2]> (accounts (rot s)))
       ((_current_index (rot s) + 1) mod modulus))
    (examined clock (rot s) (ticks s) a).2.

(** What a scan may change: the cursor, the clock readings made, and the
    timestamps kept by each account. *)
Definition pruned_state (s s' : State) : Prop :=
  length (accounts (rot s')) = length (accounts (rot s)) /\
  max_rpm (rot s') = max_rpm (rot s) /\
  min_gap_s (rot s') = min_gap_s (rot s) /\
  (ticks s <= ticks s')%nat /\
  forall (j : nat) (a : AccountState),
    accounts (rot s) !! j = Some a ->
    exists ts : list Q,
      accounts (rot s') !! j = Some (set_request_timestamps ts a).

(** No account turns from disabled to healthy between two states. *)
Definition keeps_unhealthy (s s' : State) : Prop :=
  length (accounts (rot s')) = length (accounts (rot s)) /\
  forall (j : nat) (a : AccountState),
    accounts (rot s) !! j = Some a ->
    exists a' : AccountState,
      accounts (rot s') !! j = Some a' /\
      (is_healthy a = false -> is_healthy a' = false).

(** The references an operation uses lie inside a pool of [n] accounts. *)
Definition op_in_range (n : nat) (o : op) : Prop :=
  match o with
  | RecordSuccess h | RecordError h _ _ | RequestsInWindow h _ => (h < n)%nat
  | GetNextAccount | ReloadCredentials _ => True
  end.

(** At reading [k] the account is under its per-minute ceiling and has no
    request inside the minimum gap. *)
Definition under_limits (clock : nat -> Q) (r : AccountRotator) (k : nat)
    (a : AccountState) : Prop :=
  len (newer_than (clock k - 60)%Q (request_timestamps a)) < max_rpm r /\
  newer_than (clock k - min_gap_s r)%Q (request_timestamps a) = [].

(** Every account of the pool is available at the next clock reading. *)
Definition all_available (clock : nat -> Q) (s : State) : Prop :=
  forall (j : nat) (b : AccountState),
    accounts (rot s) !! j = Some b ->
    is_healthy b = true /\ (cooldown_until b < clock (ticks s))%Q.

(** An account predicate that every method of [AccountState] keeps: the
    two window reads, [record_request], [record_error], and the assignment
    of [credentials] made by [reload_credentials]. *)
Definition kept_by_methods (clock : nat -> Q) (P : AccountState -> Prop)
    : Prop :=
  (forall (a : AccountState) (w : Q) (k : nat),
     P a -> P (Account.requests_in_window clock w a k).1.2) /\
  (forall (a : AccountState) (k : nat),
     P a -> P (Account.record_request clock a k).1.2) /\
  (forall (a : AccountState) (msg : string) (rl : bool) (k : nat),
     P a -> P (Account.record_error clock msg rl a k).1.2) /\
  (forall (a : AccountState) (creds : dict), P a -> P (set_credentials creds a)).

(** An account predicate that the window reads keep. *)
Definition kept_by_reads (clock : nat -> Q) (P : AccountState -> Prop)
    : Prop :=
  forall (a : AccountState) (w : Q) (k : nat),
    P a -> P (Account.requests_in_window clock w a k).1.2.

(** The counters of an account agree with one another. *)
Definition counters_consistent (a : AccountState) : Prop :=
  0 <= consecutive_errors a <= total_errors a /\
  len (request_timestamps a) <= total_requests a.

(** A status code of the rate-limit class. *)
Definition rate_limit (e : Z * string) : Prop := e.1 = 429 \/ e.1 = 503.

(** The references of the accounts of [l] that are available at reading
    [k]: healthy, with [cooldown_until] before the reading.  [i] is the
    position of the head of [l]. *)
Fixpoint available_at (clock : nat -> Q) (k i : nat) (l : list AccountState)
    : list nat :=
  match l with
  | [] => []
  | a :: l' =>
      if is_healthy a && Qltb (cooldown_until a) (clock k)
      then i :: available_at clock k (S i) l'
      else available_at clock k (S i) l'
  end.

(** The account is disabled, or in cooldown at every reading from [k0] up
    to [K]. *)
Definition stays_unavailable (clock : nat -> Q) (k0 K : nat)
    (a : AccountState) : Prop :=
  is_healthy a = false \/
  forall k : nat, (k0 <= k < K)%nat -> (clock k <= cooldown_until a)%Q.

(** ** Monitoring: [AccountRotator.get_stats] *)

Module Stats.

(** One dict of the list under ["accounts"]. *)
Record AccountStats : Type := mkAccountStats {
  email : string;
  is_available : bool;
  is_healthy : bool;
  total_requests : Z;
  total_errors : Z;
  rpm_current : Z;
  cooldown_remaining : Q;
  consecutive_errors : Z
}.

(** The dict that [get_stats] returns. *)
Record RotatorStats : Type := mkRotatorStats {
  total_accounts : Z;
  available_accounts : Z;
  max_rpm_per_account : Z;
  min_request_gap_ms : Z;
  accounts : list AccountStats
}.

(** [max(0, x)]: [x] when [x > 0], else the first argument. *)
Definition max_0 (x : Q) : Q := if Qltb 0 x then x else 0%Q.

(** [int(x)] of a float: truncation toward zero. *)
Definition int (x : Q) : Z := Z.quot (Qnum x) (Z.pos (Qden x)).

Section Methods.

Variable clock : nat -> Q.

(** The dict built for one account.  The values are evaluated in the order
    of the keys: [is_available] reads the clock (for a healthy account),
    [requests_in_window(60.0)] reads it and prunes the timestamps of the
    object, and ["cooldown_remaining"] reads it once more. *)
Definition account_stats (a : AccountState)
    : Clock (AccountStats * AccountState) :=
  let e := Account.email a in
  available ← Account.is_available clock a;
  let healthy := Account.is_healthy a in
  let requests := Account.total_requests a in
  let errors := Account.total_errors a in
  '(rpm, a) ← Account.requests_in_window clock 60%Q a;
  now ← time_time clock;
  let remaining := max_0 (cooldown_until a - now)%Q in
  mret (mkAccountStats e available healthy requests errors rpm remaining
          (Account.consecutive_errors a), a).

(** The list comprehension [for a in self.accounts]; [hs] are the
    references still to visit. *)
Fixpoint accounts_stats (hs : list nat) : M (list AccountStats) :=
  match hs with
  | [] => mret []
  | h :: hs' =>
      e ← call h account_stats;
      es ← accounts_stats hs';
      mret (e :: es)
  end.

Definition get_stats : M RotatorStats :=
  l ← attr Rotator.accounts;
  let total := len l in
  available ← Rotator.available_accounts clock;
  let n_available := len available in
  limit ← attr max_rpm;
  gap ← attr min_gap_s;
  let gap_ms := int (gap * 1000)%Q in
  l ← attr Rotator.accounts;
  entries ← accounts_stats (seq 0 (length l));
  mret (mkRotatorStats total n_available limit gap_ms entries).

End Methods.

End Stats.

(** ** Python strings and dicts used by the loader *)

(** [s.replace(old, new)].  For a non-empty [old] the occurrences are found
    from left to right and do not overlap; [skip] counts the characters of
    the occurrence just replaced that are still to be dropped.  For an
    empty [old], [new] is put before every character and at the end. *)
Fixpoint replace_from (old new : string) (skip : nat) (s : string) : string :=
  match s with
  | EmptyString => EmptyString
  | String c s' =>
      match skip with
      | S n => replace_from old new n s'
      | O =>
          if String.prefix old s
          then new +:+ replace_from old new (String.length old - 1) s'
          else String c (replace_from old new 0 s')
      end
  end.

Fixpoint interleave (new s : string) : string :=
  match s with
  | EmptyString => new
  | String c s' => new +:+ String c (interleave new s')
  end.

Definition replace (old new s : string) : string :=
  match old with
  | EmptyString => interleave new s
  | _ => replace_from old new 0 s
  end.

(** [d.get(key)] and [d.get(key, default)].  A Python dict binds a key
    once; the first binding of the association list is the one read. *)
Fixpoint dict_get (key : string) (d : dict) : option string :=
  match d with
  | [] => None
  | (k, v) :: d' => if String.eqb k key then Some v else dict_get key d'
  end.

Definition dict_get_default (key default : string) (d : dict) : string :=
  match dict_get key d with
  | Some v => v
  | None => default
  end.

(** Truth value of [d.get(key)]: [None] and the empty string are false. *)
Definition truthy (v : option string) : bool :=
  match v with
  | Some (String _ _) => true
  | _ => false
  end.

(** ** Construction: [AccountRotator.__init__], [_load_accounts],
       [get_rotator] *)

Module Construction.

(** A [pathlib.Path] yielded by [glob]: its [name], its [stem] and
    [str(path)]. *)
Record Path : Type := mkPath {
  name : string;
  stem : string;
  str : string
}.

(** The files the constructor can see.  [json_load p] is what opening and
    parsing the file at [p] gives: [None] when [open] or [json.load] raises,
    or when the text is not a JSON object (calling [.get] on it then raises
    inside the same [try]); the values of the object are strings, as [dict]
    has them. *)
Record FileSystem : Type := mkFileSystem {
  path_exists : string -> bool;
  glob_json : string -> list Path;
  json_load : string -> option dict
}.

(** The order of [sorted] on paths of one directory: that of their names,
    character by character. *)
Definition name_le (p q : Path) : Prop := String.le (name p) (name q).

#[global] Instance name_le_dec : RelDecision name_le.
Proof. intros p q. unfold name_le. apply _. Defined.

Definition sorted (l : list Path) : list Path := merge_sort name_le l.

(** The e-mail address told by a file name: [name_at_domain_ext.json]. *)
Definition email_of_stem (stem : string) : string :=
  replace "_" "." (replace "_at_" "@" stem).

(** What a call raises or returns. *)
Inductive outcome (A : Type) : Type :=
  | Returned (x : A)
  | ValueError
  | OverflowError.
Arguments Returned {A} x.
Arguments ValueError {A}.
Arguments OverflowError {A}.

(** [n / 1000.0] first turns the integer [n] into a float, which raises
    [OverflowError] when [n] rounds to a magnitude of [2 ** 1024] or more:
    from [2 ** 1024 - 2 ** 970] on, half-way between the largest float and
    [2 ** 1024]. *)
Definition float_overflows (n : Z) : bool :=
  2 ^ 1024 - 2 ^ 970 <=? Z.abs n.

Section Methods.

(** [os.environ], the file system, and [int] on strings ([None] when it
    raises [ValueError]). *)
Variable getenv : string -> option string.
Variable fs : FileSystem.
Variable int : string -> option Z.

Definition os_getenv (key default : string) : string :=
  match getenv key with
  | Some v => v
  | None => default
  end.

(** The body of the [for] loop for one file: the account appended, or
    [None] when the file is skipped (no refresh token, or an exception). *)
Definition load_one (cred_file : Path) : option AccountState :=
  match json_load fs (str cred_file) with
  | None => None
  | Some creds =>
      if truthy (dict_get "refresh_token" creds) then
        let email := email_of_stem (stem cred_file) in
        Some (Account.new email (str cred_file) creds
                (dict_get_default "project_id" "" creds))
      else None
  end.

Definition _load_accounts (self : AccountRotator) : AccountRotator :=
  if path_exists fs (credentials_dir self) then
    set_accounts
      (accounts self
         ++ omap load_one (sorted (glob_json fs (credentials_dir self))))
      self
  else self.

(** [x or int(os.getenv(key, default))] for an optional integer [x]. *)
Definition or_int_env (x : option Z) (key default : string) : option Z :=
  match x with
  | Some n => if n =? 0 then int (os_getenv key default) else Some n
  | None => int (os_getenv key default)
  end.

Definition __init__ (credentials_dir : option string)
    (max_rpm_per_account min_request_gap_ms : option Z)
    : outcome AccountRotator :=
  let dir :=
    match credentials_dir with
    | Some (String c d) => String c d
    | _ => os_getenv "CREDENTIALS_DIR" "./credentials"
    end in
  match or_int_env max_rpm_per_account "MAX_RPM_PER_ACCOUNT" "10" with
  | None => ValueError
  | Some max_rpm =>
      match or_int_env min_request_gap_ms "MIN_REQUEST_GAP_MS" "2000" with
      | None => ValueError
      | Some gap_ms =>
          if float_overflows gap_ms then OverflowError
          else
            let min_gap_s := (inject_Z gap_ms / 1000)%Q in
            Returned
              (_load_accounts (mkAccountRotator dir max_rpm min_gap_s [] 0))
      end
  end.

(** [get_rotator]; the argument and the second component are the global
    [_rotator] before and after the call. *)
Definition get_rotator (_rotator : option AccountRotator)
    : outcome AccountRotator * option AccountRotator :=
  match _rotator with
  | Some r => (Returned r, Some r)
  | None =>
      match __init__ None None None with
      | Returned r => (Returned r, Some r)
      | ValueError => (ValueError, None)
      | OverflowError => (OverflowError, None)
      end
  end.

End Methods.

End Construction.

(** [needle in s] for strings. *)
Fixpoint occurs (needle s : string) : bool :=
  String.prefix needle s ||
  match s with
  | EmptyString => false
  | String _ s' => occurs needle s'
  end.

(** An account as [_load_accounts] builds it from the file [f]. *)
Definition loaded_from (fs : Construction.FileSystem)
    (f : Construction.Path) (a : AccountState) : Prop :=
  exists creds : dict,
    Construction.json_load fs (Construction.str f) = Some creds /\
    truthy (dict_get "refresh_token" creds) = true /\
    a = Account.new (Construction.email_of_stem (Construction.stem f))
          (Construction.str f) creds (dict_get_default "project_id" "" creds).

(** A credentials directory for the closed instances: two usable files,
    one without a refresh token, one that cannot be parsed, listed in the
    order the file system happens to give. *)
Definition sample_listing : list Construction.Path :=
  [Construction.mkPath "notes.json" "notes" "credentials/notes.json";
   Construction.mkPath "bob_at_example_com.json" "bob_at_example_com"
     "credentials/bob_at_example_com.json";
   Construction.mkPath "broken.json" "broken" "credentials/broken.json";
   Construction.mkPath "alice_smith_at_example_com.json"
     "alice_smith_at_example_com"
     "credentials/alice_smith_at_example_com.json"].

Definition sample_fs : Construction.FileSystem :=
  Construction.mkFileSystem
    (fun d => String.eqb d "./credentials")
    (fun d => if String.eqb d "./credentials" then sample_listing else [])
    (fun p =>
       if String.eqb p "credentials/alice_smith_at_example_com.json"
       then Some [("refresh_token", "r-alice"); ("project_id", "project-a")]
       else if String.eqb p "credentials/bob_at_example_com.json"
       then Some [("token", "t-bob"); ("refresh_token", "r-bob")]
       else if String.eqb p "credentials/notes.json"
       then Some [("refresh_token", ""); ("note", "not a credential")]
       else None).

(** An environment without the three variables, and [int] on the decimal
    strings the instances use. *)
Definition sample_getenv : string -> option string := fun _ => None.

Definition sample_int (s : string) : option Z :=
  if String.eqb s "10" then Some 10
  else if String.eqb s "2000" then Some 2000
  else if String.eqb s "0" then Some 0
  else None.

(** * The client: [src/rotated_client.py] *)

(** ** JSON values, as [json.loads] gives them *)

#[warnings="-register-all"]
Inductive json : Type :=
  | JNull
  | JBool (b : bool)
  | JInt (n : Z)
  | JFloat (x : Q)
  | JString (s : string)
  | JArray (items : list json)
  | JObject (members : list (string * json)).

(** Truth value of a parsed value. *)
Definition json_truthy (v : json) : bool :=
  match v with
  | JNull => false
  | JBool b => b
  | JInt n => negb (n =? 0)
  | JFloat x => negb (Qeq_bool x 0)
  | JString s => negb (String.eqb s "")
  | JArray items => match items with [] => false | _ => true end
  | JObject members => match members with [] => false | _ => true end
  end.

(** [d[key]] for a key that is bound, [key in d], [d.get(key)] and
    [d.get(key, default)] on the members of an object; a missing key of
    [d.get(key)] gives [None], which is [JNull]. *)
Fixpoint members_lookup (key : string) (members : list (string * json))
    : option json :=
  match members with
  | [] => None
  | (k, v) :: rest =>
      if String.eqb k key then Some v else members_lookup key rest
  end.

Definition members_get_default (key : string) (default : json)
    (members : list (string * json)) : json :=
  match members_lookup key members with
  | Some v => v
  | None => default
  end.

Definition members_get (key : string) (members : list (string * json))
    : json :=
  members_get_default key JNull members.

(** [d[key] = v] on a credentials dict: the binding is replaced where it
    stands, or added at the end. *)
Fixpoint dict_set (key v : string) (d : dict) : dict :=
  match d with
  | [] => [(key, v)]
  | (k, v0) :: d' =>
      if String.eqb k key then (k, v) :: d' else (k, v0) :: dict_set key v d'
  end.

(** [s.startswith(prefix)] and [s[len(prefix):]]. *)
Definition drop_chars (n : nat) (s : string) : string :=
  String.substring n (String.length s - n) s.

Module Client.

(** ** What goes over the wire *)

(** A call [requests.post(url, data=json.dumps(data), headers=headers,
    timeout=timeout, stream=stream)]; the body is kept as the value that is
    serialised. *)
Record Request : Type := mkRequest {
  url : string;
  data : json;
  headers : list (string * string);
  timeout : option Z;
  stream : bool
}.

(** What the code reads of a [requests.Response]: [json_body] is
    [resp.json()], [None] when it raises; [lines] are the chunks of
    [resp.iter_lines()], and [lines_error] the message of the exception
    that ends the iteration, if one does. *)
Record HttpResponse : Type := mkHttpResponse {
  status_code : Z;
  json_body : option json;
  text : string;
  content : string;
  lines : list string;
  lines_error : option string
}.

(** [requests.post] returns a response or raises a [RequestException],
    kept with its message. *)
Inductive posted : Type :=
  | Replied (resp : HttpResponse)
  | RequestException (message : string).

(** The body of a reply of the proxy.  [Dumps v] is [json.dumps(v)], [Raw]
    the bytes of the upstream body passed on, [Events] the chunks of an
    event stream; an event is ["data: "], the serialised value, and two
    newlines, written with the default separators or, for [compact], with
    [separators=(',', ':')]. *)
Inductive event : Type :=
  | Data (compact : bool) (v : json).

Inductive body : Type :=
  | Dumps (v : json)
  | Raw (bytes : string)
  | Events (chunks : list event).

(** [fastapi.Response] and [StreamingResponse]. *)
Record Response : Type := mkResponse {
  response_body : body;
  response_status : Z;
  media_type : option string
}.

(** A [google.oauth2.credentials.Credentials] object, by the attributes the
    code reads. *)
Record Credentials (datetime : Type) : Type := mkCredentials {
  token : option string;
  refresh_token : option string;
  expiry : option datetime
}.
Arguments mkCredentials {datetime} token refresh_token expiry.
Arguments token {datetime} c.
Arguments refresh_token {datetime} c.
Arguments expiry {datetime} c.

(** Truth value of an optional string attribute. *)
Definition truthy_attr (v : option string) : bool :=
  match v with
  | Some (String _ _) => true
  | _ => false
  end.

(** [f"{v}"] for an optional string. *)
Definition format_attr (v : option string) : string :=
  match v with
  | Some s => s
  | None => "None"
  end.

Section Client.

Variable clock : nat -> Q.

(** The world outside the process: Google's servers and the network, with
    the state they keep.  The libraries and the parts of this repository
    that lie outside [src/] are used through what they return. *)
Variable World : Type.
Variable datetime : Type.

(** [google.oauth2.credentials]: [Credentials.from_authorized_user_info]
    ([None] when it raises), the property [expired], [creds.refresh]
    ([None] when it raises, else the access token and the expiry it
    sets), and [isoformat()] of an expiry read as UTC when it is naive. *)
Variable from_authorized_user_info : dict -> option (Credentials datetime).
Variable expired : World -> Credentials datetime -> bool.
Variable refresh :
  World -> Credentials datetime -> option (string * option datetime) * World.
Variable isoformat_utc : datetime -> string.

(** [requests.post], [json.loads] ([None] when it raises
    [JSONDecodeError]), the message of the [TypeError] that [in] or a
    subscript raises on a parsed value, and [send_gemini_request] of
    [google_api_client]. *)
Variable post : World -> Request -> posted * World.
Variable json_loads : string -> option json.
Variable type_error_message : json -> string.
Variable send_gemini_request :
  World -> list (string * json) -> bool -> Response * World.

(** [config.CODE_ASSIST_ENDPOINT], [utils.get_user_agent()] and
    [utils.get_client_metadata(project_id)]. *)
Variable CODE_ASSIST_ENDPOINT : string.
Variable get_user_agent : string.
Variable get_client_metadata : string -> json.

(** ** The state of the process *)

(** The rotator object with the clock readings made, the module-level set
    [_onboarded_accounts], and the world. *)
Record Session : Type := mkSession {
  rotator : State;
  _onboarded_accounts : gset string;
  world : World
}.

Definition S (A : Type) : Type := Session -> result (A * Session).

#[global] Instance S_ret : MRet S := fun A x ss => Ok (x, ss).
#[global] Instance S_bind : MBind S := fun A B f m ss =>
  match m ss with
  | Ok (x, ss') => f x ss'
  | Raise e => Raise e
  end.

(** A method of the rotator, or a method call on one of its accounts. *)
Definition on_rotator {A : Type} (m : M A) : S A := fun ss =>
  match m (rotator ss) with
  | Ok (x, st) => Ok (x, mkSession st (_onboarded_accounts ss) (world ss))
  | Raise e => Raise e
  end.

(** A call into the world. *)
Definition ask {A : Type} (f : World -> A * World) : S A := fun ss =>
  let '(x, w) := f (world ss) in
  Ok (x, mkSession (rotator ss) (_onboarded_accounts ss) w).

(** [account.f] and [account.credentials[key] = v] through a reference. *)
Definition getattr {A : Type} (account : nat) (f : AccountState -> A)
    : S A :=
  on_rotator (call account (fun a => mret (f a, a))).

Definition setitem_credentials (account : nat) (key v : string) : S unit :=
  on_rotator
    (call account
       (fun a => mret (tt, set_credentials (dict_set key v (credentials a)) a))).

(** ** [_get_google_credentials] *)

Definition _get_google_credentials (account : nat)
    : S (option (Credentials datetime)) :=
  creds_data ← getattr account credentials;
  match from_authorized_user_info creds_data with
  | None => mret None
  | Some creds =>
      is_expired ← ask (fun w => (expired w creds, w));
      if (is_expired : bool) && truthy_attr (refresh_token creds) then
        refreshed ← ask (fun w => refresh w creds);
        match refreshed with
        | None => mret None
        | Some (access_token, new_expiry) =>
            let creds :=
              mkCredentials (Some access_token) (refresh_token creds)
                new_expiry in
            setitem_credentials account "token" access_token;;
            match new_expiry with
            | Some e => setitem_credentials account "expiry" (isoformat_utc e)
            | None => mret tt
            end;;
            mret (Some creds)
        end
      else if negb (truthy_attr (token creds)) then mret None
      else mret (Some creds)
  end.

(** ** [_ensure_onboarded] *)

(** [resp.raise_for_status()] raises for the codes 400 to 599. *)
Definition raises_for_status (resp : HttpResponse) : bool :=
  (400 <=? status_code resp) && (status_code resp <? 600).

(** The loop over [data.get("allowedTiers", [])]: the first tier whose
    ["isDefault"] is true.  [None] stands for an exception: a value that
    cannot be iterated, or an element without [.get], reached before a
    default tier was found. *)
Fixpoint default_tier (tiers : list json)
    : option (option (list (string * json))) :=
  match tiers with
  | [] => Some None
  | JObject members :: rest =>
      if json_truthy (members_get "isDefault" members) then Some (Some members)
      else default_tier rest
  | _ :: _ => None
  end.

Definition allowed_default_tier (allowed : json)
    : option (option (list (string * json))) :=
  match allowed with
  | JArray tiers => default_tier tiers
  | JObject [] => Some None
  | JString EmptyString => Some None
  | _ => None
  end.

Definition legacy_tier : list (string * json) :=
  [("name", JString ""); ("description", JString "");
   ("id", JString "legacy-tier");
   ("userDefinedCloudaicompanionProject", JBool true)].

Definition add_onboarded (account_email : string) : S unit := fun ss =>
  Ok (tt, mkSession (rotator ss) ({[account_email]} ∪ _onboarded_accounts ss)
            (world ss)).

Definition _ensure_onboarded (creds : Credentials datetime)
    (project_id account_email : string) : S bool := fun ss =>
  if decide (account_email ∈ _onboarded_accounts ss) then Ok (true, ss)
  else
    let headers :=
      [("Authorization", "Bearer " +:+ format_attr (token creds));
       ("Content-Type", "application/json");
       ("User-Agent", get_user_agent)] in
    let load_payload :=
      JObject [("cloudaicompanionProject", JString project_id);
               ("metadata", get_client_metadata project_id)] in
    (resp ← ask (fun w =>
       post w (mkRequest (CODE_ASSIST_ENDPOINT +:+ "/v1internal:loadCodeAssist")
                 load_payload headers (Some 10) false));
     match resp with
     | RequestException _ => mret false
     | Replied resp =>
         if raises_for_status resp then mret false
         else
           match json_body resp with
           | Some (JObject data) =>
               if json_truthy (members_get "currentTier" data) then
                 add_onboarded account_email;; mret true
               else
                 match allowed_default_tier
                         (members_get_default "allowedTiers" (JArray []) data)
                 with
                 | None => mret false
                 | Some found =>
                     let tier :=
                       match found with
                       | Some tier => tier
                       | None => legacy_tier
                       end in
                     let onboard_payload :=
                       JObject
                         [("tierId", members_get "id" tier);
                          ("cloudaicompanionProject", JString project_id);
                          ("metadata", get_client_metadata project_id)] in
                     onboard_resp ← ask (fun w =>
                       post w
                         (mkRequest
                            (CODE_ASSIST_ENDPOINT +:+ "/v1internal:onboardUser")
                            onboard_payload headers (Some 30) false));
                     match onboard_resp with
                     | RequestException _ => mret false
                     | Replied onboard_resp =>
                         if raises_for_status onboard_resp then mret false
                         else add_onboarded account_email;; mret true
                     end
                 end
           | _ => mret false
           end
     end) ss.

(** ** The response handlers *)

(** [Response(content=resp.content, status_code=resp.status_code)]. *)
Definition passed_on (resp : HttpResponse) : Response :=
  mkResponse (Raw (content resp)) (status_code resp) None.

Definition _handle_non_streaming_response (resp : HttpResponse) : Response :=
  if status_code resp =? 200 then
    let text := text resp in
    let text :=
      if String.prefix "data: " text
      then drop_chars (String.length "data: ") text
      else text in
    match json_loads text with
    | Some (JObject parsed) =>
        let content := members_get_default "response" (JObject parsed) parsed in
        mkResponse (Dumps content) 200 (Some "application/json; charset=utf-8")
    | _ => passed_on resp
    end
  else
    match json_body resp with
    | Some (JObject error_data) =>
        match members_lookup "error" error_data with
        | Some error =>
            mkResponse (Dumps (JObject [("error", error)])) (status_code resp)
              (Some "application/json")
        | None => passed_on resp
        end
    | _ => passed_on resp
    end.

(** [error_message] of [_handle_streaming_response]. *)
Definition error_message (resp : HttpResponse) : json :=
  let error_message :=
    JString ("Google API error: " +:+ pretty (status_code resp)) in
  match json_body resp with
  | Some (JObject error_data) =>
      match members_lookup "error" error_data with
      | Some (JObject error) =>
          members_get_default "message" error_message error
      | _ => error_message
      end
  | _ => error_message
  end.

(** The event that ends a stream after an exception. *)
Definition stream_error (message : string) : event :=
  Data false
    (JObject [("error", JObject [("message", JString message);
                                 ("code", JInt 500)])]).

(** ["response" in obj] and the value yielded for [obj]; [None] when the
    test or the subscript raises [TypeError]. *)
Definition yielded (obj : json) : option json :=
  match obj with
  | JObject members => Some (members_get_default "response" obj members)
  | JArray items =>
      if existsb (fun v => match v with
                           | JString s => String.eqb s "response"
                           | _ => false
                           end) items
      then None else Some obj
  | JString s => if occurs "response" s then None else Some obj
  | _ => None
  end.

(** [stream_generator]: the events for the lines received, and for the
    exception that ends them. *)
Fixpoint stream_generator (lines : list string) (lines_error : option string)
    : list event :=
  match lines with
  | [] =>
      match lines_error with
      | Some message => [stream_error message]
      | None => []
      end
  | chunk :: rest =>
      if String.eqb chunk "" then stream_generator rest lines_error
      else if String.prefix "data: " chunk then
        let chunk := drop_chars (String.length "data: ") chunk in
        match json_loads chunk with
        | None => stream_generator rest lines_error
        | Some obj =>
            match yielded obj with
            | Some v => Data true v :: stream_generator rest lines_error
            | None => [stream_error (type_error_message obj)]
            end
        end
      else stream_generator rest lines_error
  end.

Definition _handle_streaming_response (resp : HttpResponse) : Response :=
  if negb (status_code resp =? 200) then
    let error_response :=
      JObject [("error", JObject [("message", error_message resp);
                                  ("type", JString "api_error");
                                  ("code", JInt (status_code resp))])] in
    mkResponse (Events [Data false error_response]) (status_code resp)
      (Some "text/event-stream")
  else
    mkResponse (Events (stream_generator (lines resp) (lines_error resp))) 200
      (Some "text/event-stream").

(** ** [send_rotated_request] *)

(** [Response(content=json.dumps({"error": {"message": message}}), ...)]. *)
Definition failure (message : string) (status : Z) : Response :=
  mkResponse (Dumps (JObject [("error", JObject [("message", JString message)])]))
    status (Some "application/json").

Definition exhausted : Response :=
  mkResponse
    (Dumps
       (JObject
          [("error",
            JObject
              [("message",
                JString
                  "All accounts exhausted or in cooldown. Try again later.");
               ("type", JString "rate_limit_error");
               ("code", JInt 429)])]))
    429 (Some "application/json").

(** The statements of [send_rotated_request] that follow
    [rotator = get_rotator()], on the rotator that call returned. *)
Definition route (payload : list (string * json)) (is_streaming : bool)
    : S Response :=
  pool ← on_rotator (attr accounts);
  match pool with
  | [] => ask (fun w => send_gemini_request w payload is_streaming)
  | _ =>
      account ← on_rotator (get_next_account clock);
      match account with
      | None => mret exhausted
      | Some account =>
          (* the [requests_in_window()] of the log line *)
          on_rotator (call account (Account.requests_in_window clock 60%Q));;
          creds ← _get_google_credentials account;
          '(account, creds) ←
            match creds with
            | Some creds => mret (account, Some creds)
            | None =>
                on_rotator
                  (Rotator.record_error clock account 500
                     "Failed to get credentials");;
                account2 ← on_rotator (get_next_account clock);
                match account2 with
                | Some account2 =>
                    creds ← _get_google_credentials account2;
                    mret (account2, creds)
                | None => mret (account, None)
                end
            end;
          match creds with
          | None => mret (failure "Authentication failed for all accounts" 500)
          | Some creds =>
              project_id ← getattr account project_id;
              account_email ← getattr account email;
              onboarded ← _ensure_onboarded creds project_id account_email;
              if (onboarded : bool) then
                let final_payload :=
                  JObject
                    [("model", members_get "model" payload);
                     ("project", JString project_id);
                     ("request",
                      members_get_default "request" (JObject []) payload)] in
                let action :=
                  if is_streaming then "streamGenerateContent"
                  else "generateContent" in
                let target_url :=
                  CODE_ASSIST_ENDPOINT +:+ "/v1internal:" +:+ action in
                let target_url :=
                  if is_streaming then target_url +:+ "?alt=sse"
                  else target_url in
                let request_headers :=
                  [("Authorization", "Bearer " +:+ format_attr (token creds));
                   ("Content-Type", "application/json");
                   ("User-Agent", get_user_agent)] in
                resp ← ask (fun w =>
                  post w (mkRequest target_url final_payload request_headers
                            None is_streaming));
                match resp with
                | Replied resp =>
                    (if status_code resp =? 200
                     then on_rotator (record_success clock account)
                     else on_rotator
                            (Rotator.record_error clock account
                               (status_code resp)
                               ("HTTP " +:+ pretty (status_code resp))));;
                    mret (if is_streaming
                          then _handle_streaming_response resp
                          else _handle_non_streaming_response resp)
                | RequestException e =>
                    on_rotator (Rotator.record_error clock account 502 e);;
                    mret (failure ("Request failed: " +:+ e) 502)
                end
              else
                on_rotator
                  (Rotator.record_error clock account 403 "Onboarding failed");;
                account_email ← getattr account email;
                mret (failure ("Onboarding failed for " +:+ account_email) 500)
          end
      end
  end.

(** Requests served one after the other on one rotator. *)
Fixpoint serve (requests : list (list (string * json) * bool))
    : S (list Response) :=
  match requests with
  | [] => mret []
  | (payload, is_streaming) :: rest =>
      response ← route payload is_streaming;
      responses ← serve rest;
      mret (response :: responses)
  end.

(** The module-level state: the global [_rotator], the clock readings made,
    [_onboarded_accounts], and the world. *)
Record Process : Type := mkProcess {
  _rotator : option AccountRotator;
  readings : nat;
  onboarded_accounts : gset string;
  outside : World
}.

(** What a request ends with. *)
Inductive ended : Type :=
  | Answered (response : Response)
  | RaisedValueError
  | RaisedOverflowError
  | Raised (e : exn).

Section Process.

Variable getenv : string -> option string.
Variable fs : Construction.FileSystem.
Variable int : string -> option Z.

Definition send_rotated_request (payload : list (string * json))
    (is_streaming : bool) (p : Process) : ended * Process :=
  match Construction.get_rotator getenv fs int (_rotator p) with
  | (Construction.ValueError, global) =>
      (RaisedValueError,
       mkProcess global (readings p) (onboarded_accounts p) (outside p))
  | (Construction.OverflowError, global) =>
      (RaisedOverflowError,
       mkProcess global (readings p) (onboarded_accounts p) (outside p))
  | (Construction.Returned rotator, global) =>
      match route payload is_streaming
              (mkSession (mkState rotator (readings p)) (onboarded_accounts p)
                 (outside p))
      with
      | Ok (response, ss) =>
          (Answered response,
           mkProcess (Some (rot (Client.rotator ss))) (ticks (Client.rotator ss))
             (_onboarded_accounts ss) (world ss))
      | Raise e =>
          (Raised e,
           mkProcess global (readings p) (onboarded_accounts p) (outside p))
      end
  end.

End Process.

End Client.

Arguments mkSession {World} rotator _onboarded_accounts world.
Arguments rotator {World} s.
Arguments _onboarded_accounts {World} s.
Arguments world {World} s.
Arguments on_rotator {World A} m _.
Arguments ask {World A} f _.
Arguments getattr {World A} account f _.
Arguments setitem_credentials {World} account key v _.
Arguments add_onboarded {World} account_email _.
Arguments mkProcess {World} _rotator readings onboarded_accounts outside.
Arguments _rotator {World} p.
Arguments readings {World} p.
Arguments onboarded_accounts {World} p.
Arguments outside {World} p.

End Client.

(** ** Notions used by the statements about the client *)

(** The pool as a request may leave it: the same size and limits, no
    clock reading undone, and every account with the identity, the refresh
    token and at least the counts it had; a disabled account stays
    disabled. *)
Definition same_pool (st st' : State) : Prop :=
  length (accounts (rot st')) = length (accounts (rot st)) /\
  max_rpm (rot st') = max_rpm (rot st) /\
  min_gap_s (rot st') = min_gap_s (rot st) /\
  (ticks st <= ticks st')%nat /\
  forall (j : nat) (a : AccountState),
    accounts (rot st) !! j = Some a ->
    exists a' : AccountState,
      accounts (rot st') !! j = Some a' /\
      email a' = email a /\
      credential_path a' = credential_path a /\
      project_id a' = project_id a /\
      dict_get "refresh_token" (credentials a') =
        dict_get "refresh_token" (credentials a) /\
      total_requests a <= total_requests a' /\
      total_errors a <= total_errors a' /\
      (is_healthy a = false -> is_healthy a' = false).

(** The account behind a reference is in the pool and holds no
    timestamp, as [get_next_account] leaves the account it returns. *)
Definition ready (h : nat) (st : State) : Prop :=
  exists a : AccountState,
    accounts (rot st) !! h = Some a /\ request_timestamps a = [].

(** The account holds at most one timestamp. *)
Definition at_most_one_timestamp (a : AccountState) : Prop :=
  (length (request_timestamps a) <= 1)%nat.

(** A computation of the client returns, with a result and a state that
    satisfy [Q]. *)
Definition returns {World A : Type} (m : Client.S World A)
    (Q : A -> Client.Session World -> Prop) (ss : Client.Session World)
    : Prop :=
  exists (x : A) (ss' : Client.Session World), m ss = Ok (x, ss') /\ Q x ss'.

(** A relation between states of the rotator that every step a request
    makes stays inside: the scan of [get_next_account], a window read, an
    error recorded, a success recorded on an account without timestamps,
    and an assignment to an entry of [credentials] other than the refresh
    token. *)
Definition kept_by_requests (clock : nat -> Q) (R : State -> State -> Prop)
    : Prop :=
  (forall st : State, R st st) /\
  (forall st1 st2 st3 : State, R st1 st2 -> R st2 st3 -> R st1 st3) /\
  (forall (st st' : State) (r : option nat),
     get_next_account clock st = Ok (r, st') -> R st st') /\
  (forall (st st' : State) (h : nat) (w : Q) (x : Z),
     call h (Account.requests_in_window clock w) st = Ok (x, st') ->
     R st st') /\
  (forall (st st' : State) (h : nat) (status_code : Z) (error_msg : string),
     Rotator.record_error clock h status_code error_msg st = Ok (tt, st') ->
     R st st') /\
  (forall (st st' : State) (h : nat),
     ready h st -> record_success clock h st = Ok (tt, st') -> R st st') /\
  (forall (st : State) (h : nat) (a : AccountState) (key v : string),
     accounts (rot st) !! h = Some a ->
     key <> "refresh_token" ->
     R st (mkState
             (set_accounts
                (<[h := set_credentials (dict_set key v (credentials a)) a]>
                   (accounts (rot st))) (rot st))
             (ticks st))).

(** A line of the upstream stream on which [stream_generator] raises
    [TypeError]: a data line that parses to a value without the test
    ["response" in obj], or on which the subscript fails. *)
Definition raises_type_error (json_loads : string -> option json)
    (chunk : string) : bool :=
  String.prefix "data: " chunk &&
  match json_loads (drop_chars (String.length "data: ") chunk) with
  | Some obj =>
      match Client.yielded obj with
      | Some _ => false
      | None => true
      end
  | None => false
  end.

(** ** A world for the closed instances

    The world is the number of calls made into it.  Google accepts the
    credentials of a file that holds a refresh token and calls them
    expired when the file holds no access token; a refresh gives the token
    ["t-fresh"].  The upstream answers every call with the same reply. *)
Definition sample_from_authorized_user_info (d : dict)
    : option (Client.Credentials unit) :=
  match dict_get "refresh_token" d with
  | Some r => Some (Client.mkCredentials (dict_get "token" d) (Some r) None)
  | None => None
  end.

Definition sample_expired (w : nat) (c : Client.Credentials unit) : bool :=
  negb (Client.truthy_attr (Client.token c)).

Definition sample_refresh (w : nat) (c : Client.Credentials unit)
    : option (string * option unit) * nat :=
  (Some ("t-fresh", Some tt), S w).

Definition sample_isoformat_utc (e : unit) : string :=
  "2030-01-01T00:00:00+00:00".

Definition sample_json_loads (s : string) : option json :=
  if String.eqb s "1" then Some (JInt 1)
  else if String.eqb s "{}" then Some (JObject [])
  else if String.eqb s "[]" then Some (JArray [])
  else None.

Definition sample_type_error_message (v : json) : string :=
  "argument of type 'int' is not iterable".

Definition sample_reply : Client.HttpResponse :=
  Client.mkHttpResponse 200
    (Some (JObject [("currentTier", JObject [("id", JString "free-tier")])]))
    "{}" "{}" ["data: {}"; ""; ": keep-alive"; "data: []"] None.

Definition sample_post (w : nat) (request : Client.Request)
    : Client.posted * nat :=
  (Client.Replied sample_reply, S w).

Definition sample_send_gemini_request (w : nat)
    (payload : list (string * json)) (is_streaming : bool)
    : Client.Response * nat :=
  (Client.mkResponse (Client.Raw "single-account reply") 200 None, S w).

Definition sample_serve
    : list (list (string * json) * bool) ->
      Client.S nat (list Client.Response) :=
  Client.serve (stepping_clock 1) nat unit sample_from_authorized_user_info
    sample_expired sample_refresh sample_isoformat_utc sample_post
    sample_json_loads sample_type_error_message sample_send_gemini_request
    "https://cloudcode-pa.googleapis.com" "geminicli2api" (fun _ => JObject []).

Definition sample_send_rotated_request
    : list (string * json) -> bool -> Client.Process nat ->
      Client.ended * Client.Process nat :=
  Client.send_rotated_request (stepping_clock 1) nat unit
    sample_from_authorized_user_info sample_expired sample_refresh
    sample_isoformat_utc sample_post sample_json_loads
    sample_type_error_message sample_send_gemini_request
    "https://cloudcode-pa.googleapis.com" "geminicli2api" (fun _ => JObject [])
    sample_getenv sample_fs sample_int.

(** Two accounts, none onboarded, no call made yet. *)
Definition sample_session : Client.Session nat :=
  Client.mkSession (fresh_rotator [alice; bob] 1) ∅ 0%nat.

Definition sample_requests : list (list (string * json) * bool) :=
  [([("model", JString "gemini-2.5-pro")], false);
   ([("model", JString "gemini-2.5-pro"); ("request", JObject [])], true)].

(** A pool whose only account is disabled. *)
Definition disabled_session : Client.Session nat :=
  Client.mkSession (fresh_rotator [set_is_healthy false alice] 1) ∅ 0%nat.

(** A process that has served no request, and a file system without the
    credentials directory. *)
Definition sample_process : Client.Process nat :=
  Client.mkProcess None 1%nat ∅ 0%nat.

Definition no_directory : Construction.FileSystem :=
  Construction.mkFileSystem (fun _ => false) (fun _ => []) (fun _ => None).

(** * Properties *)

(** ** Comparisons *)

Lemma Qltb_lt (x y : Q) : Qltb x y = true <-> (x < y)%Q.
Proof.
  unfold Qltb. rewrite negb_true_iff. split.
  - intros H. apply Qnot_le_lt. intros Hle.
    apply Qle_bool_iff in Hle. congruence.
  - intros H. destruct (Qle_bool y x) eqn:E; [|reflexivity].
    apply Qle_bool_iff in E. exfalso. apply (Qlt_not_le _ _ H E).
Qed.

Lemma Qltb_ge (x y : Q) : Qltb x y = false <-> (y <= x)%Q.
Proof.
  unfold Qltb. rewrite negb_false_iff. apply Qle_bool_iff.
Qed.

(** ** Method calls through a reference *)

Lemma call_ok {A : Type} (h : nat)
    (method : AccountState -> Clock (A * AccountState)) (s : State)
    (a : AccountState) :
  accounts (rot s) !! h = Some a ->
  call h method s =
    Ok ((method a (ticks s)).1.1,
        mkState (set_accounts (<[h := (method a (ticks s)).1.2]>
                                 (accounts (rot s))) (rot s))
                (method a (ticks s)).2).
Proof.
  intros Hh. unfold call. rewrite Hh.
  destruct (method a (ticks s)) as [[x a'] k]. reflexivity.
Qed.

Lemma call_dangling {A : Type} (h : nat)
    (method : AccountState -> Clock (A * AccountState)) (s : State) :
  accounts (rot s) !! h = None -> call h method s = Raise DanglingReference.
Proof. intros Hh. unfold call. now rewrite Hh. Qed.

(** ** The backoff table *)

Lemma backoff_seconds_table (n : Z) :
  (n = 1 -> backoff_seconds n = 30) /\
  (n = 2 -> backoff_seconds n = 60) /\
  (n = 3 -> backoff_seconds n = 120) /\
  (n = 4 -> backoff_seconds n = 240) /\
  (5 <= n -> backoff_seconds n = 300).
Proof.
  repeat split; try (intros ->; reflexivity).
  intros Hn. unfold backoff_seconds.
  assert (2 ^ 4 <= 2 ^ (n - 1)) by (apply Z.pow_le_mono_r; lia).
  change (2 ^ 4) with 16 in *. lia.
Qed.

(** A rate-limit error on an account, at the level of the object. *)
Lemma account_record_error_rate_limit (clock : nat -> Q) (msg : string)
    (a : AccountState) (k : nat) :
  Account.record_error clock msg true a k =
    (tt, set_cooldown_until
           (clock k + inject_Z (backoff_seconds (consecutive_errors a + 1)))%Q
           (set_last_error (Some msg)
              (set_consecutive_errors (consecutive_errors a + 1)
                 (set_total_errors (total_errors a + 1) a))),
     S k).
Proof. reflexivity. Qed.

(** C1, as amended.  A [record_error] call with status 429 or 503 on an
    account whose count of consecutive errors is not negative returns
    normally, reads the clock once, leaves the count at [n], one more than
    before, and sets [cooldown_until] to the instant read plus
    [min(30 * 2^(n-1), 300)] seconds: 30 for [n = 1], 60 for [n = 2], 120
    for [n = 3], 240 for [n = 4] and 300 for every [n >= 5]. *)
Theorem record_error_rate_limit_backoff (clock : nat -> Q) (s : State)
    (h : nat) (a : AccountState) (status_code : Z) (error_msg : string) :
  accounts (rot s) !! h = Some a ->
  0 <= consecutive_errors a ->
  status_code = 429 \/ status_code = 503 ->
  exists a' : AccountState,
    Rotator.record_error clock h status_code error_msg s =
      Ok (tt, mkState (set_accounts (<[h := a']> (accounts (rot s))) (rot s))
                      (S (ticks s))) /\
    let n := consecutive_errors a' in
    let now := clock (ticks s) in
    n = consecutive_errors a + 1 /\
    cooldown_until a' = (now + inject_Z (Z.min (30 * 2 ^ (n - 1)) 300))%Q /\
    (n = 1 -> cooldown_until a' = (now + inject_Z 30)%Q) /\
    (n = 2 -> cooldown_until a' = (now + inject_Z 60)%Q) /\
    (n = 3 -> cooldown_until a' = (now + inject_Z 120)%Q) /\
    (n = 4 -> cooldown_until a' = (now + inject_Z 240)%Q) /\
    (5 <= n -> cooldown_until a' = (now + inject_Z 300)%Q).
Proof.
  intros Hh Hc Hst.
  assert (Hrl : (status_code =? 429) || (status_code =? 503) = true).
  { destruct Hst as [-> | ->]; reflexivity. }
  eexists. split.
  - unfold Rotator.record_error. rewrite Hrl.
    rewrite (call_ok _ _ _ _ Hh), account_record_error_rate_limit.
    reflexivity.
  - cbn -[Z.pow Z.mul Z.min inject_Z].
    destruct (backoff_seconds_table (consecutive_errors a + 1))
      as (H1 & H2 & H3 & H4 & H5).
    unfold backoff_seconds in *.
    repeat split; try reflexivity; intros Hn.
    + now rewrite (H1 Hn).
    + now rewrite (H2 Hn).
    + now rewrite (H3 Hn).
    + now rewrite (H4 Hn).
    + now rewrite (H5 Hn).
Qed.

Lemma record_error_rate_limit_backoff_witness :
  exists a' : AccountState,
    Rotator.record_error (stepping_clock 1) 0 429 "HTTP 429"
        (fresh_rotator [alice] 1) =
      Ok (tt, mkState (set_accounts (<[0%nat := a']> [alice])
                         (rot (fresh_rotator [alice] 1))) 2) /\
    let n := consecutive_errors a' in
    let now := stepping_clock 1 1 in
    n = consecutive_errors alice + 1 /\
    cooldown_until a' = (now + inject_Z (Z.min (30 * 2 ^ (n - 1)) 300))%Q /\
    (n = 1 -> cooldown_until a' = (now + inject_Z 30)%Q) /\
    (n = 2 -> cooldown_until a' = (now + inject_Z 60)%Q) /\
    (n = 3 -> cooldown_until a' = (now + inject_Z 120)%Q) /\
    (n = 4 -> cooldown_until a' = (now + inject_Z 240)%Q) /\
    (5 <= n -> cooldown_until a' = (now + inject_Z 300)%Q).
Proof.
  apply (record_error_rate_limit_backoff (stepping_clock 1)
           (fresh_rotator [alice] 1) 0 alice 429 "HTTP 429").
  - reflexivity.
  - simpl. lia.
  - left. reflexivity.
Defined.

(** The claim as the specification states it fails at the fourth
    consecutive rate-limit error: the fourth of four 429 responses on a
    fresh account leaves [consecutive_errors = 4] and a cooldown that ends
    240 seconds, not 300 seconds, after the instant the call reads. *)
Lemma fourth_rate_limit_error_backs_off_240_not_300 :
  let clock := stepping_clock 1 in
  let four := [(429, "HTTP 429"); (429, "HTTP 429");
               (429, "HTTP 429"); (429, "HTTP 429")] in
  exists (s' : State) (a' : AccountState),
    record_errors clock 0 four (fresh_rotator [alice] 0) = Ok (tt, s') /\
    accounts (rot s') !! 0%nat = Some a' /\
    consecutive_errors a' = 4 /\
    (cooldown_until a' == clock 3%nat + inject_Z 240)%Q /\
    ~ (cooldown_until a' == clock 3%nat + inject_Z 300)%Q.
Proof.
  do 2 eexists. split; [vm_compute; reflexivity|].
  split; [reflexivity|]. split; [reflexivity|].
  split; [reflexivity|]. intros H. vm_compute in H. discriminate H.
Qed.

(** ** Sequencing *)

Lemma M_bind_ok {A B : Type} (m : M A) (f : A -> M B) (s s' : State)
    (x : A) :
  m s = Ok (x, s') -> (m ≫= f) s = f x s'.
Proof. intros H. unfold mbind, M_bind. now rewrite H. Qed.

Lemma M_bind_raise {A B : Type} (m : M A) (f : A -> M B) (s : State)
    (e : exn) :
  m s = Raise e -> (m ≫= f) s = Raise e.
Proof. intros H. unfold mbind, M_bind. now rewrite H. Qed.

(** ** Errors reported in a row *)

Lemma same_rotator_but_refl (h : nat) (s : State) : same_rotator_but h s s.
Proof. repeat split. Qed.

Lemma same_rotator_but_trans (h : nat) (s1 s2 s3 : State) :
  same_rotator_but h s1 s2 -> same_rotator_but h s2 s3 ->
  same_rotator_but h s1 s3.
Proof.
  intros (L1 & O1 & A1 & B1 & C1) (L2 & O2 & A2 & B2 & C2).
  repeat split; try congruence.
  intros j Hj. rewrite (O2 j Hj). apply (O1 j Hj).
Qed.

Lemma call_spec {A : Type} (h : nat)
    (method : AccountState -> Clock (A * AccountState)) (s : State)
    (a : AccountState) :
  accounts (rot s) !! h = Some a ->
  exists s' : State,
    call h method s = Ok ((method a (ticks s)).1.1, s') /\
    accounts (rot s') !! h = Some (method a (ticks s)).1.2 /\
    ticks s' = (method a (ticks s)).2 /\
    same_rotator_but h s s'.
Proof.
  intros Hh. eexists. split; [apply (call_ok _ _ _ _ Hh)|].
  cbn. split.
  - apply list_lookup_insert_eq. eapply lookup_lt_Some, Hh.
  - split; [reflexivity|]. repeat split.
    + apply length_insert.
    + intros j Hj. apply list_lookup_insert_ne. congruence.
Qed.

Lemma record_errors_invariant (clock : nat -> Q) (h : nat)
    (P : nat -> AccountState -> Prop) (good : Z * string -> Prop) :
  (forall (n k : nat) (a : AccountState) (e : Z * string),
      good e -> P n a -> P (S n) (after_error clock e k a)) ->
  forall (errors : list (Z * string)) (s : State) (a : AccountState)
         (n : nat),
    Forall good errors ->
    accounts (rot s) !! h = Some a ->
    P n a ->
    exists (s' : State) (a' : AccountState),
      record_errors clock h errors s = Ok (tt, s') /\
      accounts (rot s') !! h = Some a' /\
      P (n + length errors)%nat a' /\
      same_rotator_but h s s'.
Proof.
  intros Hstep errors. induction errors as [|[status msg] errors IH];
    intros s a n Hgood Hh HP.
  - exists s, a. cbn. rewrite Nat.add_0_r.
    split; [reflexivity|]. split; [assumption|]. split; [assumption|].
    apply same_rotator_but_refl.
  - apply Forall_cons in Hgood as [Hg Hgood].
    destruct (call_spec h (Account.record_error clock msg
                ((status =? 429) || (status =? 503))) s a Hh)
      as (s1 & Hcall & Hh1 & _ & Hsame1).
    destruct (IH s1 _ (S n) Hgood Hh1 (Hstep n (ticks s) a (status, msg) Hg HP))
      as (s' & a' & Hrun & Hh' & HP' & Hsame').
    exists s', a'. split.
    + cbn [record_errors]. erewrite M_bind_ok; [exact Hrun|].
      unfold Rotator.record_error. rewrite Hcall.
      now destruct ((Account.record_error clock msg _ a (ticks s)).1.1).
    + split; [assumption|]. split.
      * cbn [length]. now rewrite Nat.add_succ_r.
      * eapply same_rotator_but_trans; eassumption.
Qed.

(** ** Facts about the two outcome methods of an account *)

Lemma record_request_fields (clock : nat -> Q) (a : AccountState) (k : nat) :
  let r := Account.record_request clock a k in
  r.2 = S k /\
  request_timestamps r.1.2 = request_timestamps a ++ [clock k] /\
  total_requests r.1.2 = total_requests a + 1 /\
  consecutive_errors r.1.2 = 0 /\
  is_healthy r.1.2 = is_healthy a /\
  cooldown_until r.1.2 = cooldown_until a.
Proof. cbn. repeat split. Qed.

Lemma after_error_fields (clock : nat -> Q) (e : Z * string) (k : nat)
    (a : AccountState) :
  let a' := after_error clock e k a in
  request_timestamps a' = request_timestamps a /\
  total_requests a' = total_requests a /\
  total_errors a' = total_errors a + 1 /\
  consecutive_errors a' = consecutive_errors a + 1 /\
  last_error a' = Some e.2.
Proof.
  unfold after_error, Account.record_error.
  destruct ((e.1 =? 429) || (e.1 =? 503)); [cbn; repeat split|].
  cbn -[Z.leb]. destruct (5 <=? consecutive_errors a + 1); cbn; repeat split.
Qed.

Lemma after_error_is_healthy (clock : nat -> Q) (e : Z * string) (k : nat)
    (a : AccountState) :
  is_healthy (after_error clock e k a) =
    if (e.1 =? 429) || (e.1 =? 503) then is_healthy a
    else if 5 <=? consecutive_errors a + 1 then false
    else is_healthy a.
Proof.
  unfold after_error, Account.record_error.
  destruct ((e.1 =? 429) || (e.1 =? 503)); [reflexivity|].
  cbn -[Z.leb]. now destruct (5 <=? consecutive_errors a + 1).
Qed.

Lemma not_rate_limit_test (e : Z * string) :
  not_rate_limit e -> (e.1 =? 429) || (e.1 =? 503) = false.
Proof.
  intros [H1 H2]. apply orb_false_iff. split; now apply Z.eqb_neq.
Qed.

(** A run of [record_error] calls on one account, all with status
    codes other than 429 and 503, returns normally and adds its length to
    [consecutive_errors].  When the count was not negative before it, a
    run of five leaves [is_healthy] false.  When the run starts the streak
    (the account is healthy and its count is 0: a new account, or one whose
    last outcome was a success), [is_healthy] is true after the run exactly
    when the run is shorter than five, so a run of four leaves it true. *)
Lemma five_consecutive_errors_disable (clock : nat -> Q) (s : State)
    (h : nat) (a : AccountState) (errors : list (Z * string)) :
  accounts (rot s) !! h = Some a ->
  0 <= consecutive_errors a ->
  Forall not_rate_limit errors ->
  exists (s' : State) (a' : AccountState),
    record_errors clock h errors s = Ok (tt, s') /\
    accounts (rot s') !! h = Some a' /\
    consecutive_errors a' = consecutive_errors a + len errors /\
    (length errors = 5%nat -> is_healthy a' = false) /\
    (consecutive_errors a = 0 -> is_healthy a = true ->
     is_healthy a' = (len errors <? 5) /\
     (length errors = 4%nat -> is_healthy a' = true)).
Proof.
  intros Hh Hcount Hgood.
  destruct (record_errors_invariant clock h
              (fun n a' =>
                 consecutive_errors a' = consecutive_errors a + Z.of_nat n /\
                 ((1 <= n)%nat -> 5 <= consecutive_errors a + Z.of_nat n ->
                  is_healthy a' = false) /\
                 (consecutive_errors a + Z.of_nat n < 5 ->
                  is_healthy a' = is_healthy a))
              not_rate_limit) with (errors := errors) (s := s) (a := a)
              (n := 0%nat)
    as (s' & a' & Hrun & Hh' & (Hc' & Hdis & Hkeep) & _); try assumption.
  - intros n k b e He (Hc & Hdis & Hkeep).
    destruct (after_error_fields clock e k b) as (_ & _ & _ & Hc1 & _).
    split; [lia|].
    rewrite after_error_is_healthy, (not_rate_limit_test e He), Hc.
    destruct (Z.leb_spec 5 (consecutive_errors a + Z.of_nat n + 1)).
    + split; [reflexivity|]. lia.
    + split; [lia|]. intros _. apply Hkeep. lia.
  - split; [lia|]. split; [lia | reflexivity].
  - exists s', a'. cbn [Nat.add] in Hc', Hdis, Hkeep. unfold len.
    split; [assumption|]. split; [assumption|]. split; [assumption|]. split.
    + intros H5. apply Hdis; lia.
    + intros H0 Hhealthy.
      assert (Heq : is_healthy a' = (Z.of_nat (length errors) <? 5)).
      { destruct (Z.ltb_spec (Z.of_nat (length errors)) 5).
        - rewrite Hkeep by lia. assumption.
        - apply Hdis; lia. }
      split; [assumption|]. intros H4. rewrite Heq, H4. reflexivity.
Qed.

Lemma record_success_spec (clock : nat -> Q) (s : State) (h : nat)
    (a : AccountState) :
  accounts (rot s) !! h = Some a ->
  exists s' : State,
    record_success clock h s = Ok (tt, s') /\
    accounts (rot s') !! h = Some (Account.record_request clock a (ticks s)).1.2 /\
    ticks s' = S (ticks s) /\
    same_rotator_but h s s'.
Proof.
  intros Hh. unfold record_success.
  destruct (call_spec h (Account.record_request clock) s a Hh)
    as (s' & Hcall & Hh' & Ht & Hsame).
  exists s'. repeat split; try assumption; apply Hsame.
Qed.

Lemma record_error_spec (clock : nat -> Q) (s : State) (h : nat)
    (a : AccountState) (status_code : Z) (error_msg : string) :
  accounts (rot s) !! h = Some a ->
  exists s' : State,
    Rotator.record_error clock h status_code error_msg s = Ok (tt, s') /\
    accounts (rot s') !! h =
      Some (after_error clock (status_code, error_msg) (ticks s) a) /\
    same_rotator_but h s s'.
Proof.
  intros Hh. unfold Rotator.record_error.
  destruct (call_spec h (Account.record_error clock error_msg
              ((status_code =? 429) || (status_code =? 503))) s a Hh)
    as (s' & Hcall & Hh' & _ & Hsame).
  exists s'. split; [|split; assumption].
  rewrite Hcall. now destruct (Account.record_error _ _ _ _ _).1.1.
Qed.

(** C6 fails on the code.  [consecutive_errors] counts every error since
    the last success, those with status 429 and 503 too, and the threshold
    of five tests that count.  On an account whose count is 0, one 429 or
    503 followed by four errors with other status codes leaves [is_healthy]
    false: four consecutive non-rate-limit errors, with no success in
    between, disable the account, where the claim (and the comment of the
    source, [5 consecutive non-rate-limit errors = disable account]) asks
    for five. *)
Theorem four_errors_after_a_rate_limit_disable (clock : nat -> Q) (s : State)
    (h : nat) (a : AccountState) (status_code : Z) (error_msg : string)
    (errors : list (Z * string)) :
  accounts (rot s) !! h = Some a ->
  is_healthy a = true ->
  consecutive_errors a = 0 ->
  status_code = 429 \/ status_code = 503 ->
  Forall not_rate_limit errors ->
  length errors = 4%nat ->
  exists (s1 s' : State) (a1 a' : AccountState),
    Rotator.record_error clock h status_code error_msg s = Ok (tt, s1) /\
    accounts (rot s1) !! h = Some a1 /\
    is_healthy a1 = true /\
    record_errors clock h errors s1 = Ok (tt, s') /\
    accounts (rot s') !! h = Some a' /\
    consecutive_errors a' = 5 /\
    is_healthy a' = false.
Proof.
  intros Hh Hhealthy Hcount Hst Hgood Hlen.
  destruct (record_error_spec clock s h a status_code error_msg Hh)
    as (s1 & Herr & Hh1 & _).
  set (a1 := after_error clock (status_code, error_msg) (ticks s) a) in *.
  assert (Hrl : (status_code =? 429) || (status_code =? 503) = true).
  { destruct Hst as [-> | ->]; reflexivity. }
  assert (Hhealthy1 : is_healthy a1 = true).
  { subst a1. rewrite after_error_is_healthy. cbn [fst]. now rewrite Hrl. }
  assert (Hcount1 : consecutive_errors a1 = 1).
  { destruct (after_error_fields clock (status_code, error_msg) (ticks s) a)
      as (_ & _ & _ & Hc & _). fold a1 in Hc. lia. }
  destruct (record_errors_invariant clock h
              (fun n a' =>
                 consecutive_errors a' = 1 + Z.of_nat n /\
                 ((4 <= n)%nat -> is_healthy a' = false))
              not_rate_limit) with (errors := errors) (s := s1) (a := a1)
              (n := 0%nat)
    as (s' & a' & Hrun & Hh' & (Hc' & Hdis) & _); try assumption.
  - intros n k b e He (Hc & Hdis).
    destruct (after_error_fields clock e k b) as (_ & _ & _ & Hc1 & _).
    split; [lia|]. intros Hn.
    rewrite after_error_is_healthy, (not_rate_limit_test e He), Hc.
    destruct (Z.leb_spec 5 (1 + Z.of_nat n + 1)); [reflexivity | lia].
  - split; [lia|]. lia.
  - exists s1, s', a1, a'. rewrite Hlen in Hc', Hdis. cbn [Nat.add] in Hdis.
    split; [exact Herr|]. split; [exact Hh1|]. split; [exact Hhealthy1|].
    split; [exact Hrun|]. split; [exact Hh'|]. split; [lia|].
    apply Hdis. lia.
Qed.

Lemma four_errors_after_a_rate_limit_disable_witness :
  exists (s1 s' : State) (a1 a' : AccountState),
    Rotator.record_error (stepping_clock 1) 0 429 "HTTP 429"
      (fresh_rotator [alice] 1) = Ok (tt, s1) /\
    accounts (rot s1) !! 0%nat = Some a1 /\
    is_healthy a1 = true /\
    record_errors (stepping_clock 1) 0
      [(500, "HTTP 500"); (403, "Onboarding failed");
       (502, "connection reset"); (500, "HTTP 500")] s1 = Ok (tt, s') /\
    accounts (rot s') !! 0%nat = Some a' /\
    consecutive_errors a' = 5 /\
    is_healthy a' = false.
Proof.
  apply (four_errors_after_a_rate_limit_disable (stepping_clock 1)
           (fresh_rotator [alice] 1) 0 alice 429 "HTTP 429").
  - reflexivity.
  - reflexivity.
  - reflexivity.
  - now left.
  - repeat constructor; cbn; lia.
  - reflexivity.
Defined.

(** C9.  Whatever errors were reported on an account, a success recorded
    after them leaves [consecutive_errors = 0], and a 429 or 503 reported
    next leaves the count at 1 and sets [cooldown_until] exactly 30 seconds
    after the instant that call reads. *)
Theorem success_resets_backoff (clock : nat -> Q) (s : State) (h : nat)
    (a : AccountState) (errors : list (Z * string)) (status_code : Z)
    (error_msg : string) :
  accounts (rot s) !! h = Some a ->
  status_code = 429 \/ status_code = 503 ->
  exists (s1 s2 s3 : State) (a2 a3 : AccountState),
    record_errors clock h errors s = Ok (tt, s1) /\
    record_success clock h s1 = Ok (tt, s2) /\
    accounts (rot s2) !! h = Some a2 /\
    consecutive_errors a2 = 0 /\
    Rotator.record_error clock h status_code error_msg s2 = Ok (tt, s3) /\
    accounts (rot s3) !! h = Some a3 /\
    consecutive_errors a3 = 1 /\
    cooldown_until a3 = (clock (ticks s2) + inject_Z 30)%Q.
Proof.
  intros Hh Hst.
  destruct (record_errors_invariant clock h (fun _ _ => True)
              (fun _ => True)) with (errors := errors) (s := s) (a := a)
              (n := 0%nat)
    as (s1 & a1 & Hrun & Hh1 & _ & _); try easy.
  { now apply Forall_forall. }
  destruct (record_success_spec clock s1 h a1 Hh1)
    as (s2 & Hok & Hh2 & _ & _).
  destruct (record_error_spec clock s2 h _ status_code error_msg Hh2)
    as (s3 & Herr & Hh3 & _).
  exists s1, s2, s3. do 2 eexists.
  split; [exact Hrun|]. split; [exact Hok|]. split; [exact Hh2|].
  split; [reflexivity|]. split; [exact Herr|]. split; [exact Hh3|].
  unfold after_error. cbn [fst snd].
  assert (Hrl : (status_code =? 429) || (status_code =? 503) = true).
  { destruct Hst as [-> | ->]; reflexivity. }
  rewrite Hrl, account_record_error_rate_limit. split; reflexivity.
Qed.

Lemma success_resets_backoff_witness :
  let clock := stepping_clock 1 in
  let errors := [(429, "HTTP 429"); (503, "HTTP 503"); (500, "HTTP 500")] in
  exists (s1 s2 s3 : State) (a2 a3 : AccountState),
    record_errors clock 1 errors (fresh_rotator [alice; bob] 0) =
      Ok (tt, s1) /\
    record_success clock 1 s1 = Ok (tt, s2) /\
    accounts (rot s2) !! 1%nat = Some a2 /\
    consecutive_errors a2 = 0 /\
    Rotator.record_error clock 1 429 "HTTP 429" s2 = Ok (tt, s3) /\
    accounts (rot s3) !! 1%nat = Some a3 /\
    consecutive_errors a3 = 1 /\
    cooldown_until a3 = (clock (ticks s2) + inject_Z 30)%Q.
Proof.
  apply (success_resets_backoff (stepping_clock 1)
           (fresh_rotator [alice; bob] 0) 1 bob).
  - reflexivity.
  - left. reflexivity.
Defined.

(** ** The loop of [get_next_account] and the rotation order *)

Lemma getitem_mod {A : Type} `{Inhabited A} (l : list A) (c : Z) :
  l <> [] ->
  getitem l (c mod len l) = Ok (l !!! Z.to_nat (c mod len l)).
Proof.
  intros Hne. unfold getitem, len. cbv zeta.
  assert (0 < Z.of_nat (length l)) by (destruct l; [congruence | cbn; lia]).
  pose proof (Z.mod_pos_bound c (Z.of_nat (length l)) ltac:(lia)) as Hb.
  destruct (Z.ltb_spec (c mod Z.of_nat (length l)) 0); [lia|].
  destruct (Z.ltb_spec (c mod Z.of_nat (length l)) 0); [lia|].
  destruct (l !! Z.to_nat (c mod Z.of_nat (length l))) eqn:E.
  - now rewrite (list_lookup_total_correct _ _ _ E).
  - apply lookup_ge_None in E. lia.
Qed.

Lemma rotation_from_S (available : list nat) (c : Z) (n : nat) :
  available <> [] ->
  rotation_from available c (S n) =
    available !!! Z.to_nat (c mod len available)
      :: rotation_from available ((c + 1) mod len available) n.
Proof.
  intros Hne. unfold rotation_from. cbn [seq map]. f_equal.
  - now rewrite Z.add_0_r.
  - rewrite <- seq_shift, map_map. apply map_ext. intros k.
    do 2 f_equal. rewrite Zplus_mod_idemp_l. f_equal. lia.
Qed.

Lemma call_inv {A : Type} (h : nat)
    (method : AccountState -> Clock (A * AccountState)) (s s' : State)
    (x : A) :
  call h method s = Ok (x, s') ->
  exists a : AccountState,
    accounts (rot s) !! h = Some a /\
    x = (method a (ticks s)).1.1 /\
    accounts (rot s') !! h = Some (method a (ticks s)).1.2 /\
    ticks s' = (method a (ticks s)).2 /\
    same_rotator_but h s s'.
Proof.
  intros Hcall. destruct (accounts (rot s) !! h) as [a|] eqn:Hh.
  - destruct (call_spec h method s a Hh) as (s1 & Hcall1 & Hh1 & Ht & Hsame).
    rewrite Hcall in Hcall1. injection Hcall1 as -> ->.
    exists a. repeat split; try assumption; apply Hsame.
  - rewrite (call_dangling _ _ _ Hh) in Hcall. discriminate.
Qed.

Lemma loop_refines (clock : nat -> Q) (available : list nat) (n : nat) (s : State) :
  available <> [] ->
  get_next_account_loop clock available n s =
    first_passing clock (len available)
      (rotation_from available (_current_index (rot s)) n) s.
Proof.
  intros Hne. revert s. induction n as [|n IH]; intros s; [reflexivity|].
  rewrite rotation_from_S by assumption.
  cbn [get_next_account_loop first_passing].
  unfold passes_checks.
  unfold mbind, M_bind, attr, lift_result, py_mod, assign_current_index, mret, M_ret.
  assert ((len available =? 0) = false) as ->.
  { apply Z.eqb_neq. destruct available; [congruence | unfold len; cbn; lia]. }
  rewrite getitem_mod by assumption.
  cbn [rot ticks].
  set (h := available !!! Z.to_nat (_current_index (rot s) mod len available)).
  set (s1 := mkState _ _).
  destruct (call h (requests_in_window clock 60) s1) as [[count s2]|e] eqn:E1;
    [|reflexivity].
  apply call_inv in E1 as (_ & _ & _ & _ & _ & _ & _ & _ & _ & Hc2).
  destruct (max_rpm (rot s2) <=? count).
  - rewrite IH, Hc2. reflexivity.
  - destruct (call h (requests_in_window clock (min_gap_s (rot s2))) s2)
      as [[recent s3]|e] eqn:E2; [|reflexivity].
    apply call_inv in E2 as (_ & _ & _ & _ & _ & _ & _ & _ & _ & Hc3).
    destruct (0 <? recent); cbn [negb]; [|reflexivity].
    rewrite IH, Hc3, Hc2. reflexivity.
Qed.

Lemma get_next_account_refines (clock : nat -> Q) (s : State) :
  get_next_account clock s = select_spec clock s.
Proof.
  unfold get_next_account, select_spec.
  destruct (available_accounts clock s) as [[available s1]|e] eqn:E.
  - rewrite !(M_bind_ok _ _ _ _ _ E).
    destruct available as [|h0 available]; [reflexivity|].
    rewrite loop_refines by discriminate. reflexivity.
  - now rewrite !(M_bind_raise _ _ _ _ E).
Qed.

(** ** One candidate examined *)

Lemma passes_checks_eq (clock : nat -> Q) (c : nat) (s : State)
    (a : AccountState) :
  accounts (rot s) !! c = Some a ->
  passes_checks clock c s =
    Ok ((examined clock (rot s) (ticks s) a).1.1,
        mkState (set_accounts
                   (<[c := (examined clock (rot s) (ticks s) a).1.2]>
                      (accounts (rot s))) (rot s))
                (examined clock (rot s) (ticks s) a).2).
Proof.
  intros Hc. pose proof (lookup_lt_Some _ _ _ Hc) as Hlt.
  unfold passes_checks, examined.
  rewrite (M_bind_ok _ _ _ _ _ (call_ok _ _ _ _ Hc)).
  unfold mbind, M_bind, attr, mret, M_ret.
  cbn [Account.requests_in_window time_time mbind Clock_bind mret Clock_ret
       fst snd rot ticks max_rpm min_gap_s set_accounts accounts
       request_timestamps set_request_timestamps]. 
  unfold len.
  destruct (max_rpm (rot s) <=? _); [reflexivity|].
  erewrite call_ok; [|apply list_lookup_insert_eq, Hlt].
  cbn [Account.requests_in_window time_time mbind Clock_bind mret Clock_ret
       fst snd rot ticks max_rpm min_gap_s set_accounts accounts
       request_timestamps set_request_timestamps credentials_dir _current_index
       email credential_path credentials project_id total_requests total_errors
       is_healthy cooldown_until consecutive_errors last_error].
  rewrite list_insert_insert_eq. reflexivity.
Qed.

Lemma first_passing_cons (clock : nat -> Q) (modulus : Z) (c : nat)
    (rest : list nat) (s : State) (a : AccountState) :
  accounts (rot s) !! c = Some a ->
  first_passing clock modulus (c :: rest) s =
    if (examined clock (rot s) (ticks s) a).1.1
    then Ok (Some c, examined_state clock modulus c a s)
    else first_passing clock modulus rest (examined_state clock modulus c a s).
Proof.
  intros Hc. cbn [first_passing].
  unfold mbind at 1 2, M_bind, attr, assign_current_index.
  erewrite M_bind_ok; [|apply passes_checks_eq; exact Hc].
  cbn [rot ticks set_current_index max_rpm min_gap_s accounts].
  unfold examined_state.
  change (examined clock (set_current_index _ (rot s))) with
    (examined clock (rot s)).
  destruct (examined clock (rot s) (ticks s) a).1.1; reflexivity.
Qed.

(** ** The list of available accounts *)

Lemma is_available_eq (clock : nat -> Q) (a : AccountState) (k : nat) :
  Account.is_available clock a k =
    if is_healthy a then (Qltb (cooldown_until a) (clock k), S k)
    else (false, k).
Proof. unfold Account.is_available. now destruct (is_healthy a). Qed.

Lemma available_from_cons (clock : nat -> Q) (i : nat) (a : AccountState)
    (l : list AccountState) (k : nat) :
  available_from clock i (a :: l) k =
    let '(b, k1) := Account.is_available clock a k in
    let '(rest, k2) := available_from clock (S i) l k1 in
    (if b then i :: rest else rest, k2).
Proof.
  cbn [available_from]. unfold mbind, Clock_bind, mret, Clock_ret.
  destruct (Account.is_available clock a k) as [b k1].
  now destruct (available_from clock (S i) l k1).
Qed.

Lemma available_accounts_eq (clock : nat -> Q) (s : State) :
  available_accounts clock s =
    Ok ((available_from clock 0 (accounts (rot s)) (ticks s)).1,
        mkState (rot s) (available_from clock 0 (accounts (rot s)) (ticks s)).2).
Proof.
  unfold available_accounts, mbind, M_bind, attr, lift_clock. cbn [rot ticks].
  now destruct (available_from clock 0 (accounts (rot s)) (ticks s)).
Qed.

Lemma available_from_sound (clock : nat -> Q) (l : list AccountState) :
  forall (i k : nat),
    let r := available_from clock i l k in
    (k <= r.2 <= k + length l)%nat /\
    forall h : nat, h ∈ r.1 ->
      (i <= h)%nat /\
      exists (a : AccountState) (kk : nat),
        l !! (h - i)%nat = Some a /\ is_healthy a = true /\
        (k <= kk < r.2)%nat /\ (cooldown_until a < clock kk)%Q.
Proof.
  induction l as [|a l IH]; intros i k.
  - cbn. split; [lia|]. intros h Hh. inversion Hh.
  - cbv zeta. rewrite available_from_cons, is_available_eq.
    destruct (is_healthy a) eqn:Hhealthy.
    + specialize (IH (S i) (S k)).
      destruct (available_from clock (S i) l (S k)) as [rest k2].
      cbn [fst snd length] in *. destruct IH as [Hk IH]. split; [lia|].
      intros h Hh.
      assert (Hcase : (h = i /\ Qltb (cooldown_until a) (clock k) = true)
                      \/ h ∈ rest).
      { destruct (Qltb (cooldown_until a) (clock k)); [|now right].
        apply elem_of_cons in Hh as [->|Hh]; [now left | now right]. }
      destruct Hcase as [[-> Hlt]|Hin].
      * split; [lia|]. exists a, k. rewrite Nat.sub_diag.
        repeat split; try easy; try lia. now apply Qltb_lt.
      * destruct (IH h Hin) as (Hle & b & kk & Hb & Hbh & Hkk & Hcd).
        split; [lia|]. exists b, kk.
        replace (h - i)%nat with (S (h - S i)) by lia.
        repeat split; try easy; lia.
    + specialize (IH (S i) k).
      destruct (available_from clock (S i) l k) as [rest k2].
      cbn [fst snd length] in *. destruct IH as [Hk IH]. split; [lia|].
      intros h Hin.
      destruct (IH h Hin) as (Hle & b & kk & Hb & Hbh & Hkk & Hcd).
      split; [lia|]. exists b, kk.
      replace (h - i)%nat with (S (h - S i)) by lia.
      repeat split; try easy; lia.
Qed.

Lemma available_from_NoDup (clock : nat -> Q) (l : list AccountState) :
  forall (i k : nat), NoDup (available_from clock i l k).1.
Proof.
  induction l as [|a l IH]; intros i k; [constructor|].
  rewrite available_from_cons.
  destruct (Account.is_available clock a k) as [b k1].
  pose proof (IH (S i) k1) as Hnd.
  pose proof (available_from_sound clock l (S i) k1) as [_ Hs].
  destruct (available_from clock (S i) l k1) as [rest k2]. cbn [fst] in *.
  destruct b; [|assumption]. constructor; [|assumption].
  intros Hin. apply Hs in Hin as [Hle _]. lia.
Qed.

Lemma available_from_none (clock : nat -> Q) (l : list AccountState) :
  forall (i k : nat),
    (forall a : AccountState, a ∈ l ->
       is_healthy a = false \/
       forall kk : nat, (k <= kk < k + length l)%nat ->
         (clock kk <= cooldown_until a)%Q) ->
    (available_from clock i l k).1 = [].
Proof.
  induction l as [|a l IH]; intros i k Hall; [reflexivity|].
  rewrite available_from_cons, is_available_eq.
  destruct (is_healthy a) eqn:Hhealthy.
  - assert (Hlt : Qltb (cooldown_until a) (clock k) = false).
    { destruct (Hall a) as [Hf|Hcd]; [left | congruence |].
      apply Qltb_ge, Hcd. cbn [length]. lia. }
    rewrite Hlt. specialize (IH (S i) (S k)).
    destruct (available_from clock (S i) l (S k)) as [rest k2].
    cbn [fst] in *. apply IH. intros b Hb.
    destruct (Hall b) as [Hf|Hcd]; [now right | now left |].
    right. intros kk Hkk. apply Hcd. cbn [length]. lia.
  - specialize (IH (S i) k).
    destruct (available_from clock (S i) l k) as [rest k2].
    cbn [fst] in *. apply IH. intros b Hb.
    destruct (Hall b) as [Hf|Hcd]; [now right | now left |].
    right. intros kk Hkk. apply Hcd. cbn [length]. lia.
Qed.

Lemma available_from_all (clock : nat -> Q) (l : list AccountState) :
  monotone clock ->
  forall (i k : nat),
    (forall a : AccountState, a ∈ l ->
       is_healthy a = true /\ (cooldown_until a < clock k)%Q) ->
    available_from clock i l k = (seq i (length l), (k + length l)%nat).
Proof.
  intros Hmono. induction l as [|a l IH]; intros i k Hall.
  - cbn. now rewrite Nat.add_0_r.
  - rewrite available_from_cons, is_available_eq.
    destruct (Hall a) as [-> Hcd]; [left|].
    apply Qltb_lt in Hcd. rewrite Hcd.
    rewrite (IH (S i) (S k)).
    + cbn [seq length]. f_equal. lia.
    + intros b Hb. destruct (Hall b) as [Hb1 Hb2]; [now right|].
      split; [assumption|]. eapply Qlt_le_trans; [exact Hb2|].
      apply Hmono. lia.
Qed.

(** ** The rotation order *)

Lemma rotation_order_from (available : list nat) (c : Z) :
  rotation_order available c = rotation_from available c (length available).
Proof. reflexivity. Qed.

(** The rotation order is the list of available accounts, in load order,
    rotated to start at [cursor mod len(available)]. *)
Lemma rotation_order_rotate (available : list nat) (c : Z) :
  rotation_order available c = rotate (Z.to_nat (c mod len available)) available.
Proof.
  destruct (decide (available = [])) as [->|Hne].
  { unfold rotate. now rewrite drop_nil, take_nil. }
  assert (HN : 0 < len available).
  { unfold len. destruct available; [congruence | cbn; lia]. }
  apply list_eq. intros i. unfold rotation_order.
  destruct (decide (i < length available)%nat) as [Hi|Hi].
  - rewrite list_lookup_fmap, lookup_seq_lt by assumption. cbn.
    rewrite lookup_rotate_r by assumption. unfold rotate_nat_add.
    rewrite Z2Nat.id by (apply Z.mod_pos_bound; lia).
    fold (len available). rewrite Zplus_mod_idemp_l.
    symmetry. apply list_lookup_lookup_total_lt.
    pose proof (Z.mod_pos_bound (c + Z.of_nat i) (len available) HN).
    unfold len in *. lia.
  - rewrite !lookup_ge_None_2; [reflexivity| |].
    + rewrite length_rotate. lia.
    + rewrite length_map, length_seq. lia.
Qed.

Lemma rotate_Permutation {A : Type} (n : nat) (l : list A) : rotate n l ≡ₚ l.
Proof.
  unfold rotate. rewrite Permutation_app_comm. now rewrite take_drop.
Qed.

Lemma rotation_order_Permutation (available : list nat) (c : Z) :
  rotation_order available c ≡ₚ available.
Proof. rewrite rotation_order_rotate. apply rotate_Permutation. Qed.

(** ** Scanning the candidates *)

Lemma examined_ticks (clock : nat -> Q) (r : AccountRotator) (k : nat)
    (a : AccountState) :
  (k < (examined clock r k a).2 <= k + 2)%nat.
Proof. unfold examined. destruct (max_rpm r <=? _); cbn; lia. Qed.

Lemma examined_object (clock : nat -> Q) (r : AccountRotator) (k : nat)
    (a : AccountState) :
  exists ts : list Q, (examined clock r k a).1.2 = set_request_timestamps ts a.
Proof.
  unfold examined. destruct (max_rpm r <=? _); cbn; eexists; reflexivity.
Qed.

(** A candidate passes exactly when both reads are under their bounds; the
    reads then leave it without any timestamp. *)
Lemma examined_passes (clock : nat -> Q) (r : AccountRotator) (k : nat)
    (a : AccountState) :
  (examined clock r k a).1.1 = true <->
  len (newer_than (clock k - 60)%Q (request_timestamps a)) < max_rpm r /\
  newer_than (clock (S k) - min_gap_s r)%Q
    (newer_than (clock k - 60)%Q (request_timestamps a)) = [].
Proof.
  unfold examined.
  destruct (Z.leb_spec (max_rpm r)
              (len (newer_than (clock k - 60)%Q (request_timestamps a))))
    as [Hle|Hlt]; cbn [fst snd].
  - split; [discriminate | lia].
  - destruct (newer_than (clock (S k) - min_gap_s r)%Q _) as [|t ts] eqn:E.
    + split; [now split | reflexivity].
    + split; [|intros [_ H]; discriminate H].
      unfold len. cbn. discriminate.
Qed.

Lemma examined_passed (clock : nat -> Q) (r : AccountRotator) (k : nat)
    (a : AccountState) :
  (examined clock r k a).1.1 = true ->
  examined clock r k a = (true, set_request_timestamps [] a, S (S k)).
Proof.
  intros H. pose proof H as H'. apply examined_passes in H' as [Hlt Hnil].
  unfold examined in *.
  destruct (Z.leb_spec (max_rpm r)
              (len (newer_than (clock k - 60)%Q (request_timestamps a))));
    [lia|].
  rewrite Hnil. reflexivity.
Qed.

Lemma set_request_timestamps_id (a : AccountState) :
  set_request_timestamps (request_timestamps a) a = a.
Proof. now destruct a. Qed.

Lemma set_request_timestamps_twice (ts ts' : list Q) (a : AccountState) :
  set_request_timestamps ts' (set_request_timestamps ts a) =
    set_request_timestamps ts' a.
Proof. reflexivity. Qed.

Lemma pruned_state_refl (s : State) : pruned_state s s.
Proof.
  repeat split; try lia. intros j a Hj. exists (request_timestamps a).
  now rewrite set_request_timestamps_id.
Qed.

Lemma pruned_state_trans (s1 s2 s3 : State) :
  pruned_state s1 s2 -> pruned_state s2 s3 -> pruned_state s1 s3.
Proof.
  intros (L1 & A1 & B1 & T1 & P1) (L2 & A2 & B2 & T2 & P2).
  repeat split; try congruence; try lia.
  intros j a Hj. destruct (P1 j a Hj) as (ts & H1).
  destruct (P2 j _ H1) as (ts' & H2). exists ts'.
  now rewrite H2, set_request_timestamps_twice.
Qed.

Lemma examined_state_pruned (clock : nat -> Q) (modulus : Z) (c : nat)
    (a : AccountState) (s : State) :
  accounts (rot s) !! c = Some a ->
  pruned_state s (examined_state clock modulus c a s) /\
  (forall j : nat, j <> c ->
     accounts (rot (examined_state clock modulus c a s)) !! j =
       accounts (rot s) !! j) /\
  accounts (rot (examined_state clock modulus c a s)) !! c =
    Some (examined clock (rot s) (ticks s) a).1.2.
Proof.
  intros Hc. pose proof (lookup_lt_Some _ _ _ Hc) as Hlt.
  pose proof (examined_ticks clock (rot s) (ticks s) a) as Ht.
  unfold examined_state, pruned_state.
  cbn [rot accounts ticks max_rpm min_gap_s].
  split; [|split].
  - split; [apply length_insert|]. split; [reflexivity|].
    split; [reflexivity|]. split; [lia|].
    intros j b Hj. destruct (decide (j = c)) as [->|Hne].
    + rewrite list_lookup_insert_eq by assumption.
      destruct (examined_object clock (rot s) (ticks s) a) as (ts & ->).
      exists ts. congruence.
    + rewrite list_lookup_insert_ne by congruence.
      exists (request_timestamps b). now rewrite set_request_timestamps_id.
  - intros j Hj. apply list_lookup_insert_ne. congruence.
  - now apply list_lookup_insert_eq.
Qed.

Lemma first_passing_frame (clock : nat -> Q) (modulus : Z)
    (candidates : list nat) :
  forall s : State,
    (forall c : nat, c ∈ candidates ->
       (c < length (accounts (rot s)))%nat) ->
    exists (r : option nat) (s' : State),
      first_passing clock modulus candidates s = Ok (r, s') /\
      pruned_state s s' /\
      (forall j : nat, j ∉ candidates ->
         accounts (rot s') !! j = accounts (rot s) !! j) /\
      (ticks s' <= ticks s + 2 * length candidates)%nat /\
      forall h : nat, r = Some h ->
        h ∈ candidates /\ 0 < max_rpm (rot s) /\
        exists a' : AccountState,
          accounts (rot s') !! h = Some a' /\ request_timestamps a' = [].
Proof.
  induction candidates as [|c rest IH]; intros s Hvalid.
  - exists None, s. cbn. split; [reflexivity|].
    split; [apply pruned_state_refl|]. split; [easy|]. split; [lia|].
    discriminate.
  - destruct (lookup_lt_is_Some_2 (accounts (rot s)) c) as [a Hc].
    { apply Hvalid. left. }
    rewrite (first_passing_cons _ _ _ _ _ _ Hc).
    destruct (examined_state_pruned clock modulus c a s Hc)
      as (Hpr & Hother & Hself).
    pose proof (examined_ticks clock (rot s) (ticks s) a) as Ht.
    destruct (examined clock (rot s) (ticks s) a).1.1 eqn:Hpass.
    + exists (Some c), (examined_state clock modulus c a s).
      split; [reflexivity|]. split; [assumption|]. split.
      { intros j Hj. apply Hother. intros ->. apply Hj. left. }
      split; [cbn [length ticks examined_state]; lia|].
      intros h [= <-]. split; [left|].
      pose proof (examined_passes clock (rot s) (ticks s) a) as [Hp _].
      destruct (Hp Hpass) as [Hlt _]. split; [unfold len in Hlt; lia|].
      eexists. split; [exact Hself|].
      now rewrite (examined_passed _ _ _ _ Hpass).
    + destruct (IH (examined_state clock modulus c a s))
        as (r & s' & Hrun & Hpr' & Hother' & Ht' & Hres).
      { intros c' Hc'. destruct Hpr as (-> & _). apply Hvalid. now right. }
      exists r, s'. split; [exact Hrun|].
      split; [eapply pruned_state_trans; eassumption|]. split.
      { intros j Hj. rewrite Hother'.
        - apply Hother. intros ->. apply Hj. left.
        - intros Hin. apply Hj. now right. }
      split; [cbn [length ticks examined_state] in *; lia|].
      intros h Hh. destruct (Hres h Hh) as (Hin & Hmax & Hts).
      split; [now right|]. split; [exact Hmax | exact Hts].
Qed.

(** ** Selection *)

Lemma examined_config (clock : nat -> Q) (r r' : AccountRotator) (k : nat)
    (a : AccountState) :
  max_rpm r' = max_rpm r -> min_gap_s r' = min_gap_s r ->
  examined clock r' k a = examined clock r k a.
Proof. intros H1 H2. unfold examined. now rewrite H1, H2. Qed.

Lemma first_passing_none (clock : nat -> Q) (modulus : Z)
    (candidates : list nat) :
  forall s : State,
    NoDup candidates ->
    (forall c : nat, c ∈ candidates ->
       exists a : AccountState,
         accounts (rot s) !! c = Some a /\
         forall k : nat,
           (ticks s <= k < ticks s + 2 * length candidates)%nat ->
           (examined clock (rot s) k a).1.1 = false) ->
    exists s' : State,
      first_passing clock modulus candidates s = Ok (None, s').
Proof.
  induction candidates as [|c rest IH]; intros s Hnd Hall.
  - exists s. reflexivity.
  - apply NoDup_cons in Hnd as [Hnotin Hnd].
    destruct (Hall c) as (a & Hc & Hskip); [left|].
    rewrite (first_passing_cons _ _ _ _ _ _ Hc).
    rewrite Hskip by (cbn [length]; lia).
    destruct (examined_state_pruned clock modulus c a s Hc)
      as (Hpr & Hother & _).
    pose proof (examined_ticks clock (rot s) (ticks s) a) as Ht.
    apply IH; [assumption|]. intros c' Hc'.
    destruct (Hall c') as (a' & Hc'a & Hskip'); [now right|].
    exists a'. split.
    + rewrite Hother; [assumption|]. intros ->. contradiction.
    + intros k Hk. rewrite <- (Hskip' k).
      * reflexivity.
      * cbn [length ticks examined_state] in *. lia.
Qed.

(** What a call of [get_next_account] does, whatever the state: it returns
    normally, reads the clock at most three times per account, changes no
    more than the cursor and the timestamps kept, and an account it returns
    is one of the available ones, left without timestamps. *)
Lemma get_next_account_frame (clock : nat -> Q) (s : State) :
  exists (r : option nat) (s' : State),
    get_next_account clock s = Ok (r, s') /\
    pruned_state s s' /\
    (ticks s' <= ticks s + 3 * length (accounts (rot s)))%nat /\
    forall h : nat, r = Some h ->
      h ∈ (available_from clock 0 (accounts (rot s)) (ticks s)).1 /\
      ((available_from clock 0 (accounts (rot s)) (ticks s)).2 <= ticks s')%nat /\
      0 < max_rpm (rot s) /\
      exists a' : AccountState,
        accounts (rot s') !! h = Some a' /\ request_timestamps a' = [].
Proof.
  rewrite get_next_account_refines. unfold select_spec.
  rewrite (M_bind_ok _ _ _ _ _ (available_accounts_eq clock s)).
  pose proof (available_from_sound clock (accounts (rot s)) 0 (ticks s))
    as [Hticks Hav].
  destruct (available_from clock 0 (accounts (rot s)) (ticks s))
    as [available k1] eqn:Eav.
  cbn [fst snd] in *.
  set (s1 := mkState (rot s) k1).
  assert (Hpr1 : pruned_state s s1).
  { split; [reflexivity|]. split; [reflexivity|]. split; [reflexivity|].
    split; [cbn; lia|]. intros j a Hj. exists (request_timestamps a).
    now rewrite set_request_timestamps_id. }
  destruct available as [|h0 available'].
  - exists None, s1. split; [reflexivity|]. split; [assumption|].
    split; [cbn; lia|]. discriminate.
  - set (available := h0 :: available') in *.
    unfold mbind, M_bind, attr. cbn [rot].
    assert (Hlen : (length available <= length (accounts (rot s)))%nat).
    { pose proof (available_from_NoDup clock (accounts (rot s)) 0 (ticks s))
        as Hnd. rewrite Eav in Hnd. cbn [fst] in Hnd.
      assert (Hsub : available ⊆+ seq 0 (length (accounts (rot s)))).
      { apply NoDup_submseteq; [assumption|].
        intros h Hh. destruct (Hav h Hh) as (_ & a & kk & Ha & _).
        apply elem_of_seq. apply lookup_lt_Some in Ha. lia. }
      apply submseteq_length in Hsub. now rewrite length_seq in Hsub. }
    destruct (first_passing_frame clock (len available)
                (rotation_order available (_current_index (rot s))) s1)
      as (r & s' & Hrun & Hpr & _ & Ht & Hres).
    { intros c Hc. rewrite rotation_order_Permutation in Hc.
      destruct (Hav c Hc) as (_ & a & kk & Ha & _).
      apply lookup_lt_Some in Ha. cbn [rot s1].
      replace (c - 0)%nat with c in Ha by lia. exact Ha. }
    exists r, s'. split; [exact Hrun|].
    split; [eapply pruned_state_trans; eassumption|]. split.
    { assert (length (rotation_order available (_current_index (rot s)))
              = length available) as Hl
        by (apply Permutation_length, rotation_order_Permutation).
      rewrite Hl in Ht. cbn [ticks s1] in Ht. lia. }
    intros h Hh. destruct (Hres h Hh) as (Hin & Hmax & Ha').
    rewrite rotation_order_Permutation in Hin.
    split; [assumption|]. split; [|split; assumption].
    destruct Hpr as (_ & _ & _ & Hle & _). exact Hle.
Qed.

Lemma is_available_true (clock : nat -> Q) (a : AccountState) (k : nat) :
  Account.is_available clock a k = (true, S k) <->
  is_healthy a = true /\ (cooldown_until a < clock k)%Q.
Proof.
  rewrite is_available_eq. destruct (is_healthy a).
  - rewrite <- Qltb_lt. split.
    + intros [= H]. now split.
    + intros [_ ->]. reflexivity.
  - split; [discriminate | intros [H _]; discriminate H].
Qed.

(** C3.  An account is available at a clock reading exactly when it is
    healthy and the reading is strictly after [cooldown_until].  Whenever
    [get_next_account] returns an account, [is_available] was true of that
    account at a clock reading made during the call; the call leaves its
    health and cooldown as they were, so with a clock that does not run
    backwards the account is still available at every later reading. *)
Theorem selected_account_is_available (clock : nat -> Q) (s s' : State)
    (h : nat) :
  get_next_account clock s = Ok (Some h, s') ->
  (forall (a : AccountState) (k : nat),
     Account.is_available clock a k = (true, S k) <->
     is_healthy a = true /\ (cooldown_until a < clock k)%Q) /\
  exists (a a' : AccountState) (k : nat),
    accounts (rot s) !! h = Some a /\
    (ticks s <= k < ticks s')%nat /\
    Account.is_available clock a k = (true, S k) /\
    accounts (rot s') !! h = Some a' /\
    is_healthy a' = true /\
    cooldown_until a' = cooldown_until a /\
    (monotone clock ->
     forall k' : nat, (k <= k')%nat ->
       Account.is_available clock a' k' = (true, S k')).
Proof.
  intros Hsel. split; [apply is_available_true|].
  destruct (get_next_account_frame clock s)
    as (r & s1 & Hrun & Hpr & _ & Hres).
  rewrite Hsel in Hrun. injection Hrun as <- <-.
  destruct (Hres h eq_refl) as (Hin & Hk1 & _ & _).
  destruct (available_from_sound clock (accounts (rot s)) 0 (ticks s))
    as [_ Hav].
  destruct (Hav h Hin) as (_ & a & k & Ha & Hhealthy & Hk & Hcd).
  replace (h - 0)%nat with h in Ha by lia.
  destruct Hpr as (_ & _ & _ & _ & Hobj).
  destruct (Hobj h a Ha) as (ts & Ha').
  exists a, (set_request_timestamps ts a), k.
  split; [assumption|]. split; [lia|].
  split; [now apply is_available_true|]. split; [assumption|].
  split; [assumption|]. split; [reflexivity|].
  intros Hmono k' Hk'. apply is_available_true. split; [assumption|].
  cbn [cooldown_until set_request_timestamps].
  eapply Qlt_le_trans; [exact Hcd | now apply Hmono].
Qed.

Lemma selected_account_is_available_witness :
  let clock := stepping_clock 1 in
  let s := fresh_rotator [alice; bob] 1 in
  let s' := mkState (set_current_index 1 (rot s)) 5 in
  (forall (a : AccountState) (k : nat),
     Account.is_available clock a k = (true, S k) <->
     is_healthy a = true /\ (cooldown_until a < clock k)%Q) /\
  exists (a a' : AccountState) (k : nat),
    accounts (rot s) !! 0%nat = Some a /\
    (ticks s <= k < ticks s')%nat /\
    Account.is_available clock a k = (true, S k) /\
    accounts (rot s') !! 0%nat = Some a' /\
    is_healthy a' = true /\
    cooldown_until a' = cooldown_until a /\
    (monotone clock ->
     forall k' : nat, (k <= k')%nat ->
       Account.is_available clock a' k' = (true, S k')).
Proof.
  apply (selected_account_is_available (stepping_clock 1)
           (fresh_rotator [alice; bob] 1)
           (mkState (set_current_index 1 (rot (fresh_rotator [alice; bob] 1)))
                    5) 0).
  vm_compute. reflexivity.
Defined.

(** ** Exhaustion *)

Lemma available_from_length (clock : nat -> Q) (l : list AccountState) :
  forall (i k : nat),
    (length (available_from clock i l k).1 <= length l)%nat.
Proof.
  induction l as [|a l IH]; intros i k; [reflexivity|].
  rewrite available_from_cons.
  destruct (Account.is_available clock a k) as [b k1].
  specialize (IH (S i) k1).
  destruct (available_from clock (S i) l k1) as [rest k2].
  cbn [fst length] in *. destruct b; cbn [length]; lia.
Qed.

Lemma state_eta (s : State) : mkState (rot s) (ticks s) = s.
Proof. now destruct s. Qed.

(** C8.  [get_next_account] returns normally in every state.  It returns
    [None] when the pool is empty (leaving the state as it was), when every
    account is disabled or in cooldown at every reading at which the call
    may test it (one reading per account at most), and when every account
    that is healthy and out of cooldown at one of those readings fails the
    per-minute or the minimum-gap check at whichever reading of the call
    (three per account at most) its examination starts. *)
Theorem exhaustion_returns_None (clock : nat -> Q) (s : State) :
  (exists (r : option nat) (s' : State),
     get_next_account clock s = Ok (r, s')) /\
  (accounts (rot s) = [] -> get_next_account clock s = Ok (None, s)) /\
  ((forall a : AccountState, a ∈ accounts (rot s) ->
      is_healthy a = false \/
      forall kk : nat,
        (ticks s <= kk < ticks s + length (accounts (rot s)))%nat ->
        (clock kk <= cooldown_until a)%Q) ->
   exists s' : State, get_next_account clock s = Ok (None, s')) /\
  ((forall (h : nat) (a : AccountState),
      accounts (rot s) !! h = Some a ->
      is_healthy a = true ->
      (exists kk : nat,
         (ticks s <= kk < ticks s + length (accounts (rot s)))%nat /\
         (cooldown_until a < clock kk)%Q) ->
      forall k : nat,
        (ticks s <= k < ticks s + 3 * length (accounts (rot s)))%nat ->
        (examined clock (rot s) k a).1.1 = false) ->
   exists s' : State, get_next_account clock s = Ok (None, s')).
Proof.
  split; [|split; [|split]].
  - destruct (get_next_account_frame clock s) as (r & s' & Hrun & _).
    now exists r, s'.
  - intros Hempty. unfold get_next_account.
    rewrite (M_bind_ok _ _ _ _ _ (available_accounts_eq clock s)), Hempty.
    cbn. now rewrite state_eta.
  - intros Hall. unfold get_next_account.
    rewrite (M_bind_ok _ _ _ _ _ (available_accounts_eq clock s)).
    rewrite (available_from_none clock _ 0 (ticks s) Hall).
    eexists. reflexivity.
  - intros Hall. rewrite get_next_account_refines. unfold select_spec.
    rewrite (M_bind_ok _ _ _ _ _ (available_accounts_eq clock s)).
    pose proof (available_from_sound clock (accounts (rot s)) 0 (ticks s))
      as [Hticks Hav].
    pose proof (available_from_NoDup clock (accounts (rot s)) 0 (ticks s))
      as Hnd.
    pose proof (available_from_length clock (accounts (rot s)) 0 (ticks s))
      as Hlen.
    destruct (available_from clock 0 (accounts (rot s)) (ticks s))
      as [available k1].
    cbn [fst snd] in *.
    destruct available as [|h0 available']; [eexists; reflexivity|].
    set (available := h0 :: available') in *.
    unfold mbind, M_bind, attr. cbn [rot].
    apply first_passing_none.
    + now rewrite rotation_order_Permutation.
    + intros c Hc. rewrite rotation_order_Permutation in Hc.
      destruct (Hav c Hc) as (_ & a & kk & Ha & Hhealthy & Hkk & Hcd).
      replace (c - 0)%nat with c in Ha by lia.
      exists a. split; [exact Ha|]. intros k Hk. cbn [rot ticks] in *.
      apply (Hall c a Ha Hhealthy).
      * exists kk. split; [lia | assumption].
      * assert (length (rotation_order available (_current_index (rot s)))
                = length available) as Hl
          by (apply Permutation_length, rotation_order_Permutation).
        rewrite Hl in Hk. lia.
Qed.

Lemma exhaustion_returns_None_witness :
  let clock := stepping_clock (1 # 10) in
  let cooling := set_cooldown_until 100%Q alice in
  let disabled := set_is_healthy false bob in
  let busy := set_request_timestamps [9 # 10]%Q carol in
  get_next_account clock (fresh_rotator [] 0) = Ok (None, fresh_rotator [] 0) /\
  (exists s' : State,
     get_next_account clock (fresh_rotator [cooling; disabled] 0) =
       Ok (None, s')) /\
  (exists s' : State,
     get_next_account clock (fresh_rotator [busy] 10) = Ok (None, s')).
Proof.
  cbv zeta. split; [|split].
  - apply (proj1 (proj2 (exhaustion_returns_None (stepping_clock (1 # 10))
                            (fresh_rotator [] 0)))). reflexivity.
  - apply (proj1 (proj2 (proj2
             (exhaustion_returns_None (stepping_clock (1 # 10))
                (fresh_rotator [set_cooldown_until 100%Q alice;
                                set_is_healthy false bob] 0))))).
    intros a Ha. apply elem_of_cons in Ha as [->|Ha].
    + right. intros kk Hkk. cbn in Hkk.
      assert (Hk : kk = 0%nat \/ kk = 1%nat) by lia.
      destruct Hk as [-> | ->]; vm_compute; discriminate.
    + apply list_elem_of_singleton in Ha as ->. left. reflexivity.
  - apply (proj2 (proj2 (proj2
             (exhaustion_returns_None (stepping_clock (1 # 10))
                (fresh_rotator [set_request_timestamps [9 # 10]%Q carol]
                   10))))).
    intros h a Hh _ _ k Hk. destruct h as [|h]; [|discriminate Hh].
    injection Hh as <-. cbn in Hk.
    assert (Hk' : k = 10%nat \/ k = 11%nat \/ k = 12%nat) by lia.
    destruct Hk' as [-> | [-> | ->]]; vm_compute; reflexivity.
Defined.

(** ** Disabled accounts stay disabled *)

Lemma keeps_unhealthy_refl (s : State) : keeps_unhealthy s s.
Proof. split; [reflexivity|]. intros j a Hj. now exists a. Qed.

Lemma keeps_unhealthy_trans (s1 s2 s3 : State) :
  keeps_unhealthy s1 s2 -> keeps_unhealthy s2 s3 -> keeps_unhealthy s1 s3.
Proof.
  intros [L1 H1] [L2 H2]. split; [congruence|]. intros j a Hj.
  destruct (H1 j a Hj) as (a2 & Hj2 & Hh2).
  destruct (H2 j a2 Hj2) as (a3 & Hj3 & Hh3).
  exists a3. split; [assumption | tauto].
Qed.

Lemma call_keeps_unhealthy {A : Type} (h : nat)
    (method : AccountState -> Clock (A * AccountState)) (s : State) :
  (h < length (accounts (rot s)))%nat ->
  (forall (a : AccountState) (k : nat),
     is_healthy a = false -> is_healthy (method a k).1.2 = false) ->
  exists (x : A) (s' : State),
    call h method s = Ok (x, s') /\ keeps_unhealthy s s'.
Proof.
  intros Hlt Hm. destruct (lookup_lt_is_Some_2 _ _ Hlt) as [a Ha].
  destruct (call_spec h method s a Ha) as (s' & Hcall & Ha' & _ & Hsame).
  eexists _, s'. split; [exact Hcall|].
  destruct Hsame as (Hlen & Hother & _). split; [assumption|].
  intros j b Hj. destruct (decide (j = h)) as [->|Hne].
  - eexists. split; [exact Ha'|]. rewrite Ha in Hj. injection Hj as <-.
    apply Hm.
  - exists b. rewrite (Hother j Hne). now split.
Qed.

Lemma pruned_keeps_unhealthy (s s' : State) :
  pruned_state s s' -> keeps_unhealthy s s'.
Proof.
  intros (Hlen & _ & _ & _ & Hobj). split; [assumption|].
  intros j a Hj. destruct (Hobj j a Hj) as (ts & Hj').
  eexists. split; [exact Hj' | easy].
Qed.

Lemma lookup_map {A B : Type} (f : A -> B) (l : list A) (j : nat) :
  map f l !! j = f <$> l !! j.
Proof.
  revert j. induction l as [|x l IH]; intros [|j]; cbn; try reflexivity.
  apply IH.
Qed.

Lemma run_op_keeps_unhealthy (clock : nat -> Q) (o : op) (s : State) :
  op_in_range (length (accounts (rot s))) o ->
  exists s' : State,
    run_op clock o s = Ok (tt, s') /\ keeps_unhealthy s s'.
Proof.
  destruct o as [h | h status msg | h w | | json_load]; cbn [op_in_range run_op];
    intros Hr.
  - destruct (call_keeps_unhealthy h (Account.record_request clock) s Hr)
      as ([] & s' & Hcall & Hk); [easy|].
    now exists s'.
  - destruct (call_keeps_unhealthy h
                (Account.record_error clock msg
                   ((status =? 429) || (status =? 503))) s Hr)
      as ([] & s' & Hcall & Hk).
    + intros a k Ha.
      change (is_healthy (after_error clock (status, msg) k a) = false).
      rewrite after_error_is_healthy, Ha. cbn [fst].
      destruct ((status =? 429) || (status =? 503)); [reflexivity|].
      now destruct (5 <=? consecutive_errors a + 1).
    + now exists s'.
  - destruct (call_keeps_unhealthy h
                (Account.requests_in_window clock w) s Hr)
      as (x & s' & Hcall & Hk); [easy|].
    exists s'. split; [|assumption].
    now rewrite (M_bind_ok _ _ _ _ _ Hcall).
  - destruct (get_next_account_frame clock s) as (r & s' & Hrun & Hpr & _).
    exists s'. split; [now rewrite (M_bind_ok _ _ _ _ _ Hrun)|].
    now apply pruned_keeps_unhealthy.
  - eexists. split; [reflexivity|]. unfold keeps_unhealthy.
    cbn [rot accounts set_accounts].
    split; [apply length_map|]. intros j a Hj.
    exists (reload_one json_load a). split.
    + rewrite lookup_map, Hj. reflexivity.
    + unfold reload_one.
      now destruct (json_load (credential_path a)).
Qed.

(** C7.  Whatever sequence of [record_success], [record_error],
    [requests_in_window], [get_next_account] and [reload_credentials] is
    run on a pool, with references that lie inside it, the sequence returns
    normally and an account that was disabled before it is disabled after
    it; [reload_credentials] in particular replaces [credentials] only. *)
Theorem unhealthy_is_permanent (clock : nat -> Q) (ops : list op) :
  forall (s : State) (h : nat) (a : AccountState),
    Forall (op_in_range (length (accounts (rot s)))) ops ->
    accounts (rot s) !! h = Some a ->
    is_healthy a = false ->
    exists (s' : State) (a' : AccountState),
      run_ops clock ops s = Ok (tt, s') /\
      accounts (rot s') !! h = Some a' /\
      is_healthy a' = false.
Proof.
  assert (Hall : forall s : State,
             Forall (op_in_range (length (accounts (rot s)))) ops ->
             exists s' : State,
               run_ops clock ops s = Ok (tt, s') /\ keeps_unhealthy s s').
  { induction ops as [|o ops IH]; intros s Hr.
    - exists s. split; [reflexivity | apply keeps_unhealthy_refl].
    - apply Forall_cons in Hr as [Ho Hr].
      destruct (run_op_keeps_unhealthy clock o s Ho) as (s1 & Hrun1 & Hk1).
      destruct (IH s1) as (s' & Hrun & Hk).
      { destruct Hk1 as [-> _]. exact Hr. }
      exists s'. split; [|eapply keeps_unhealthy_trans; eassumption].
      cbn [run_ops]. now rewrite (M_bind_ok _ _ _ _ _ Hrun1). }
  intros s h a Hr Ha Hun.
  destruct (Hall s Hr) as (s' & Hrun & _ & Hk).
  destruct (Hk h a Ha) as (a' & Ha' & Hun').
  exists s', a'. split; [assumption|]. split; [assumption | tauto].
Qed.

Lemma unhealthy_is_permanent_witness :
  let clock := stepping_clock 1 in
  let s := fresh_rotator [alice; set_is_healthy false bob] 0 in
  let ops := [GetNextAccount; RecordSuccess 0; RecordSuccess 1;
              RecordError 1 429 "HTTP 429"; RequestsInWindow 1 60%Q;
              ReloadCredentials (fun _ => Some [("refresh_token", "new")]);
              GetNextAccount] in
  exists (s' : State) (a' : AccountState),
    run_ops clock ops s = Ok (tt, s') /\
    accounts (rot s') !! 1%nat = Some a' /\
    is_healthy a' = false.
Proof.
  apply (unhealthy_is_permanent (stepping_clock 1) _
           (fresh_rotator [alice; set_is_healthy false bob] 0) 1
           (set_is_healthy false bob)).
  - repeat constructor; cbn; lia.
  - reflexivity.
  - reflexivity.
Defined.

(** ** The checks passed by a returned account *)

Lemma first_passing_dangling (clock : nat -> Q) (modulus : Z) (c : nat)
    (rest : list nat) (s : State) :
  accounts (rot s) !! c = None ->
  first_passing clock modulus (c :: rest) s = Raise DanglingReference.
Proof.
  intros Hc. cbn [first_passing].
  unfold mbind at 1 2, M_bind, attr, assign_current_index.
  apply M_bind_raise. unfold passes_checks. apply M_bind_raise.
  now apply call_dangling.
Qed.

Lemma first_passing_some (clock : nat -> Q) (modulus : Z)
    (candidates : list nat) :
  forall (s s' : State) (h : nat),
    NoDup candidates ->
    first_passing clock modulus candidates s = Ok (Some h, s') ->
    h ∈ candidates /\
    exists (a : AccountState) (k : nat),
      accounts (rot s) !! h = Some a /\
      (ticks s <= k)%nat /\
      (examined clock (rot s) k a).1.1 = true /\
      accounts (rot s') !! h = Some (set_request_timestamps [] a) /\
      ticks s' = S (S k).
Proof.
  induction candidates as [|c rest IH]; intros s s' h Hnd Hrun;
    [discriminate Hrun|].
  apply NoDup_cons in Hnd as [Hnotin Hnd].
  destruct (accounts (rot s) !! c) as [a|] eqn:Hc.
  2: { rewrite (first_passing_dangling _ _ _ _ _ Hc) in Hrun.
       discriminate Hrun. }
  rewrite (first_passing_cons _ _ _ _ _ _ Hc) in Hrun.
  destruct (examined_state_pruned clock modulus c a s Hc)
    as (Hpr & Hother & Hself).
  pose proof (examined_ticks clock (rot s) (ticks s) a) as Ht.
  destruct (examined clock (rot s) (ticks s) a).1.1 eqn:Hpass.
  - injection Hrun as <- <-. split; [left|].
    exists a, (ticks s). split; [assumption|]. split; [lia|].
    split; [assumption|].
    split.
    + now rewrite Hself, (examined_passed _ _ _ _ Hpass).
    + cbn [ticks examined_state].
      now rewrite (examined_passed _ _ _ _ Hpass).
  - destruct (IH _ _ _ Hnd Hrun) as (Hin & b & k & Hb & Hk & Hp & Hb' & Hk').
    split; [now right|]. exists b, k.
    split; [|split; [|split; [|split]]]; try assumption.
    + rewrite <- Hb. symmetry. apply Hother. intros ->. contradiction.
    + cbn [ticks examined_state] in Hk. lia.
Qed.

Lemma requests_in_window_eq (clock : nat -> Q) (w : Q) (a : AccountState)
    (k : nat) :
  Account.requests_in_window clock w a k =
    (len (newer_than (clock k - w)%Q (request_timestamps a)),
     set_request_timestamps
       (newer_than (clock k - w)%Q (request_timestamps a)) a,
     S k).
Proof. reflexivity. Qed.

(** [get_next_account] computes what the selection algorithm of the
    specification computes: the candidates are scanned in rotation order,
    one that fails either check is skipped, and the first that passes both
    is returned at once.  An account it returns was read twice, at the last
    two clock readings of the call: [requests_in_window] over 60 seconds
    returned less than [max_rpm], then [requests_in_window] over
    [min_gap_s] returned 0; the object is left as the second read left it,
    and any further read on it, whatever the window, returns 0. *)
Lemma selected_account_passes_limits (clock : nat -> Q) (s : State) :
  get_next_account clock s = select_spec clock s /\
  forall (h : nat) (s' : State),
    get_next_account clock s = Ok (Some h, s') ->
    exists (a : AccountState) (k : nat),
      accounts (rot s) !! h = Some a /\
      (ticks s <= k)%nat /\
      let first := Account.requests_in_window clock 60%Q a k in
      let second :=
        Account.requests_in_window clock (min_gap_s (rot s))
          first.1.2 first.2 in
      first.1.1 < max_rpm (rot s) /\
      second.1.1 = 0 /\
      accounts (rot s') !! h = Some second.1.2 /\
      ticks s' = second.2 /\
      forall (w : Q) (k' : nat),
        (Account.requests_in_window clock w second.1.2 k').1.1 = 0.
Proof.
  split; [apply get_next_account_refines|]. intros h s'.
  rewrite get_next_account_refines. unfold select_spec.
  rewrite (M_bind_ok _ _ _ _ _ (available_accounts_eq clock s)).
  pose proof (available_from_sound clock (accounts (rot s)) 0 (ticks s))
    as [Hticks _].
  pose proof (available_from_NoDup clock (accounts (rot s)) 0 (ticks s))
    as Hnd.
  destruct (available_from clock 0 (accounts (rot s)) (ticks s))
    as [available k1].
  cbn [fst snd] in *.
  destruct available as [|h0 available']; [discriminate|].
  set (available := h0 :: available') in *.
  unfold mbind, M_bind, attr. cbn [rot]. intros Hrun.
  apply first_passing_some in Hrun
    as (_ & a & k & Ha & Hk & Hpass & Ha' & Hk');
    [|now rewrite rotation_order_Permutation].
  cbn [rot ticks] in *. exists a, k.
  split; [assumption|]. split; [lia|].
  apply examined_passes in Hpass as [Hlt Hnil].
  rewrite !requests_in_window_eq. cbn [fst snd request_timestamps
    set_request_timestamps].
  rewrite Hnil. split; [assumption|]. split; [reflexivity|].
  split; [assumption|]. split; [assumption|]. reflexivity.
Qed.

(** C4 fails on the code, by the defect of C2.  An account that
    [get_next_account] returns has lost every timestamp to the read over
    the minimum gap, so after the success recorded on it the account holds
    one timestamp, whatever was recorded before, and the read over 60
    seconds of a later call counts at most that one.  With the defaults of
    the source (10 requests per minute, a gap of 2 seconds) and one account
    served every 4 seconds, every call returns the account: 20 times in 80
    seconds.  The eleventh call returns it at a reading of 42 s, when 10
    successes, at 4 s, 8 s, ..., 40 s, lie inside the last 60 seconds:
    the account's count over the last minute is [max_rpm], and the claim
    says it is never returned then. *)
Theorem selected_account_is_over_the_minute_ceiling :
  let clock := stepping_clock 1 in
  let start := fresh_rotator [alice] 1 in
  (forall i : nat,
     (i <= 20)%nat ->
     exists s_i : State,
       select_and_succeed clock i start = Ok (replicate i (Some 0%nat), s_i) /\
       ticks s_i = (1 + 4 * i)%nat) /\
  (exists s10 s11 : State,
     select_and_succeed clock 10 start =
       Ok (replicate 10 (Some 0%nat), s10) /\
     max_rpm (rot s10) = 10 /\
     ticks s10 = 41%nat /\
     get_next_account clock s10 = Ok (Some 0%nat, s11) /\
     ticks s11 = 44%nat /\
     successes_within 60%Q (clock 42%nat)
       (map clock [4; 8; 12; 16; 20; 24; 28; 32; 36; 40]%nat) = 10) /\
  forall (clock' : nat -> Q) (s s1 s2 : State) (h : nat),
    get_next_account clock' s = Ok (Some h, s1) ->
    record_success clock' h s1 = Ok (tt, s2) ->
    exists a2 : AccountState,
      accounts (rot s2) !! h = Some a2 /\
      request_timestamps a2 = [clock' (ticks s1)].
Proof.
  cbv zeta. split; [|split].
  - intros i Hi.
    do 21 (destruct i as [|i];
           [eexists; split; [vm_compute; reflexivity | reflexivity]|]).
    lia.
  - do 2 eexists. split; [vm_compute; reflexivity|].
    split; [reflexivity|]. split; [reflexivity|].
    split; [vm_compute; reflexivity|]. split; reflexivity.
  - intros clock' s s1 s2 h Hsel Hok.
    destruct (get_next_account_frame clock' s)
      as (r & s1' & Hrun & _ & _ & Hres).
    rewrite Hsel in Hrun. injection Hrun as <- <-.
    destruct (Hres h eq_refl) as (_ & _ & _ & a' & Ha' & Hts).
    destruct (record_success_spec clock' s1 h a' Ha')
      as (s2' & Hok' & Hh2 & _).
    rewrite Hok in Hok'. injection Hok' as <-.
    eexists. split; [exact Hh2|].
    destruct (record_request_fields clock' a' (ticks s1)) as (_ & -> & _).
    now rewrite Hts.
Qed.

(** ** Accounts under their limits *)

Lemma newer_than_In (c : Q) (ts : list Q) (t : Q) :
  In t (newer_than c ts) <-> In t ts /\ (c < t)%Q.
Proof. unfold newer_than. now rewrite filter_In, Qltb_lt. Qed.

Lemma newer_than_nil_mono (c c' : Q) (ts : list Q) :
  (c <= c')%Q -> newer_than c ts = [] -> newer_than c' ts = [].
Proof.
  intros Hle Hnil. destruct (newer_than c' ts) as [|t l] eqn:E; [reflexivity|].
  assert (Hin : In t (newer_than c' ts)) by (rewrite E; now left).
  apply newer_than_In in Hin as [Hin Hlt].
  assert (Hin' : In t (newer_than c ts)).
  { apply newer_than_In. split; [assumption|].
    eapply Qle_lt_trans; eassumption. }
  rewrite Hnil in Hin'. destruct Hin'.
Qed.

Lemma newer_than_length_mono (c c' : Q) (ts : list Q) :
  (c <= c')%Q ->
  (length (newer_than c' ts) <= length (newer_than c ts))%nat.
Proof.
  intros Hle. induction ts as [|t ts IH]; [reflexivity|].
  unfold newer_than in *. cbn [List.filter].
  destruct (Qltb c' t) eqn:E'; destruct (Qltb c t) eqn:E; cbn [length];
    try lia.
  apply Qltb_lt in E'. apply Qltb_ge in E. exfalso.
  apply (Qlt_irrefl t). eapply Qle_lt_trans; [exact E|].
  eapply Qle_lt_trans; eassumption.
Qed.

Lemma newer_than_nested_nil (c c' : Q) (ts : list Q) :
  newer_than c' ts = [] -> newer_than c' (newer_than c ts) = [].
Proof.
  intros Hnil.
  destruct (newer_than c' (newer_than c ts)) as [|t l] eqn:E; [reflexivity|].
  assert (Hin : In t (newer_than c' (newer_than c ts)))
    by (rewrite E; now left).
  apply newer_than_In in Hin as [Hin Hlt].
  apply newer_than_In in Hin as [Hin _].
  assert (Hin' : In t (newer_than c' ts)) by now apply newer_than_In.
  rewrite Hnil in Hin'. destruct Hin'.
Qed.

Lemma Qminus_le_l (x y z : Q) : (x <= y)%Q -> (x - z <= y - z)%Q.
Proof. intros H. lra. Qed.

Lemma under_limits_mono (clock : nat -> Q) (r : AccountRotator) (k k' : nat)
    (a : AccountState) :
  monotone clock -> (k <= k')%nat ->
  under_limits clock r k a -> under_limits clock r k' a.
Proof.
  intros Hmono Hk [Hlt Hnil]. split.
  - pose proof (newer_than_length_mono (clock k - 60)%Q (clock k' - 60)%Q
                  (request_timestamps a)
                  (Qminus_le_l _ _ _ (Hmono k k' Hk))).
    unfold len in *. lia.
  - eapply newer_than_nil_mono; [|exact Hnil].
    apply Qminus_le_l, Hmono, Hk.
Qed.

Lemma under_limits_examined (clock : nat -> Q) (r : AccountRotator)
    (k : nat) (a : AccountState) :
  monotone clock ->
  under_limits clock r k a -> (examined clock r k a).1.1 = true.
Proof.
  intros Hmono [Hlt Hnil]. apply examined_passes. split; [assumption|].
  apply newer_than_nested_nil.
  eapply newer_than_nil_mono; [|exact Hnil].
  apply Qminus_le_l, Hmono. lia.
Qed.

(** ** One round: a selection followed by a success *)

Lemma rotation_order_head (available : list nat) (c : Z) :
  available <> [] ->
  rotation_order available c =
    available !!! Z.to_nat (c mod len available)
      :: rotation_from available ((c + 1) mod len available)
           (length available - 1).
Proof.
  intros Hne. rewrite rotation_order_from.
  destruct (length available) as [|m] eqn:E.
  - destruct available; [congruence | discriminate E].
  - rewrite rotation_from_S by assumption. do 2 f_equal. lia.
Qed.

Lemma get_next_account_head (clock : nat -> Q) (s : State)
    (a : AccountState) :
  monotone clock ->
  all_available clock s ->
  let n := length (accounts (rot s)) in
  let h := Z.to_nat (_current_index (rot s) mod Z.of_nat n) in
  accounts (rot s) !! h = Some a ->
  (examined clock (rot s) (ticks s + n) a).1.1 = true ->
  get_next_account clock s =
    Ok (Some h,
        examined_state clock (Z.of_nat n) h a
          (mkState (rot s) (ticks s + n))).
Proof.
  intros Hmono Hall n h Ha Hpass.
  assert (Hn : (0 < n)%nat).
  { apply lookup_lt_Some in Ha. subst n. lia. }
  rewrite get_next_account_refines. unfold select_spec.
  rewrite (M_bind_ok _ _ _ _ _ (available_accounts_eq clock s)).
  rewrite (available_from_all clock (accounts (rot s)) Hmono 0 (ticks s)).
  2: { intros b Hb. apply list_elem_of_lookup in Hb as [j Hj].
       exact (Hall j b Hj). }
  cbn [fst snd]. fold n.
  assert (Hne : seq 0 n <> []) by (destruct n; [lia | discriminate]).
  destruct (seq 0 n) as [|x l] eqn:Eseq; [congruence|]. rewrite <- Eseq.
  unfold mbind, M_bind, attr. cbn [rot].
  rewrite rotation_order_head by (rewrite Eseq; discriminate).
  unfold len. rewrite length_seq.
  assert (Hh : (h < n)%nat).
  { apply lookup_lt_Some in Ha. exact Ha. }
  fold h. rewrite lookup_total_seq_lt by assumption. cbn [Nat.add].
  rewrite (first_passing_cons clock (Z.of_nat n) h _ (mkState (rot s) _) a Ha).
  cbn [rot ticks]. now rewrite Hpass.
Qed.

Lemma under_limits_config (clock : nat -> Q) (r r' : AccountRotator)
    (k : nat) (a : AccountState) :
  max_rpm r' = max_rpm r -> min_gap_s r' = min_gap_s r ->
  under_limits clock r k a -> under_limits clock r' k a.
Proof. unfold under_limits. now intros -> ->. Qed.

Lemma stepping_clock_monotone (step : Q) :
  (0 <= step)%Q -> monotone (stepping_clock step).
Proof.
  intros Hstep i j Hij. unfold stepping_clock.
  apply Qmult_le_compat_r; [|assumption].
  rewrite <- Zle_Qle. lia.
Qed.

(** ** The candidates a scan examines *)

(** A scan examines the first [e] candidates: the cursor has advanced by
    one, modulo [modulus], for each of them; those it did not return
    failed a check; the one it returns is the last examined, and a scan
    that returns [None] has examined them all. *)
Lemma first_passing_scan (clock : nat -> Q) (modulus : Z)
    (candidates : list nat) :
  forall s : State,
    NoDup candidates ->
    (forall c : nat, c ∈ candidates ->
       (c < length (accounts (rot s)))%nat) ->
    exists (e : nat) (r : option nat) (s' : State),
      first_passing clock modulus candidates s = Ok (r, s') /\
      (e <= length candidates)%nat /\
      _current_index (rot s') =
        (if decide (e = 0%nat) then _current_index (rot s)
         else (_current_index (rot s) + Z.of_nat e) mod modulus) /\
      credentials_dir (rot s') = credentials_dir (rot s) /\
      (forall (i c : nat),
         (i < e)%nat -> candidates !! i = Some c -> r <> Some c ->
         exists (a : AccountState) (k : nat),
           accounts (rot s) !! c = Some a /\ (ticks s <= k)%nat /\
           (examined clock (rot s) k a).1.1 = false) /\
      match r with
      | Some h => candidates !! (e - 1)%nat = Some h /\ (1 <= e)%nat
      | None => e = length candidates
      end.
Proof.
  induction candidates as [|c rest IH]; intros s Hnd Hvalid.
  - exists 0%nat, None, s. cbn. repeat split; try reflexivity. intros; lia.
  - apply NoDup_cons in Hnd as [Hnotin Hnd].
    destruct (lookup_lt_is_Some_2 (accounts (rot s)) c) as [a Hc].
    { apply Hvalid. left. }
    rewrite (first_passing_cons _ _ _ _ _ _ Hc).
    destruct (examined_state_pruned clock modulus c a s Hc)
      as (Hpr & Hother & Hself).
    pose proof (examined_ticks clock (rot s) (ticks s) a) as Ht.
    destruct (examined clock (rot s) (ticks s) a).1.1 eqn:Hpass.
    + exists 1%nat, (Some c), (examined_state clock modulus c a s).
      split; [reflexivity|]. split; [cbn; lia|]. split; [reflexivity|].
      split; [reflexivity|]. split; [|split; [reflexivity | lia]].
      intros i c' Hi Hc' Hne. destruct i; [|lia]. cbn in Hc'. congruence.
    + destruct (IH (examined_state clock modulus c a s) Hnd)
        as (e & r & s' & Hrun & He & Hcur & Hdir & Hfail & Hres).
      { intros c' Hc'. destruct Hpr as (-> & _). apply Hvalid. now right. }
      exists (S e), r, s'. split; [exact Hrun|]. split; [cbn; lia|].
      split.
      { rewrite Hcur. cbn [examined_state rot _current_index].
        destruct (decide (e = 0%nat)) as [->|Hne].
        - rewrite decide_False by lia. reflexivity.
        - rewrite decide_False by lia. rewrite Zplus_mod_idemp_l.
          f_equal. lia. }
      split; [exact Hdir|]. split.
      { intros i c' Hi Hc' Hne. destruct i as [|i].
        - cbn in Hc'. injection Hc' as <-. exists a, (ticks s).
          split; [exact Hc|]. split; [lia | exact Hpass].
        - cbn in Hc'. destruct (Hfail i c') as (a' & k & Ha' & Hk & Hf);
            [lia | exact Hc' | exact Hne |].
          exists a', k. split.
          + rewrite <- Ha'. symmetry. apply Hother. intros ->.
            apply Hnotin. eapply list_elem_of_lookup_2, Hc'.
          + split; [cbn [examined_state ticks] in Hk; lia|].
            rewrite <- Hf. reflexivity. }
      destruct r as [h|].
      * destruct Hres as [Hh He1]. split; [|lia].
        replace (S e - 1)%nat with (S (e - 1)) by lia. exact Hh.
      * cbn [length]. now rewrite Hres.
Qed.

(** What a call of [get_next_account] examines, whatever the state, when
    some account is available. *)
Lemma get_next_account_scan (clock : nat -> Q) (s : State) :
  let available := (available_from clock 0 (accounts (rot s)) (ticks s)).1 in
  let order := rotation_order available (_current_index (rot s)) in
  available <> [] ->
  exists (e : nat) (r : option nat) (s' : State),
    get_next_account clock s = Ok (r, s') /\
    (1 <= e <= length available)%nat /\
    _current_index (rot s') =
      (_current_index (rot s) + Z.of_nat e) mod len available /\
    credentials_dir (rot s') = credentials_dir (rot s) /\
    (forall (i c : nat),
       (i < e)%nat -> order !! i = Some c -> r <> Some c ->
       exists (a : AccountState) (k : nat),
         accounts (rot s) !! c = Some a /\ (ticks s <= k)%nat /\
         (examined clock (rot s) k a).1.1 = false) /\
    match r with
    | Some h => order !! (e - 1)%nat = Some h
    | None => e = length available
    end.
Proof.
  cbv zeta. intros Hne.
  rewrite get_next_account_refines. unfold select_spec.
  rewrite (M_bind_ok _ _ _ _ _ (available_accounts_eq clock s)).
  pose proof (available_from_sound clock (accounts (rot s)) 0 (ticks s))
    as [Hticks Hav].
  pose proof (available_from_NoDup clock (accounts (rot s)) 0 (ticks s))
    as Hnd.
  set (k1 := (available_from clock 0 (accounts (rot s)) (ticks s)).2) in *.
  set (av := (available_from clock 0 (accounts (rot s)) (ticks s)).1) in *.
  clearbody av k1. destruct av as [|h0 av']; [congruence|]. clear Hne.
  set (available := h0 :: av') in *.
  set (order := rotation_order available (_current_index (rot s))).
  unfold mbind, M_bind, attr. cbn [rot].
  destruct (first_passing_scan clock (len available) order
              (mkState (rot s) k1))
    as (e & r & s' & Hrun & He & Hcur & Hdir & Hfail & Hres).
  { subst order. rewrite rotation_order_Permutation. exact Hnd. }
  { intros c Hc. subst order. rewrite rotation_order_Permutation in Hc.
    destruct (Hav c Hc) as (_ & a & kk & Ha & _).
    apply lookup_lt_Some in Ha. cbn [rot].
    replace (c - 0)%nat with c in Ha by lia. exact Ha. }
  assert (Hlen : length order = length available).
  { subst order. apply Permutation_length, rotation_order_Permutation. }
  assert (Hpos : (1 <= e)%nat).
  { destruct r; [apply Hres|]. rewrite Hres, Hlen. cbn. lia. }
  exists e, r, s'. split; [exact Hrun|].
  split; [lia|]. split.
  { rewrite Hcur. cbn [rot]. now rewrite decide_False by lia. }
  split; [exact Hdir|]. split.
  - intros i c Hi Hc Hne. destruct (Hfail i c Hi Hc Hne) as (a & k & Ha & Hk & Hf).
    exists a, k. cbn [rot ticks] in *. split; [exact Ha|].
    split; [lia | exact Hf].
  - destruct r; [apply Hres | congruence].
Qed.

Lemma get_next_account_nobody (clock : nat -> Q) (s : State) :
  (available_from clock 0 (accounts (rot s)) (ticks s)).1 = [] ->
  get_next_account clock s =
    Ok (None,
        mkState (rot s) (available_from clock 0 (accounts (rot s)) (ticks s)).2).
Proof.
  intros Hnil. unfold get_next_account.
  rewrite (M_bind_ok _ _ _ _ _ (available_accounts_eq clock s)).
  now rewrite Hnil.
Qed.

Lemma get_next_account_credentials_dir (clock : nat -> Q) (s s' : State)
    (r : option nat) :
  get_next_account clock s = Ok (r, s') ->
  credentials_dir (rot s') = credentials_dir (rot s).
Proof.
  intros Hrun.
  destruct (decide ((available_from clock 0 (accounts (rot s)) (ticks s)).1
                    = [])) as [Hnil|Hne].
  - rewrite (get_next_account_nobody clock s Hnil) in Hrun.
    now injection Hrun as _ <-.
  - destruct (get_next_account_scan clock s Hne)
      as (e & r' & s1 & Hrun' & _ & _ & Hdir & _).
    rewrite Hrun in Hrun'. now injection Hrun' as _ <-.
Qed.

(** ** Pools in which some accounts are unavailable *)

Lemma available_at_elem_of (clock : nat -> Q) (k : nat)
    (l : list AccountState) :
  forall (i h : nat),
    h ∈ available_at clock k i l <->
    (i <= h)%nat /\
    exists a : AccountState,
      l !! (h - i)%nat = Some a /\ is_healthy a = true /\
      (cooldown_until a < clock k)%Q.
Proof.
  induction l as [|a l IH]; intros i h.
  - cbn. split; [intros H; inversion H|]. intros (_ & b & Hb & _).
    discriminate Hb.
  - cbn [available_at].
    assert (Hiff : h ∈ available_at clock k (S i) l <->
              (i < h)%nat /\
              exists b : AccountState,
                (a :: l) !! (h - i)%nat = Some b /\ is_healthy b = true /\
                (cooldown_until b < clock k)%Q).
    { rewrite IH. split.
      - intros (Hle & b & Hb & Hrest). split; [lia|]. exists b.
        replace (h - i)%nat with (S (h - S i)) by lia. now split.
      - intros (Hlt & b & Hb & Hrest). split; [lia|]. exists b.
        replace (h - i)%nat with (S (h - S i)) in Hb by lia. now split. }
    destruct (is_healthy a && Qltb (cooldown_until a) (clock k)) eqn:E.
    + apply andb_true_iff in E as [Hh Hc]. apply Qltb_lt in Hc.
      rewrite elem_of_cons, Hiff. split.
      * intros [->|[Hlt Hb]]; [|split; [lia | exact Hb]].
        split; [lia|]. exists a. rewrite Nat.sub_diag. now split.
      * intros (Hle & b & Hb & Hrest).
        destruct (decide (h = i)) as [->|Hne]; [now left|].
        right. split; [lia|]. now exists b.
    + rewrite Hiff. split.
      * intros [Hlt Hb]. split; [lia | exact Hb].
      * intros (Hle & b & Hb & Hbh & Hbc).
        destruct (decide (h = i)) as [->|Hne].
        -- rewrite Nat.sub_diag in Hb. injection Hb as <-.
           apply Qltb_lt in Hbc. rewrite Hbh, Hbc in E. discriminate E.
        -- split; [lia|]. now exists b.
Qed.

Lemma available_at_NoDup (clock : nat -> Q) (k : nat) (l : list AccountState) :
  forall i : nat, NoDup (available_at clock k i l).
Proof.
  induction l as [|a l IH]; intros i; [constructor|].
  cbn [available_at].
  destruct (is_healthy a && Qltb (cooldown_until a) (clock k)); [|apply IH].
  constructor; [|apply IH]. rewrite available_at_elem_of. lia.
Qed.

(** While the unavailable accounts stay unavailable, the list the code
    builds is the list of the accounts available at [k0], whatever the
    readings at which it tests them. *)
Lemma available_from_stable (clock : nat -> Q) (k0 K : nat)
    (l : list AccountState) :
  monotone clock ->
  forall (i k : nat),
    (k0 <= k)%nat -> (k + length l <= K)%nat ->
    Forall (fun a =>
              (is_healthy a = true /\ (cooldown_until a < clock k0)%Q) \/
              stays_unavailable clock k0 K a) l ->
    (available_from clock i l k).1 = available_at clock k0 i l /\
    (k <= (available_from clock i l k).2 <= k + length l)%nat.
Proof.
  intros Hmono. induction l as [|a l IH]; intros i k Hk HK Hall.
  - cbn. split; [reflexivity | lia].
  - apply Forall_cons in Hall as [Ha Hall]. cbn [length] in HK.
    rewrite available_from_cons, is_available_eq. cbn [available_at].
    destruct (is_healthy a) eqn:Hhealthy.
    + destruct (IH (S i) (S k)) as [Heq Hb]; [lia | lia | exact Hall|].
      destruct (available_from clock (S i) l (S k)) as [rest k2].
      cbn [fst snd andb length] in *.
      assert (Hsame : Qltb (cooldown_until a) (clock k) =
                      Qltb (cooldown_until a) (clock k0)).
      { destruct Ha as [[_ Hcd]|[Hf|Hcd]]; [|congruence|].
        - transitivity true; [|symmetry]; apply Qltb_lt; [|exact Hcd].
          eapply Qlt_le_trans; [exact Hcd | now apply Hmono].
        - transitivity false; [|symmetry]; apply Qltb_ge; apply Hcd; lia. }
      rewrite Hsame, Heq. split; [reflexivity | lia].
    + destruct (IH (S i) k) as [Heq Hb]; [lia | lia | exact Hall|].
      destruct (available_from clock (S i) l k) as [rest k2].
      cbn [fst snd andb length] in *. rewrite Heq. split; [reflexivity | lia].
Qed.

Lemma available_at_flags (clock : nat -> Q) (k : nat)
    (l : list AccountState) :
  forall (l' : list AccountState) (i : nat),
    length l' = length l ->
    (forall (j : nat) (a : AccountState),
       l !! j = Some a ->
       exists a' : AccountState,
         l' !! j = Some a' /\ is_healthy a' = is_healthy a /\
         cooldown_until a' = cooldown_until a) ->
    available_at clock k i l' = available_at clock k i l.
Proof.
  induction l as [|a l IH]; intros l' i Hlen Hflags.
  - destruct l'; [reflexivity | discriminate Hlen].
  - destruct l' as [|a' l']; [discriminate Hlen|].
    destruct (Hflags 0%nat a eq_refl) as (b & [= <-] & Hh & Hc).
    cbn [available_at]. rewrite Hh, Hc.
    rewrite (IH l' (S i)); [reflexivity | now injection Hlen |].
    intros j b Hj. exact (Hflags (S j) b Hj).
Qed.

(** The first account of the rotation is returned when it passes. *)
Lemma get_next_account_first (clock : nat -> Q) (s : State)
    (a : AccountState) :
  let available := (available_from clock 0 (accounts (rot s)) (ticks s)).1 in
  let k1 := (available_from clock 0 (accounts (rot s)) (ticks s)).2 in
  let h := available !!! Z.to_nat (_current_index (rot s) mod len available) in
  available <> [] ->
  accounts (rot s) !! h = Some a ->
  (examined clock (rot s) k1 a).1.1 = true ->
  get_next_account clock s =
    Ok (Some h, examined_state clock (len available) h a (mkState (rot s) k1)).
Proof.
  cbv zeta. intros Hne Ha Hpass.
  rewrite get_next_account_refines. unfold select_spec.
  rewrite (M_bind_ok _ _ _ _ _ (available_accounts_eq clock s)).
  set (k1 := (available_from clock 0 (accounts (rot s)) (ticks s)).2) in *.
  set (av := (available_from clock 0 (accounts (rot s)) (ticks s)).1) in *.
  clearbody av k1. destruct av as [|h0 av']; [congruence|].
  set (available := h0 :: av') in *.
  unfold mbind, M_bind, attr. cbn [rot].
  rewrite rotation_order_head by assumption.
  rewrite (first_passing_cons clock (len available) _ _ (mkState (rot s) k1)
             a Ha).
  cbn [rot ticks]. now rewrite Hpass.
Qed.

Section Rounds.

Variable clock : nat -> Q.
Variables k0 K : nat.
Variable available : list nat.

Hypothesis clock_monotone : monotone clock.
Hypothesis some_available : available <> [].

(** What the rounds keep: no reading before [k0], every account available
    at [k0] or unavailable until [K], and [available] the list of the
    former. *)
Let kept (s : State) : Prop :=
  (k0 <= ticks s)%nat /\
  Forall (fun a =>
            (is_healthy a = true /\ (cooldown_until a < clock k0)%Q) \/
            stays_unavailable clock k0 K a) (accounts (rot s)) /\
  available_at clock k0 0 (accounts (rot s)) = available.

Lemma round_of_available (s : State) (a : AccountState) :
  kept s ->
  (ticks s + (length (accounts (rot s)) + 3) <= K)%nat ->
  let h :=
    available !!! Z.to_nat (_current_index (rot s) mod len available) in
  accounts (rot s) !! h = Some a ->
  under_limits clock (rot s) (ticks s) a ->
  exists s1 s2 : State,
    get_next_account clock s = Ok (Some h, s1) /\
    record_success clock h s1 = Ok (tt, s2) /\
    length (accounts (rot s2)) = length (accounts (rot s)) /\
    (forall j : nat, j <> h ->
       accounts (rot s2) !! j = accounts (rot s) !! j) /\
    max_rpm (rot s2) = max_rpm (rot s) /\
    min_gap_s (rot s2) = min_gap_s (rot s) /\
    _current_index (rot s2) = (_current_index (rot s) + 1) mod len available /\
    (ticks s <= ticks s2 <= ticks s + (length (accounts (rot s)) + 3))%nat /\
    kept s2.
Proof.
  intros (Hk0 & Hclass & Hav) HK h Ha Hunder.
  destruct (available_from_stable clock k0 K (accounts (rot s))
              clock_monotone 0 (ticks s) Hk0 ltac:(lia) Hclass)
    as [Heq Hticks].
  rewrite Hav in Heq.
  set (k1 := (available_from clock 0 (accounts (rot s)) (ticks s)).2) in *.
  assert (Hpass : (examined clock (rot s) k1 a).1.1 = true).
  { apply under_limits_examined; [assumption|].
    eapply under_limits_mono; [assumption| |exact Hunder]. lia. }
  pose proof (get_next_account_first clock s a) as Hsel. cbv zeta in Hsel.
  rewrite Heq in Hsel. fold k1 h in Hsel.
  specialize (Hsel some_available Ha Hpass).
  set (s0 := mkState (rot s) k1) in *.
  set (s1 := examined_state clock (len available) h a s0) in *.
  destruct (examined_state_pruned clock (len available) h a s0 Ha)
    as (Hpr & Hother & Hself).
  fold s1 in Hpr, Hother, Hself.
  destruct (record_success_spec clock s1 h _ Hself)
    as (s2 & Hok & Hh2 & Ht2 & Hlen2 & Hother2 & Hmax2 & Hgap2 & Hcur2).
  destruct Hpr as (Hlen1 & _ & _ & _ & _).
  assert (Ht1 : ticks s1 = S (S k1)).
  { subst s1. cbn [examined_state ticks s0 rot].
    now rewrite (examined_passed _ _ _ _ Hpass). }
  assert (Hothers : forall j : nat, j <> h ->
            accounts (rot s2) !! j = accounts (rot s) !! j).
  { intros j Hj. rewrite (Hother2 j Hj). apply (Hother j Hj). }
  assert (Hflags : forall (j : nat) (b : AccountState),
            accounts (rot s) !! j = Some b ->
            exists b' : AccountState,
              accounts (rot s2) !! j = Some b' /\
              is_healthy b' = is_healthy b /\
              cooldown_until b' = cooldown_until b).
  { intros j b Hj. destruct (decide (j = h)) as [->|Hne].
    - rewrite Ha in Hj. injection Hj as <-. eexists. split; [exact Hh2|].
      destruct (examined_object clock (rot s0) (ticks s0) a) as (ts & ->).
      split; reflexivity.
    - exists b. rewrite (Hothers j Hne). now split. }
  exists s1, s2. split; [exact Hsel|]. split; [exact Hok|].
  split; [rewrite Hlen2, Hlen1; reflexivity|].
  split; [exact Hothers|].
  split; [rewrite Hmax2; reflexivity|].
  split; [rewrite Hgap2; reflexivity|].
  split; [rewrite Hcur2; reflexivity|].
  split; [rewrite Ht2, Ht1; lia|].
  split; [rewrite Ht2, Ht1; lia|]. split.
  - apply Forall_lookup_2. intros j b' Hj'.
    destruct (lookup_lt_is_Some_2 (accounts (rot s)) j) as [b Hj].
    { apply lookup_lt_Some in Hj'. rewrite Hlen2, Hlen1 in Hj'. exact Hj'. }
    destruct (Hflags j b Hj) as (b2 & Hj2 & Hh & Hc).
    rewrite Hj' in Hj2. injection Hj2 as <-.
    pose proof (Forall_lookup_1 _ _ _ _ Hclass Hj) as Hb.
    unfold stays_unavailable in *. rewrite Hh, Hc. exact Hb.
  - rewrite <- Hav. apply available_at_flags; [|exact Hflags].
    rewrite Hlen2, Hlen1. reflexivity.
Qed.

Lemma rounds_of_available (pool_size : nat) :
  forall (m : nat) (s : State),
    kept s ->
    length (accounts (rot s)) = pool_size ->
    (ticks s + m * (pool_size + 3) <= K)%nat ->
    NoDup (rotation_from available (_current_index (rot s)) m) ->
    (forall h : nat,
       h ∈ rotation_from available (_current_index (rot s)) m ->
       exists a : AccountState,
         accounts (rot s) !! h = Some a /\
         under_limits clock (rot s) (ticks s) a) ->
    exists s' : State,
      select_and_succeed clock m s =
        Ok (map Some (rotation_from available (_current_index (rot s)) m),
            s') /\
      _current_index (rot s') =
        if decide (m = 0%nat) then _current_index (rot s)
        else (_current_index (rot s) + Z.of_nat m) mod len available.
Proof.
  induction m as [|m IH]; intros s Hkept Hlen HK Hnd Hunder.
  - exists s. split; reflexivity.
  - rewrite rotation_from_S in Hnd, Hunder |- * by assumption.
    rewrite Nat.mul_succ_l in HK.
    set (h := available !!!
                Z.to_nat (_current_index (rot s) mod len available)) in *.
    apply NoDup_cons in Hnd as [Hnotin Hnd].
    destruct (Hunder h) as (a & Ha & Hlim); [left|].
    destruct (round_of_available s a Hkept) as
      (s1 & s2 & Hsel & Hok & Hlen2 & Hother & Hmax & Hgap & Hcur & Ht & Hkept2);
      [rewrite Hlen; lia | exact Ha | exact Hlim |].
    rewrite Hlen in Ht.
    destruct (IH s2 Hkept2) as (s' & Hrun & Hcur').
    + congruence.
    + lia.
    + now rewrite Hcur.
    + intros h' Hh'. rewrite Hcur in Hh'.
      destruct (Hunder h') as (a' & Ha' & Hlim'); [now right|].
      exists a'. split.
      * rewrite Hother; [assumption|]. intros ->. contradiction.
      * eapply under_limits_config; [eassumption..|].
        eapply under_limits_mono; [assumption| |eassumption]. lia.
    + exists s'. split.
      * cbn [select_and_succeed].
        rewrite (M_bind_ok _ _ _ _ _ Hsel), (M_bind_ok _ _ _ _ _ Hok).
        rewrite (M_bind_ok _ _ _ _ _ Hrun). rewrite Hcur. reflexivity.
      * rewrite Hcur', Hcur.
        rewrite (decide_False (P := S m = 0%nat)) by lia.
        destruct (decide (m = 0%nat)) as [->|Hm]; [reflexivity|].
        rewrite Zplus_mod_idemp_l. f_equal. lia.
Qed.

End Rounds.

Lemma rotation_from_take (available : list nat) (c : Z) (m : nat) :
  (m <= length available)%nat ->
  rotation_from available c m = take m (rotation_order available c).
Proof.
  intros Hm. unfold rotation_from, rotation_order.
  change (map ?f ?l) with (f <$> l). rewrite <- fmap_take, take_seq.
  now rewrite Nat.min_l by assumption.
Qed.

Lemma NoDup_take_of {A : Type} (m : nat) (l : list A) :
  NoDup l -> NoDup (take m l).
Proof.
  intros Hnd. rewrite <- (take_drop m l) in Hnd.
  now apply NoDup_app in Hnd as [H _].
Qed.

(** C5.  Take any pool, a clock that does not run backwards, and call
    available the accounts that are healthy and out of cooldown at the
    first reading: the list [available], in load order, which is the list
    [get_next_account] builds.  Let there be [n] of them, [n > 0], all under
    their limits, the other accounts being disabled or in cooldown for the
    readings the run makes.  Then [m <= n] rounds, each a call of
    [get_next_account] followed by [record_success] on the account
    returned, return normally and return the first [m] accounts of
    [available] rotated to start at [cursor mod n]: available accounts
    only, each exactly once over [n] rounds, with the cursor at
    [(cursor + m) mod n] after [m] rounds.  And in every state in which
    some account is available a call of [get_next_account] examines the
    first [e] accounts of that rotation, for some [e] from 1 to
    [len(available)], and leaves the cursor at
    [(cursor + e) mod len(available)]: the examined accounts it does not
    return failed a check, the account it returns is the last examined, and
    a call that returns [None] has examined them all. *)
Theorem round_robin_fairness (clock : nat -> Q) (s : State) :
  let pool := accounts (rot s) in
  let available := available_at clock (ticks s) 0 pool in
  let n := length available in
  let c := _current_index (rot s) in
  let order := rotate (Z.to_nat (c mod Z.of_nat n)) available in
  monotone clock ->
  available <> [] ->
  (forall (j : nat) (a : AccountState),
     pool !! j = Some a ->
     (is_healthy a = true /\ (cooldown_until a < clock (ticks s))%Q /\
      under_limits clock (rot s) (ticks s) a) \/
     stays_unavailable clock (ticks s) (ticks s + n * (length pool + 3)) a) ->
  (available_from clock 0 pool (ticks s)).1 = available /\
  (forall h : nat,
     h ∈ order <->
     exists a : AccountState,
       pool !! h = Some a /\ is_healthy a = true /\
       (cooldown_until a < clock (ticks s))%Q) /\
  order ≡ₚ available /\
  NoDup order /\
  (forall m : nat,
     (m <= n)%nat ->
     exists s' : State,
       select_and_succeed clock m s = Ok (map Some (take m order), s') /\
       _current_index (rot s') =
         if decide (m = 0%nat) then c
         else (c + Z.of_nat m) mod Z.of_nat n) /\
  forall s0 : State,
    let available0 :=
      (available_from clock 0 (accounts (rot s0)) (ticks s0)).1 in
    let order0 := rotation_order available0 (_current_index (rot s0)) in
    available0 <> [] ->
    exists (e : nat) (r : option nat) (s0' : State),
      get_next_account clock s0 = Ok (r, s0') /\
      (1 <= e <= length available0)%nat /\
      _current_index (rot s0') =
        (_current_index (rot s0) + Z.of_nat e) mod len available0 /\
      (forall (i c0 : nat),
         (i < e)%nat -> order0 !! i = Some c0 -> r <> Some c0 ->
         exists (a : AccountState) (k : nat),
           accounts (rot s0) !! c0 = Some a /\ (ticks s0 <= k)%nat /\
           (examined clock (rot s0) k a).1.1 = false) /\
      match r with
      | Some h => order0 !! (e - 1)%nat = Some h
      | None => e = length available0
      end.
Proof.
  intros pool available n c order Hmono Hne Hpool.
  set (K := (ticks s + n * (length pool + 3))%nat) in *.
  assert (Hn : (1 <= n)%nat).
  { subst n. destruct available; [congruence | cbn; lia]. }
  assert (HK : (ticks s + (length pool + 3) <= K)%nat) by (subst K; nia).
  assert (HKm : forall m : nat,
            (m <= n)%nat -> (ticks s + m * (length pool + 3) <= K)%nat)
    by (intros m Hm; subst K; nia).
  clearbody K.
  assert (Hclass : Forall (fun a =>
             (is_healthy a = true /\ (cooldown_until a < clock (ticks s))%Q) \/
             stays_unavailable clock (ticks s) K a) pool).
  { apply Forall_lookup_2. intros j a Hj.
    destruct (Hpool j a Hj) as [(Hh & Hc & _)|Hout]; [left | right]; easy. }
  assert (Horder : order = rotation_order available c).
  { subst order. now rewrite rotation_order_rotate. }
  assert (Hperm : order ≡ₚ available) by apply rotate_Permutation.
  assert (Hnd : NoDup order).
  { rewrite Hperm. apply available_at_NoDup. }
  assert (Hmem : forall h : nat,
            h ∈ order <->
            exists a : AccountState,
              pool !! h = Some a /\ is_healthy a = true /\
              (cooldown_until a < clock (ticks s))%Q).
  { intros h. rewrite Hperm. subst available.
    rewrite available_at_elem_of. rewrite Nat.sub_0_r. split.
    - intros [_ H]. exact H.
    - intros H. split; [lia | exact H]. }
  split.
  { apply (available_from_stable clock (ticks s) K pool Hmono 0 (ticks s));
      [lia | lia | exact Hclass]. }
  split; [exact Hmem|]. split; [exact Hperm|]. split; [exact Hnd|]. split.
  - intros m Hm.
    destruct (rounds_of_available clock (ticks s) K available Hmono Hne
                (length pool) m s) as (s' & Hrun & Hcur).
    + split; [lia|]. split; [exact Hclass | reflexivity].
    + reflexivity.
    + now apply HKm.
    + fold c. rewrite rotation_from_take by exact Hm. rewrite <- Horder.
      now apply NoDup_take_of.
    + fold c. rewrite rotation_from_take by exact Hm. rewrite <- Horder.
      intros h Hh. apply elem_of_take in Hh as (i & Hh & _).
      apply list_elem_of_lookup_2 in Hh.
      apply Hmem in Hh as (a & Ha & Hhealthy & Hcd).
      exists a. split; [exact Ha|].
      destruct (Hpool h a Ha) as [(_ & _ & Hlim)|[Hf|Hout]];
        [exact Hlim | congruence |].
      exfalso. apply (Qlt_irrefl (cooldown_until a)).
      eapply Qlt_le_trans; [exact Hcd|]. apply Hout.
      lia.
    + exists s'. fold c in Hrun, Hcur.
      rewrite rotation_from_take, <- Horder in Hrun by exact Hm.
      split; [exact Hrun | exact Hcur].
  - intros s0 available0 order0 Hne0.
    destruct (get_next_account_scan clock s0 Hne0)
      as (e & r & s0' & Hrun & He & Hcur & _ & Hfail & Hres).
    exists e, r, s0'. split; [exact Hrun|]. split; [exact He|].
    split; [exact Hcur|]. split; [exact Hfail | exact Hres].
Qed.

Lemma round_robin_fairness_witness :
  let clock := stepping_clock 1 in
  let s := mkState
             (mkAccountRotator "./credentials" 10 2%Q
                [alice; set_is_healthy false bob;
                 set_cooldown_until 500%Q bob; carol] 3) 1 in
  (available_from clock 0 (accounts (rot s)) (ticks s)).1 = [0; 3]%nat /\
  exists s' : State,
    select_and_succeed clock 2 s = Ok ([Some 3%nat; Some 0%nat], s') /\
    _current_index (rot s') = 1.
Proof.
  cbv zeta.
  destruct (round_robin_fairness (stepping_clock 1)
              (mkState
                 (mkAccountRotator "./credentials" 10 2%Q
                    [alice; set_is_healthy false bob;
                     set_cooldown_until 500%Q bob; carol] 3) 1))
    as (Hav & _ & _ & _ & Hruns & _).
  - apply stepping_clock_monotone. discriminate.
  - discriminate.
  - intros j a Hj.
    destruct j as [|[|[|[|j]]]]; try discriminate Hj; injection Hj as <-.
    + left. repeat split.
    + right. left. reflexivity.
    + right. right. intros k Hk.
      pose proof (proj2 Hk : (k < 15)%nat) as Hk15. unfold stepping_clock.
      cbn [cooldown_until set_cooldown_until]. rewrite Qmult_1_r.
      change 500%Q with (inject_Z 500). rewrite <- Zle_Qle. lia.
    + left. repeat split.
  - split; [exact Hav|].
    destruct (Hruns 2%nat) as (s' & Hrun & Hcur); [vm_compute; constructor|].
    exists s'. split; [exact Hrun | exact Hcur].
Defined.

(** ** Errors and the request timestamps *)

Lemma after_error_cooldown (clock : nat -> Q) (e : Z * string) (k : nat)
    (a : AccountState) :
  not_rate_limit e ->
  cooldown_until (after_error clock e k a) = cooldown_until a.
Proof.
  intros He. unfold after_error, Account.record_error.
  rewrite (not_rate_limit_test e He). cbn -[Z.leb].
  now destruct (5 <=? consecutive_errors a + 1).
Qed.

Lemma record_error_ticks (clock : nat -> Q) (msg : string) (rl : bool)
    (a : AccountState) (k : nat) :
  (Account.record_error clock msg rl a k).2 = if rl then S k else k.
Proof.
  destruct rl; [reflexivity|]. unfold Account.record_error.
  cbn -[Z.leb]. now destruct (5 <=? consecutive_errors a + 1).
Qed.

Lemma examined_same_timestamps (clock : nat -> Q) (r r' : AccountRotator)
    (k : nat) (a a' : AccountState) :
  max_rpm r' = max_rpm r -> min_gap_s r' = min_gap_s r ->
  request_timestamps a' = request_timestamps a ->
  (examined clock r' k a').1.1 = (examined clock r k a).1.1.
Proof.
  intros Hmax Hgap Hts. unfold examined. rewrite Hmax, Hgap, Hts.
  now destruct (max_rpm r <=? _).
Qed.

Lemma examined_no_timestamps (clock : nat -> Q) (r : AccountRotator)
    (k : nat) (a : AccountState) :
  request_timestamps a = [] -> 0 < max_rpm r ->
  (examined clock r k a).1.1 = true.
Proof.
  intros Hts Hmax. apply examined_passes. rewrite Hts.
  split; [exact Hmax | reflexivity].
Qed.

(** C10.  A [record_error] call, whatever its status code, returns normally
    and leaves [request_timestamps] of the account, and every other
    account, as they were; so every read of [requests_in_window] and both
    checks of the selection give what they gave before the error.
    [record_success] is what appends a timestamp: the instant it reads.
    Hence, when the account had just been returned by [get_next_account],
    it passes both checks at whatever reading it is examined next; if the
    error is not a rate limit and leaves it healthy it is still available
    at every later reading of a clock that does not run backwards, and in
    a pool of one account the next [get_next_account] returns it again. *)
Theorem errors_add_no_timestamp (clock : nat -> Q) (s : State) (h : nat)
    (a : AccountState) (status_code : Z) (error_msg : string) :
  accounts (rot s) !! h = Some a ->
  exists (s1 : State) (a1 : AccountState),
    Rotator.record_error clock h status_code error_msg s = Ok (tt, s1) /\
    accounts (rot s1) !! h = Some a1 /\
    request_timestamps a1 = request_timestamps a /\
    (forall j : nat, j <> h ->
       accounts (rot s1) !! j = accounts (rot s) !! j) /\
    (forall (w : Q) (k : nat),
       (Account.requests_in_window clock w a1 k).1.1 =
       (Account.requests_in_window clock w a k).1.1) /\
    (forall k : nat,
       (examined clock (rot s1) k a1).1.1 =
       (examined clock (rot s) k a).1.1) /\
    (exists (s2 : State) (a2 : AccountState),
       record_success clock h s = Ok (tt, s2) /\
       accounts (rot s2) !! h = Some a2 /\
       request_timestamps a2 = request_timestamps a ++ [clock (ticks s)]) /\
    forall s0 : State,
      get_next_account clock s0 = Ok (Some h, s) ->
      (forall k : nat, (examined clock (rot s1) k a1).1.1 = true) /\
      (status_code <> 429 /\ status_code <> 503 ->
       is_healthy a1 = true ->
       monotone clock ->
       (forall k : nat, (ticks s1 <= k)%nat ->
          Account.is_available clock a1 k = (true, S k)) /\
       (length (accounts (rot s)) = 1%nat ->
        exists s2 : State,
          get_next_account clock s1 = Ok (Some h, s2))).
Proof.
  intros Ha.
  destruct (record_error_spec clock s h a status_code error_msg Ha)
    as (s1 & Herr & Ha1 & Hlen & Hother & Hmax & Hgap & Hcur).
  set (a1 := after_error clock (status_code, error_msg) (ticks s) a) in *.
  destruct (after_error_fields clock (status_code, error_msg) (ticks s) a)
    as (Hts & _). fold a1 in Hts.
  exists s1, a1. split; [assumption|]. split; [assumption|].
  split; [assumption|]. split; [assumption|]. split.
  { intros w k. now rewrite !requests_in_window_eq, Hts. }
  split.
  { intros k. now apply examined_same_timestamps. }
  split.
  { destruct (record_success_spec clock s h a Ha) as (s2 & Hok & Ha2 & _).
    exists s2. eexists. split; [exact Hok|]. split; [exact Ha2|].
    reflexivity. }
  intros s0 Hsel.
  destruct (get_next_account_frame clock s0)
    as (r & s' & Hrun & Hpr & _ & Hres).
  rewrite Hsel in Hrun. injection Hrun as <- <-.
  destruct (Hres h eq_refl) as (Hin & Hk1 & Hpos & a' & Ha' & Hnil).
  rewrite Ha in Ha'. injection Ha' as <-.
  destruct Hpr as (_ & Hmax0 & _ & _ & Hobj).
  assert (Hpass : forall k : nat, (examined clock (rot s1) k a1).1.1 = true).
  { intros k. apply examined_no_timestamps; [congruence|].
    rewrite Hmax, Hmax0. exact Hpos. }
  split; [exact Hpass|]. intros Hnrl Hhealthy Hmono.
  destruct (available_from_sound clock (accounts (rot s0)) 0 (ticks s0))
    as [_ Hav].
  destruct (Hav h Hin) as (_ & a0 & kk & Ha0 & _ & Hkk & Hcd).
  replace (h - 0)%nat with h in Ha0 by lia.
  destruct (Hobj h a0 Ha0) as (ts & Ha0').
  rewrite Ha in Ha0'. injection Ha0' as ->.
  assert (Hcd1 : (cooldown_until a1 < clock kk)%Q).
  { subst a1. rewrite after_error_cooldown by exact Hnrl. exact Hcd. }
  assert (Hticks1 : (ticks s <= ticks s1)%nat).
  { unfold Rotator.record_error in Herr.
    destruct (call h _ s) as [[x sx]|e] eqn:Ecall; [|discriminate Herr].
    injection Herr as -> ->. apply call_inv in Ecall as (b & Hb & _ & _ & Ht & _).
    rewrite Ht. rewrite Ha in Hb. injection Hb as <-.
    rewrite record_error_ticks.
    destruct ((status_code =? 429) || (status_code =? 503)); lia. }
  assert (Havail : forall k : nat, (ticks s1 <= k)%nat ->
            Account.is_available clock a1 k = (true, S k)).
  { intros k Hk. apply is_available_true. split; [assumption|].
    eapply Qlt_le_trans; [exact Hcd1|]. apply Hmono. lia. }
  split; [exact Havail|]. intros Hone.
  assert (Hh : h = 0%nat).
  { apply lookup_lt_Some in Ha. lia. }
  subst h.
  pose proof (get_next_account_head clock s1 a1 Hmono) as Hhead.
  cbv zeta in Hhead. rewrite Hlen, Hone in Hhead.
  rewrite Z.mod_1_r in Hhead. eexists. apply Hhead.
  - intros j b Hj. destruct j as [|j].
    + rewrite Ha1 in Hj. injection Hj as <-. split; [assumption|].
      apply is_available_true, Havail. lia.
    + apply lookup_lt_Some in Hj. lia.
  - exact Ha1.
  - apply Hpass.
Qed.

Lemma errors_add_no_timestamp_witness :
  let clock := stepping_clock 1 in
  exists s s1 s2 : State,
    get_next_account clock (fresh_rotator [alice] 1) = Ok (Some 0%nat, s) /\
    Rotator.record_error clock 0 500 "HTTP 500" s = Ok (tt, s1) /\
    get_next_account clock s1 = Ok (Some 0%nat, s2).
Proof.
  cbv zeta.
  assert (Hsel : get_next_account (stepping_clock 1) (fresh_rotator [alice] 1)
                 = Ok (Some 0%nat,
                       mkState (rot (fresh_rotator [alice] 1)) 4))
    by (vm_compute; reflexivity).
  destruct (errors_add_no_timestamp (stepping_clock 1)
              (mkState (rot (fresh_rotator [alice] 1)) 4) 0 alice
              500 "HTTP 500" eq_refl)
    as (s1 & a1 & Herr & Ha1 & _ & _ & _ & _ & _ & Hagain).
  destruct (Hagain _ Hsel) as [_ Hnext].
  vm_compute in Herr. injection Herr as <-.
  vm_compute in Ha1. injection Ha1 as <-.
  destruct Hnext as [_ Hone].
  - split; discriminate.
  - reflexivity.
  - apply stepping_clock_monotone. discriminate.
  - destruct (Hone eq_refl) as (s2 & Hs2).
    eexists _, _, s2. split; [exact Hsel|]. split; [|exact Hs2].
    vm_compute. reflexivity.
Defined.

(** ** The count over a minute after a read over the gap *)

(** C2 fails on the code.  A read over the minimum gap throws away every
    timestamp older than the gap, so a read over 60 seconds made after it
    counts fewer successes than were recorded in the last 60 seconds: here
    a success at 12 s, a read over 2 s at 15 s and a read over 60 s at 18 s
    that returns 0 where 1 success lies inside the window.  The gap check
    of [get_next_account] does this on every account it returns, so the
    per-minute ceiling is not enforced: with [max_rpm = 2] the same account
    is returned three times in 27 seconds, the third time by a call whose
    60-second read (at 30 s) comes after successes at 12 s and 24 s. *)
Lemma min_gap_read_destroys_minute_count :
  let clock := stepping_clock 3 in
  (exists s1 s2 s3 : State,
     record_success clock 0 (fresh_rotator [alice] 4) = Ok (tt, s1) /\
     call 0 (Account.requests_in_window clock 2%Q) s1 = Ok (0, s2) /\
     call 0 (Account.requests_in_window clock 60%Q) s2 = Ok (0, s3) /\
     successes_within 60%Q (clock 6%nat) [clock 4%nat] = 1) /\
  (exists s2 s3 : State,
     select_and_succeed clock 2 (tight_rotator 1) =
       Ok ([Some 0%nat; Some 0%nat], s2) /\
     ticks s2 = 9%nat /\
     get_next_account clock s2 = Ok (Some 0%nat, s3) /\
     max_rpm (rot s2) = 2 /\
     successes_within 60%Q (clock 10%nat) [clock 4%nat; clock 8%nat] = 2).
Proof.
  cbv zeta. split.
  - do 3 eexists. split; [vm_compute; reflexivity|].
    split; [vm_compute; reflexivity|].
    split; [vm_compute; reflexivity|]. reflexivity.
  - do 2 eexists. split; [vm_compute; reflexivity|].
    split; [reflexivity|]. split; [vm_compute; reflexivity|].
    split; reflexivity.
Qed.

(** * Further properties of the scheduler *)

(** ** Predicates kept by every operation *)

Lemma newer_than_nested (c c' : Q) (ts : list Q) :
  (c <= c')%Q -> newer_than c' (newer_than c ts) = newer_than c' ts.
Proof.
  intros Hle. induction ts as [|t ts IH]; [reflexivity|].
  unfold newer_than in *. cbn [List.filter].
  destruct (Qltb c t) eqn:E; cbn [List.filter].
  - rewrite IH. reflexivity.
  - rewrite IH. destruct (Qltb c' t) eqn:E'; [|reflexivity].
    apply Qltb_lt in E'. apply Qltb_ge in E. exfalso.
    apply (Qlt_irrefl t). eapply Qle_lt_trans; [exact E|].
    eapply Qle_lt_trans; eassumption.
Qed.

Lemma examined_as_reads (clock : nat -> Q) (r : AccountRotator) (k : nat)
    (a : AccountState) :
  let first := Account.requests_in_window clock 60%Q a k in
  (examined clock r k a).1.2 = first.1.2 \/
  (examined clock r k a).1.2 =
    (Account.requests_in_window clock (min_gap_s r) first.1.2 first.2).1.2.
Proof.
  cbv zeta. rewrite !requests_in_window_eq. cbn [fst snd]. unfold examined.
  destruct (max_rpm r <=? _); cbn [fst snd]; [now left|right].
  reflexivity.
Qed.

Lemma examined_keeps (clock : nat -> Q) (P : AccountState -> Prop)
    (r : AccountRotator) (k : nat) (a : AccountState) :
  kept_by_reads clock P -> P a -> P (examined clock r k a).1.2.
Proof.
  intros Hread Ha.
  destruct (examined_as_reads clock r k a) as [-> | ->]; auto.
Qed.

Lemma first_passing_keeps (clock : nat -> Q) (P : AccountState -> Prop)
    (modulus : Z) (candidates : list nat) :
  kept_by_reads clock P ->
  forall (s s' : State) (r : option nat),
    Forall P (accounts (rot s)) ->
    first_passing clock modulus candidates s = Ok (r, s') ->
    Forall P (accounts (rot s')).
Proof.
  intros HP. induction candidates as [|c rest IH]; intros s s' r Hall Hrun.
  - cbn in Hrun. injection Hrun as _ <-. assumption.
  - destruct (accounts (rot s) !! c) as [a|] eqn:Hc.
    + rewrite (first_passing_cons _ _ _ _ _ _ Hc) in Hrun.
      assert (Hall' : Forall P
                (accounts (rot (examined_state clock modulus c a s)))).
      { cbn [examined_state rot accounts]. apply Forall_insert; [assumption|].
        apply examined_keeps; [assumption|].
        eapply Forall_lookup_1; eassumption. }
      destruct (examined clock (rot s) (ticks s) a).1.1.
      * injection Hrun as _ <-. assumption.
      * eapply IH; eassumption.
    + rewrite (first_passing_dangling _ _ _ _ _ Hc) in Hrun. discriminate.
Qed.

Lemma get_next_account_keeps (clock : nat -> Q) (P : AccountState -> Prop)
    (s s' : State) (r : option nat) :
  kept_by_reads clock P ->
  Forall P (accounts (rot s)) ->
  get_next_account clock s = Ok (r, s') ->
  Forall P (accounts (rot s')).
Proof.
  intros HP Hall. rewrite get_next_account_refines. unfold select_spec.
  rewrite (M_bind_ok _ _ _ _ _ (available_accounts_eq clock s)).
  destruct (available_from clock 0 (accounts (rot s)) (ticks s)).1
    as [|h0 available].
  - intros [= _ <-]. assumption.
  - unfold mbind, M_bind, attr. cbn [rot]. intros Hrun.
    eapply first_passing_keeps in Hrun; eassumption.
Qed.

Lemma call_keeps {A : Type} (P : AccountState -> Prop) (h : nat)
    (method : AccountState -> Clock (A * AccountState)) (s s' : State)
    (x : A) :
  (forall (a : AccountState) (k : nat), P a -> P (method a k).1.2) ->
  Forall P (accounts (rot s)) ->
  call h method s = Ok (x, s') ->
  Forall P (accounts (rot s')).
Proof.
  intros Hm Hall Hcall. unfold call in Hcall.
  destruct (accounts (rot s) !! h) as [a|] eqn:Hh; [|discriminate].
  pose proof (Hm a (ticks s) (Forall_lookup_1 _ _ _ _ Hall Hh)) as Ha.
  destruct (method a (ticks s)) as [[y a'] k].
  injection Hcall as _ <-. cbn [rot accounts set_accounts].
  now apply Forall_insert.
Qed.

Lemma run_op_keeps (clock : nat -> Q) (P : AccountState -> Prop) (o : op)
    (s s' : State) :
  kept_by_methods clock P ->
  Forall P (accounts (rot s)) ->
  run_op clock o s = Ok (tt, s') ->
  Forall P (accounts (rot s')).
Proof.
  intros HP Hall. pose proof HP as (Hread & Hreq & Herr & Hcred).
  destruct o as [h | h status msg | h w | | json_load]; cbn [run_op].
  - apply call_keeps; auto.
  - apply call_keeps; auto.
  - intros Hrun. unfold mbind, M_bind in Hrun.
    destruct (call h (Account.requests_in_window clock w) s)
      as [[x s1]|e] eqn:E; [|discriminate].
    injection Hrun as <-. eapply call_keeps; [| |exact E]; auto.
  - intros Hrun. unfold mbind, M_bind in Hrun.
    destruct (get_next_account clock s) as [[x s1]|e] eqn:E; [|discriminate].
    injection Hrun as <-. eapply get_next_account_keeps; [exact Hread|..];
      eassumption.
  - intros [= <-]. cbn [rot accounts set_accounts].
    apply Forall_lookup_2. intros j a' Ha'. rewrite lookup_map in Ha'.
    destruct (accounts (rot s) !! j) as [a|] eqn:Hj; [|discriminate].
    injection Ha' as <-. pose proof (Forall_lookup_1 _ _ _ _ Hall Hj) as Ha.
    unfold reload_one. destruct (json_load (credential_path a)); auto.
Qed.

Lemma run_ops_keeps (clock : nat -> Q) (P : AccountState -> Prop)
    (os : list op) :
  kept_by_methods clock P ->
  forall s s' : State,
    Forall P (accounts (rot s)) ->
    run_ops clock os s = Ok (tt, s') ->
    Forall P (accounts (rot s')).
Proof.
  intros HP. induction os as [|o os IH]; intros s s' Hall Hrun.
  - injection Hrun as <-. assumption.
  - cbn [run_ops] in Hrun. unfold mbind, M_bind in Hrun.
    destruct (run_op clock o s) as [[[] s1]|e] eqn:E; [|discriminate].
    eapply IH; [|exact Hrun]. eapply run_op_keeps; eassumption.
Qed.

Lemma run_ops_returns (clock : nat -> Q) (os : list op) :
  forall s : State,
    Forall (op_in_range (length (accounts (rot s)))) os ->
    exists s' : State,
      run_ops clock os s = Ok (tt, s') /\
      length (accounts (rot s')) = length (accounts (rot s)).
Proof.
  induction os as [|o os IH]; intros s Hr.
  - exists s. split; reflexivity.
  - apply Forall_cons in Hr as [Ho Hr].
    destruct (run_op_keeps_unhealthy clock o s Ho) as (s1 & Hrun & Hlen & _).
    destruct (IH s1) as (s' & Hrun' & Hlen'); [now rewrite Hlen|].
    exists s'. split; [|congruence].
    cbn [run_ops]. now rewrite (M_bind_ok _ _ _ _ _ Hrun).
Qed.

Lemma newer_than_length (c : Q) (ts : list Q) :
  (length (newer_than c ts) <= length ts)%nat.
Proof. unfold newer_than. apply List.filter_length_le. Qed.

Lemma record_request_eq (clock : nat -> Q) (a : AccountState) (k : nat) :
  Account.record_request clock a k =
    (tt, set_consecutive_errors 0
           (set_total_requests (total_requests a + 1)
              (set_request_timestamps (request_timestamps a ++ [clock k]) a)),
     S k).
Proof. reflexivity. Qed.

Lemma counters_consistent_kept (clock : nat -> Q) :
  kept_by_methods clock counters_consistent.
Proof.
  unfold counters_consistent. split; [|split; [|split]].
  - intros a w k [Hc Ht]. rewrite requests_in_window_eq. cbn.
    split; [assumption|].
    pose proof (newer_than_length (clock k - w)%Q (request_timestamps a)).
    unfold len in *. lia.
  - intros a k [Hc Ht]. rewrite record_request_eq.
    cbn -[Z.le Z.add len]. split; [lia|].
    unfold len in *. rewrite length_app. cbn [length]. lia.
  - intros a msg rl k [Hc Ht].
    destruct (after_error_fields clock (if rl then 429 else 0, msg) k a)
      as (Hts & Htr & Hte & Hce & _).
    unfold after_error in *. cbn [fst snd] in *.
    replace ((if rl then 429 else 0) =? 429) with rl in * by now destruct rl.
    replace (rl || ((if rl then 429 else 0) =? 503)) with rl in *
      by now destruct rl.
    rewrite Hts, Htr, Hte, Hce. lia.
  - intros a creds H. exact H.
Qed.

(** ** Error runs, counters and window reads *)

Lemma record_errors_app (clock : nat -> Q) (h : nat)
    (l1 l2 : list (Z * string)) (s : State) :
  record_errors clock h (l1 ++ l2) s =
    (record_errors clock h l1 ≫= fun _ => record_errors clock h l2) s.
Proof.
  revert s. induction l1 as [|[c m] l1 IH]; intros s; [reflexivity|].
  cbn [app record_errors]. unfold mbind, M_bind in *.
  destruct (Rotator.record_error clock h c m s) as [[[] s1]|e]; [|reflexivity].
  apply IH.
Qed.

Lemma backoff_seconds_bounds (n : Z) :
  1 <= n -> 30 <= backoff_seconds n <= 300.
Proof.
  intros Hn. unfold backoff_seconds.
  assert (2 ^ 0 <= 2 ^ (n - 1)) by (apply Z.pow_le_mono_r; lia).
  change (2 ^ 0) with 1 in *. lia.
Qed.

Lemma rate_limit_test (e : Z * string) :
  rate_limit e -> (e.1 =? 429) || (e.1 =? 503) = true.
Proof. intros [-> | ->]; reflexivity. Qed.

Lemma rate_limit_run (clock : nat -> Q) (h : nat)
    (errors : list (Z * string)) :
  forall (s : State) (a : AccountState),
    accounts (rot s) !! h = Some a ->
    Forall rate_limit errors ->
    exists (s' : State) (a' : AccountState),
      record_errors clock h errors s = Ok (tt, s') /\
      accounts (rot s') !! h = Some a' /\
      is_healthy a' = is_healthy a /\
      consecutive_errors a' = consecutive_errors a + len errors /\
      ticks s' = (ticks s + length errors)%nat /\
      (errors <> [] ->
       cooldown_until a' =
         (clock (ticks s' - 1)%nat +
          inject_Z (backoff_seconds (consecutive_errors a')))%Q).
Proof.
  induction errors as [|[c m] errors IH]; intros s a Hh Hrl.
  - exists s, a. unfold len. cbn. repeat split; try lia; try easy.
  - apply Forall_cons in Hrl as [Hc Hrl].
    destruct (call_spec h (Account.record_error clock m
                ((c =? 429) || (c =? 503))) s a Hh)
      as (s1 & Hcall & Hh1 & Ht1 & _).
    pose proof (rate_limit_test (c, m) Hc) as Htest. cbn [fst] in Htest.
    rewrite Htest in *. rewrite account_record_error_rate_limit in *.
    cbn [fst snd] in *.
    destruct (IH s1 _ Hh1 Hrl) as (s' & a' & Hrun & Hh' & Hhe & Hce & Ht' & Hcd).
    exists s', a'. split.
    { cbn [record_errors]. erewrite M_bind_ok; [exact Hrun|].
      unfold Rotator.record_error. rewrite Htest. exact Hcall. }
    split; [exact Hh'|]. cbn in Hhe, Hce. split; [exact Hhe|].
    unfold len in *. cbn [length]. split; [lia|]. split; [lia|].
    intros _. destruct errors as [|e errors].
    + cbn in Hrun. injection Hrun as <-. rewrite Hh1 in Hh'.
      injection Hh' as <-. cbn. rewrite Ht1.
      replace (S (ticks s) - 1)%nat with (ticks s) by lia. reflexivity.
    + apply Hcd. discriminate.
Qed.

Lemma is_available_after (clock : nat -> Q) (a : AccountState) (k : nat) :
  is_healthy a = true -> (cooldown_until a < clock k)%Q ->
  Account.is_available clock a k = (true, S k).
Proof.
  intros Hh Hc. rewrite is_available_eq, Hh.
  apply Qltb_lt in Hc. now rewrite Hc.
Qed.

(** X4.  A run of [record_error] calls with status 429 or 503 on one
    account, however long, returns normally, reads the clock once per call
    and never changes [is_healthy].  When the count of consecutive errors
    was not negative before the run, the cooldown it leaves ends between 30
    and 300 seconds after the instant the last call read, so a healthy
    account is available again at every reading later than 300 seconds
    after its last rate-limit error. *)
Theorem rate_limit_errors_never_disable (clock : nat -> Q) (s : State)
    (h : nat) (a : AccountState) (errors : list (Z * string)) :
  accounts (rot s) !! h = Some a ->
  0 <= consecutive_errors a ->
  errors <> [] ->
  Forall rate_limit errors ->
  exists (s' : State) (a' : AccountState),
    record_errors clock h errors s = Ok (tt, s') /\
    accounts (rot s') !! h = Some a' /\
    is_healthy a' = is_healthy a /\
    ticks s' = (ticks s + length errors)%nat /\
    let last := clock (ticks s' - 1)%nat in
    (last + 30 <= cooldown_until a' <= last + 300)%Q /\
    (is_healthy a = true ->
     forall k : nat, (last + 300 < clock k)%Q ->
       Account.is_available clock a' k = (true, S k)).
Proof.
  intros Hh Hc Hne Hrl.
  destruct (rate_limit_run clock h errors s a Hh Hrl)
    as (s' & a' & Hrun & Hh' & Hhe & Hce & Ht & Hcd).
  exists s', a'. split; [exact Hrun|]. split; [exact Hh'|].
  split; [exact Hhe|]. split; [exact Ht|]. cbv zeta.
  specialize (Hcd Hne).
  assert (Hb : 30 <= backoff_seconds (consecutive_errors a') <= 300).
  { apply backoff_seconds_bounds. rewrite Hce. unfold len.
    destruct errors; [congruence | cbn [length]; lia]. }
  assert (Hq : (inject_Z 30 <= inject_Z (backoff_seconds (consecutive_errors a'))
                <= inject_Z 300)%Q).
  { split; rewrite <- Zle_Qle; lia. }
  change (inject_Z 30) with 30%Q in Hq. change (inject_Z 300) with 300%Q in Hq.
  assert (Hbounds : (clock (ticks s' - 1)%nat + 30 <= cooldown_until a'
                     <= clock (ticks s' - 1)%nat + 300)%Q).
  { rewrite Hcd. split; lra. }
  split; [exact Hbounds|].
  intros Hhealthy k Hk. apply is_available_after; [congruence|].
  eapply Qle_lt_trans; [apply Hbounds | exact Hk].
Qed.

Lemma rate_limit_errors_never_disable_witness :
  let clock := stepping_clock 1 in
  let errors := [(429, "HTTP 429"); (503, "HTTP 503"); (429, "HTTP 429");
                 (429, "HTTP 429"); (503, "HTTP 503"); (429, "HTTP 429")] in
  exists (s' : State) (a' : AccountState),
    record_errors clock 0 errors (fresh_rotator [alice] 1) = Ok (tt, s') /\
    accounts (rot s') !! 0%nat = Some a' /\
    is_healthy a' = is_healthy alice /\
    ticks s' = (1 + length errors)%nat /\
    let last := clock (ticks s' - 1)%nat in
    (last + 30 <= cooldown_until a' <= last + 300)%Q /\
    (is_healthy alice = true ->
     forall k : nat, (last + 300 < clock k)%Q ->
       Account.is_available clock a' k = (true, S k)).
Proof.
  apply (rate_limit_errors_never_disable (stepping_clock 1)
           (fresh_rotator [alice] 1) 0 alice).
  - reflexivity.
  - simpl. lia.
  - discriminate.
  - repeat (constructor; [unfold rate_limit; cbn; lia|]). constructor.
Defined.

(** X5.  The threshold of five counts errors of either class: after four
    or more errors in a row with any status codes (429 and 503 included),
    on an account whose count was not negative, one more error outside the
    rate-limit class leaves the account disabled. *)
Theorem mixed_error_streak_disables (clock : nat -> Q) (s : State) (h : nat)
    (a : AccountState) (errors : list (Z * string)) (e : Z * string) :
  accounts (rot s) !! h = Some a ->
  0 <= consecutive_errors a ->
  (4 <= length errors)%nat ->
  not_rate_limit e ->
  exists (s' : State) (a' : AccountState),
    record_errors clock h (errors ++ [e]) s = Ok (tt, s') /\
    accounts (rot s') !! h = Some a' /\
    consecutive_errors a' = consecutive_errors a + len errors + 1 /\
    is_healthy a' = false.
Proof.
  intros Hh Hc Hlen He.
  destruct (record_errors_invariant clock h
              (fun n a' =>
                 consecutive_errors a' = consecutive_errors a + Z.of_nat n)
              (fun _ => True)) with (errors := errors) (s := s) (a := a)
              (n := 0%nat)
    as (s1 & a1 & Hrun & Hh1 & Hc1 & _); try assumption.
  - intros n k b e' _ Hb.
    destruct (after_error_fields clock e' k b) as (_ & _ & _ & -> & _). lia.
  - now apply Forall_forall.
  - lia.
  - destruct e as [c m].
    destruct (record_error_spec clock s1 h a1 c m Hh1) as (s' & Herr & Hh' & _).
    exists s'. eexists. split.
    { rewrite record_errors_app. rewrite (M_bind_ok _ _ _ _ _ Hrun).
      cbn [record_errors]. rewrite (M_bind_ok _ _ _ _ _ Herr). reflexivity. }
    split; [exact Hh'|].
    destruct (after_error_fields clock (c, m) (ticks s1) a1)
      as (_ & _ & _ & -> & _).
    cbn [Nat.add] in Hc1. split; [unfold len; lia|].
    rewrite after_error_is_healthy, (not_rate_limit_test _ He).
    destruct (Z.leb_spec 5 (consecutive_errors a1 + 1)); [reflexivity|lia].
Qed.

Lemma mixed_error_streak_disables_witness :
  let errors := [(500, "HTTP 500"); (429, "HTTP 429"); (503, "HTTP 503");
                 (429, "HTTP 429")] in
  exists (s' : State) (a' : AccountState),
    record_errors (stepping_clock 1) 0 (errors ++ [(500, "HTTP 500")])
      (fresh_rotator [alice] 1) = Ok (tt, s') /\
    accounts (rot s') !! 0%nat = Some a' /\
    consecutive_errors a' = consecutive_errors alice + len errors + 1 /\
    is_healthy a' = false.
Proof.
  apply (mixed_error_streak_disables (stepping_clock 1)
           (fresh_rotator [alice] 1) 0 alice).
  - reflexivity.
  - simpl. lia.
  - simpl. lia.
  - split; cbn; lia.
Defined.

(** X2.  Whatever sequence of operations is run on a pool, with references
    that lie inside it, it returns normally and keeps the counters of every
    account consistent: [0 <= consecutive_errors <= total_errors] and
    [len(request_timestamps) <= total_requests]. *)
Theorem counters_stay_consistent (clock : nat -> Q) (ops : list op)
    (s : State) :
  Forall (op_in_range (length (accounts (rot s)))) ops ->
  Forall counters_consistent (accounts (rot s)) ->
  exists s' : State,
    run_ops clock ops s = Ok (tt, s') /\
    Forall counters_consistent (accounts (rot s')).
Proof.
  intros Hr Hall. destruct (run_ops_returns clock ops s Hr) as (s' & Hrun & _).
  exists s'. split; [exact Hrun|].
  eapply run_ops_keeps; [apply counters_consistent_kept | exact Hall | exact Hrun].
Qed.

Lemma counters_stay_consistent_witness :
  exists s' : State,
    run_ops (stepping_clock 1)
      [GetNextAccount; RecordSuccess 0; RecordError 1 429 "HTTP 429";
       RequestsInWindow 0 60%Q; GetNextAccount; RecordError 0 500 "HTTP 500"]
      (fresh_rotator [alice; bob] 1) = Ok (tt, s') /\
    Forall counters_consistent (accounts (rot s')).
Proof.
  apply (counters_stay_consistent (stepping_clock 1) _
           (fresh_rotator [alice; bob] 1)).
  - repeat constructor.
  - repeat (constructor; [unfold counters_consistent, len; simpl; lia|]).
    constructor.
Defined.

(** X1.  Under a clock that never runs backwards, a [requests_in_window]
    read is not disturbed by an earlier read over a window at least as
    long: the later read returns the same count, and leaves the same
    object, as if the earlier read had not been made, and the count is the
    number of timestamps of the account inside the window. *)
Theorem larger_window_read_is_harmless (clock : nat -> Q) (a : AccountState)
    (w1 w2 : Q) (k1 k2 : nat) :
  monotone clock -> (w2 <= w1)%Q -> (k1 <= k2)%nat ->
  let first := Account.requests_in_window clock w1 a k1 in
  let second := Account.requests_in_window clock w2 first.1.2 k2 in
  second = Account.requests_in_window clock w2 a k2 /\
  second.1.1 = successes_within w2 (clock k2) (request_timestamps a).
Proof.
  intros Hmono Hw Hk. cbv zeta. rewrite !requests_in_window_eq. cbn [fst snd].
  cbn [request_timestamps set_request_timestamps].
  rewrite newer_than_nested.
  - split; reflexivity.
  - specialize (Hmono k1 k2 Hk). lra.
Qed.

Lemma larger_window_read_is_harmless_witness :
  let clock := stepping_clock 3 in
  let a := set_request_timestamps [12; 44]%Q alice in
  let first := Account.requests_in_window clock 60%Q a 15%nat in
  let second := Account.requests_in_window clock 5%Q first.1.2 16%nat in
  second = Account.requests_in_window clock 5%Q a 16%nat /\
  second.1.1 = successes_within 5%Q (clock 16%nat) (request_timestamps a).
Proof.
  apply (larger_window_read_is_harmless (stepping_clock 3)
           (set_request_timestamps [12; 44]%Q alice) 60%Q 5%Q 15%nat 16%nat).
  - apply stepping_clock_monotone. lra.
  - lra.
  - lia.
Defined.

Lemma select_and_succeed_nothing (clock : nat -> Q) (n : nat) :
  forall s : State,
    max_rpm (rot s) <= 0 ->
    exists s' : State,
      select_and_succeed clock n s = Ok (replicate n None, s') /\
      pruned_state s s' /\
      credentials_dir (rot s') = credentials_dir (rot s).
Proof.
  induction n as [|n IH]; intros s Hmax.
  - exists s. split; [reflexivity|]. split; [apply pruned_state_refl|].
    reflexivity.
  - destruct (get_next_account_frame clock s) as (r & s1 & Hrun & Hpr & _ & Hres).
    destruct r as [h|].
    { destruct (Hres h eq_refl) as (_ & _ & Hpos & _). lia. }
    pose proof (get_next_account_credentials_dir clock s s1 None Hrun) as Hdir.
    destruct (IH s1) as (s' & Hrest & Hpr' & Hdir').
    { destruct Hpr as (_ & -> & _). exact Hmax. }
    exists s'. split; [|split; [eapply pruned_state_trans; eassumption|]].
    + cbn [select_and_succeed]. rewrite (M_bind_ok _ _ _ _ _ Hrun).
      unfold mbind at 1, M_bind at 1. cbn [mret M_ret].
      rewrite (M_bind_ok _ _ _ _ _ Hrest). reflexivity.
    + congruence.
Qed.

(** X3.  With [max_rpm <= 0] every account is at its ceiling:
    [get_next_account] returns [None] in every state, and so does every
    call of a run of calls.  The run changes no more than the timestamps
    kept, the clock readings made and the cursor.  One call examines every
    available account and so leaves the cursor at
    [cursor mod len(available)]; when no account is available it leaves the
    cursor where it was. *)
Theorem nonpositive_max_rpm_selects_nothing (clock : nat -> Q) (s : State)
    (n : nat) :
  max_rpm (rot s) <= 0 ->
  (exists s' : State,
     get_next_account clock s = Ok (None, s') /\
     let available :=
       (available_from clock 0 (accounts (rot s)) (ticks s)).1 in
     _current_index (rot s') =
       if decide (available = []) then _current_index (rot s)
       else _current_index (rot s) mod len available) /\
  exists s' : State,
    select_and_succeed clock n s = Ok (replicate n None, s') /\
    pruned_state s s' /\
    credentials_dir (rot s') = credentials_dir (rot s).
Proof.
  intros Hmax. split; [|now apply select_and_succeed_nothing].
  destruct (get_next_account_frame clock s) as (r & s1 & Hrun & _ & _ & Hres).
  destruct r as [h|].
  { destruct (Hres h eq_refl) as (_ & _ & Hpos & _). lia. }
  exists s1. split; [exact Hrun|]. cbv zeta.
  destruct (decide ((available_from clock 0 (accounts (rot s)) (ticks s)).1
                    = [])) as [Hnil|Hne].
  - rewrite (get_next_account_nobody clock s Hnil) in Hrun.
    now injection Hrun as <-.
  - destruct (get_next_account_scan clock s Hne)
      as (e & r' & s2 & Hrun' & _ & Hcur & _ & _ & Hres').
    rewrite Hrun in Hrun'. injection Hrun' as <- <-.
    rewrite Hcur, Hres'. unfold len.
    rewrite <- Zplus_mod_idemp_r, Z_mod_same_full, Z.add_0_r. reflexivity.
Qed.

Lemma nonpositive_max_rpm_selects_nothing_witness :
  let s := mkState (mkAccountRotator "./credentials" 0 2%Q [alice; bob] 5) 1 in
  (exists s' : State,
     get_next_account (stepping_clock 1) s = Ok (None, s') /\
     _current_index (rot s') = 1) /\
  exists s' : State,
    select_and_succeed (stepping_clock 1) 3 s = Ok (replicate 3 None, s') /\
    pruned_state s s' /\
    credentials_dir (rot s') = credentials_dir (rot s).
Proof.
  cbv zeta.
  destruct (nonpositive_max_rpm_selects_nothing (stepping_clock 1)
              (mkState (mkAccountRotator "./credentials" 0 2%Q [alice; bob] 5) 1)
              3) as [(s' & Hrun & Hcur) Hruns].
  - simpl. lia.
  - split; [|exact Hruns]. exists s'. split; [exact Hrun|].
    rewrite Hcur. reflexivity.
Defined.

(** ** Monitoring *)

Lemma account_stats_eq (clock : nat -> Q) (a : AccountState) (k : nat) :
  let k1 := if is_healthy a then S k else k in
  let ts := newer_than (clock k1 - 60)%Q (request_timestamps a) in
  Stats.account_stats clock a k =
    (Stats.mkAccountStats (email a)
       (if is_healthy a then Qltb (cooldown_until a) (clock k) else false)
       (is_healthy a) (total_requests a) (total_errors a) (len ts)
       (Stats.max_0 (cooldown_until a - clock (S k1))%Q)
       (consecutive_errors a),
     set_request_timestamps ts a, S (S k1)).
Proof.
  unfold Stats.account_stats. unfold mbind at 1, Clock_bind at 1.
  rewrite is_available_eq.
  destruct (is_healthy a) eqn:Hh; cbv zeta; unfold mbind, Clock_bind;
    rewrite requests_in_window_eq; cbn; try rewrite Hh; reflexivity.
Qed.

Lemma accounts_stats_seq (clock : nat -> Q) (n : nat) :
  forall (i : nat) (s : State),
    (i + n <= length (accounts (rot s)))%nat ->
    exists (entries : list Stats.AccountStats) (s' : State),
      Stats.accounts_stats clock (seq i n) s = Ok (entries, s') /\
      length entries = n /\
      pruned_state s s' /\
      _current_index (rot s') = _current_index (rot s) /\
      (ticks s' <= ticks s + 3 * n)%nat /\
      (forall j : nat, (j < i \/ i + n <= j)%nat ->
         accounts (rot s') !! j = accounts (rot s) !! j) /\
      forall (j : nat) (a : AccountState),
        (i <= j < i + n)%nat ->
        accounts (rot s) !! j = Some a ->
        exists k : nat,
          (ticks s <= k)%nat /\
          ((Stats.account_stats clock a k).2 <= ticks s')%nat /\
          entries !! (j - i)%nat = Some (Stats.account_stats clock a k).1.1 /\
          accounts (rot s') !! j = Some (Stats.account_stats clock a k).1.2.
Proof.
  induction n as [|n IH]; intros i s Hlen.
  - exists [], s. cbn. split; [reflexivity|]. split; [reflexivity|].
    split; [apply pruned_state_refl|]. split; [reflexivity|].
    split; [lia|]. split; [reflexivity|]. intros j a Hj. lia.
  - destruct (lookup_lt_is_Some_2 (accounts (rot s)) i) as [a0 Hi]; [lia|].
    destruct (call_spec i (Stats.account_stats clock) s a0 Hi)
      as (s1 & Hcall & Hi1 & Ht1 & Hsame).
    destruct Hsame as (Hl1 & Ho1 & Hm1 & Hg1 & Hc1).
    pose proof (account_stats_eq clock a0 (ticks s)) as Heq. cbv zeta in Heq.
    destruct (IH (S i) s1) as (es & s' & Hrun & Hles & Hpr & Hcur & Ht & Hout & Hin).
    { rewrite Hl1. lia. }
    exists ((Stats.account_stats clock a0 (ticks s)).1.1 :: es), s'.
    split.
    { cbn [seq Stats.accounts_stats]. rewrite (M_bind_ok _ _ _ _ _ Hcall).
      rewrite (M_bind_ok _ _ _ _ _ Hrun). reflexivity. }
    split; [cbn [length]; lia|].
    assert (Hpr1 : pruned_state s s1).
    { split; [exact Hl1|]. split; [exact Hm1|]. split; [exact Hg1|].
      split; [rewrite Ht1, Heq; cbn; destruct (is_healthy a0); lia|].
      intros j a Hj. destruct (decide (j = i)) as [->|Hne].
      - rewrite Hi in Hj. injection Hj as <-. rewrite Hi1, Heq. cbn.
        eexists. reflexivity.
      - rewrite (Ho1 j Hne), Hj. exists (request_timestamps a).
        now rewrite set_request_timestamps_id. }
    split; [eapply pruned_state_trans; eassumption|].
    split; [congruence|].
    assert (Hticks1 : (ticks s1 <= ticks s + 3)%nat).
    { rewrite Ht1, Heq. cbn. destruct (is_healthy a0); lia. }
    split; [lia|]. split.
    { intros j Hj. rewrite Hout by lia. apply Ho1. lia. }
    intros j a Hj Ha. destruct (decide (j = i)) as [->|Hne].
    + rewrite Hi in Ha. injection Ha as <-. exists (ticks s).
      split; [lia|]. split.
      { rewrite <- Ht1. destruct Hpr as (_ & _ & _ & Hle & _). exact Hle. }
      rewrite Nat.sub_diag. split; [reflexivity|].
      rewrite Hout by lia. exact Hi1.
    + destruct (Hin j a) as (k & Hk & Hk' & He & Ha'); [lia| |].
      { rewrite (Ho1 j Hne). exact Ha. }
      exists k. split.
      { destruct Hpr1 as (_ & _ & _ & Hle & _). lia. }
      split; [exact Hk'|]. split; [|exact Ha'].
      replace (j - i)%nat with (S (j - S i)) by lia. exact He.
Qed.

Lemma get_stats_eq (clock : nat -> Q) (s : State) :
  let av := available_from clock 0 (accounts (rot s)) (ticks s) in
  exists (entries : list Stats.AccountStats) (s' : State),
    Stats.accounts_stats clock (seq 0 (length (accounts (rot s))))
      (mkState (rot s) av.2) = Ok (entries, s') /\
    Stats.get_stats clock s =
      Ok (Stats.mkRotatorStats (len (accounts (rot s))) (len av.1)
            (max_rpm (rot s)) (Stats.int (min_gap_s (rot s) * 1000)%Q)
            entries, s').
Proof.
  cbv zeta.
  destruct (accounts_stats_seq clock (length (accounts (rot s))) 0
              (mkState (rot s)
                 (available_from clock 0 (accounts (rot s)) (ticks s)).2))
    as (entries & s' & Hrun & _); [cbn; lia|].
  exists entries, s'. split; [exact Hrun|].
  unfold Stats.get_stats. unfold mbind at 1, M_bind at 1, attr at 1.
  rewrite (M_bind_ok _ _ _ _ _ (available_accounts_eq clock s)).
  unfold mbind at 1 2 3, M_bind at 1 2 3, attr. cbn [rot].
  rewrite (M_bind_ok _ _ _ _ _ Hrun). reflexivity.
Qed.

Lemma get_stats_spec (clock : nat -> Q) (s : State) :
  let av := available_from clock 0 (accounts (rot s)) (ticks s) in
  exists (entries : list Stats.AccountStats) (s' : State),
    Stats.get_stats clock s =
      Ok (Stats.mkRotatorStats (len (accounts (rot s))) (len av.1)
            (max_rpm (rot s)) (Stats.int (min_gap_s (rot s) * 1000)%Q)
            entries, s') /\
    length entries = length (accounts (rot s)) /\
    pruned_state s s' /\
    _current_index (rot s') = _current_index (rot s) /\
    (ticks s' <= ticks s + 4 * length (accounts (rot s)))%nat /\
    forall (j : nat) (a : AccountState),
      accounts (rot s) !! j = Some a ->
      exists k : nat,
        (av.2 <= k)%nat /\
        ((Stats.account_stats clock a k).2 <= ticks s')%nat /\
        entries !! j = Some (Stats.account_stats clock a k).1.1 /\
        accounts (rot s') !! j = Some (Stats.account_stats clock a k).1.2.
Proof.
  cbv zeta. destruct (get_stats_eq clock s) as (entries & s' & Hrun & Heq).
  pose proof (available_from_sound clock (accounts (rot s)) 0 (ticks s))
    as [Hticks _].
  set (av := available_from clock 0 (accounts (rot s)) (ticks s)) in *.
  destruct (accounts_stats_seq clock (length (accounts (rot s))) 0
              (mkState (rot s) av.2))
    as (entries' & s'' & Hrun' & Hlen & Hpr & Hcur & Ht & _ & Hin); [cbn; lia|].
  rewrite Hrun in Hrun'. injection Hrun' as <- <-.
  exists entries, s'. split; [exact Heq|]. split; [exact Hlen|]. split.
  { eapply pruned_state_trans; [|exact Hpr].
    split; [reflexivity|]. split; [reflexivity|]. split; [reflexivity|].
    split; [cbn; lia|]. intros j a Hj. exists (request_timestamps a).
    now rewrite set_request_timestamps_id. }
  split; [exact Hcur|]. split; [cbn [ticks rot] in Ht; lia|].
  intros j a Hj. pose proof (lookup_lt_Some _ _ _ Hj) as Hlt.
  destruct (Hin j a) as (k & Hk & Hk' & He & Ha); [cbn; lia | exact Hj |].
  exists k. cbn [ticks] in Hk. rewrite Nat.sub_0_r in He. easy.
Qed.

Lemma max_0_nonneg (x : Q) : (0 <= Stats.max_0 x)%Q.
Proof.
  unfold Stats.max_0. destruct (Qltb 0 x) eqn:E; [|lra].
  apply Qltb_lt in E. lra.
Qed.

Lemma count_flagged {A : Type} (f : A -> bool) (l : list A) :
  forall (i : nat) (hs : list nat),
    NoDup hs ->
    (forall h : nat, h ∈ hs ->
       (i <= h)%nat /\ exists x : A, l !! (h - i)%nat = Some x /\ f x = true) ->
    (length hs <= length (List.filter f l))%nat.
Proof.
  induction l as [|x l IH]; intros i hs Hnd Hall.
  - destruct hs as [|h hs]; [reflexivity|].
    destruct (Hall h) as (_ & y & Hy & _); [left | discriminate].
  - destruct (decide (i ∈ hs)) as [Hi|Hi].
    + destruct (Hall i Hi) as (_ & y & Hy & Hf).
      rewrite Nat.sub_diag in Hy. injection Hy as <-.
      apply elem_of_Permutation in Hi as (hs' & Hperm).
      rewrite Hperm in Hnd. apply NoDup_cons in Hnd as [Hnotin Hnd].
      rewrite Hperm. cbn [List.filter length]. rewrite Hf. cbn [length].
      apply le_n_S, (IH (S i)); [assumption|]. intros h Hh.
      destruct (Hall h) as (Hle & y & Hy & Hfy).
      { rewrite Hperm. now right. }
      assert (h <> i) by (intros ->; contradiction).
      split; [lia|]. exists y. split; [|assumption].
      replace (h - i)%nat with (S (h - S i)) in Hy by lia. exact Hy.
    + cbn [List.filter]. transitivity (length (List.filter f l)).
      * apply (IH (S i)); [assumption|]. intros h Hh.
        destruct (Hall h Hh) as (Hle & y & Hy & Hfy).
        assert (h <> i) by (intros ->; contradiction).
        split; [lia|]. exists y. split; [|assumption].
        replace (h - i)%nat with (S (h - S i)) in Hy by lia. exact Hy.
      * destruct (f x); cbn [length]; lia.
Qed.

(** X6.  [get_stats] returns normally in every state.  It changes no more
    than the timestamps kept by the accounts and the clock readings made:
    configuration, cursor, health, cooldowns and counters are as before.
    Its dict counts the pool, reports between 0 and that many available
    accounts, and lists one entry per account in pool order, which copies
    the e-mail address, the health flag and the three counters of the
    account, a current rate between 0 and the number of timestamps held, a
    remaining cooldown that is not negative, and an availability flag that
    is set only for a healthy account. *)
Theorem get_stats_reports_every_account (clock : nat -> Q) (s : State) :
  exists (st : Stats.RotatorStats) (s' : State),
    Stats.get_stats clock s = Ok (st, s') /\
    pruned_state s s' /\
    _current_index (rot s') = _current_index (rot s) /\
    (ticks s' <= ticks s + 4 * length (accounts (rot s)))%nat /\
    Stats.total_accounts st = len (accounts (rot s)) /\
    Stats.max_rpm_per_account st = max_rpm (rot s) /\
    0 <= Stats.available_accounts st <= Stats.total_accounts st /\
    length (Stats.accounts st) = length (accounts (rot s)) /\
    forall (j : nat) (a : AccountState),
      accounts (rot s) !! j = Some a ->
      exists e : Stats.AccountStats,
        Stats.accounts st !! j = Some e /\
        Stats.email e = email a /\
        Stats.is_healthy e = is_healthy a /\
        Stats.total_requests e = total_requests a /\
        Stats.total_errors e = total_errors a /\
        Stats.consecutive_errors e = consecutive_errors a /\
        0 <= Stats.rpm_current e <= len (request_timestamps a) /\
        (0 <= Stats.cooldown_remaining e)%Q /\
        (Stats.is_available e = true -> is_healthy a = true).
Proof.
  destruct (get_stats_spec clock s)
    as (entries & s' & Hrun & Hlen & Hpr & Hcur & Ht & Hin).
  eexists. exists s'. split; [exact Hrun|]. cbn [Stats.total_accounts
    Stats.max_rpm_per_account Stats.available_accounts Stats.accounts].
  split; [exact Hpr|]. split; [exact Hcur|]. split; [exact Ht|].
  split; [reflexivity|]. split; [reflexivity|]. split.
  { pose proof (available_from_length clock (accounts (rot s)) 0 (ticks s)).
    unfold len. lia. }
  split; [exact Hlen|]. intros j a Hj.
  destruct (Hin j a Hj) as (k & _ & _ & He & _).
  rewrite account_stats_eq in He. cbn [fst snd] in He.
  eexists. split; [exact He|]. cbn.
  repeat (split; [reflexivity|]). split.
  { pose proof (newer_than_length
                  (clock (if is_healthy a then S k else k) - 60)%Q
                  (request_timestamps a)).
    unfold len. lia. }
  split; [apply max_0_nonneg|].
  destruct (is_healthy a); [reflexivity | discriminate].
Qed.

(** X7.  Under a clock that never runs backwards the dict of [get_stats]
    is consistent although its values are read at different instants: an
    entry flagged available is healthy and has no cooldown remaining, an
    entry with a cooldown remaining is not flagged available, and the
    number under ["available_accounts"], read first, is at most the number
    of entries flagged available, itself at most ["total_accounts"]. *)
Theorem get_stats_is_consistent (clock : nat -> Q) (s s' : State)
    (st : Stats.RotatorStats) :
  monotone clock ->
  Stats.get_stats clock s = Ok (st, s') ->
  (forall (j : nat) (e : Stats.AccountStats),
     Stats.accounts st !! j = Some e ->
     (Stats.is_available e = true ->
      Stats.is_healthy e = true /\ Stats.cooldown_remaining e = 0%Q) /\
     ((0 < Stats.cooldown_remaining e)%Q -> Stats.is_available e = false)) /\
  Stats.available_accounts st <=
    len (List.filter Stats.is_available (Stats.accounts st)) <=
    Stats.total_accounts st.
Proof.
  intros Hmono Hget.
  destruct (get_stats_spec clock s)
    as (entries & s1 & Hrun & Hlen & _ & _ & _ & Hin).
  rewrite Hget in Hrun. injection Hrun as -> <-.
  cbn [Stats.total_accounts Stats.available_accounts Stats.accounts].
  assert (Hentry : forall (j : nat) (e : Stats.AccountStats),
             entries !! j = Some e ->
             Stats.is_available e = true ->
             Stats.is_healthy e = true /\ Stats.cooldown_remaining e = 0%Q).
  { intros j e He Hav.
    destruct (lookup_lt_is_Some_2 (accounts (rot s)) j) as [a Hj].
    { rewrite <- Hlen. eapply lookup_lt_Some, He. }
    destruct (Hin j a Hj) as (k & _ & _ & He' & _).
    rewrite He in He'. injection He' as ->.
    rewrite account_stats_eq in *. cbn in *.
    destruct (is_healthy a); [|discriminate]. split; [reflexivity|].
    apply Qltb_lt in Hav. unfold Stats.max_0.
    destruct (Qltb 0 (cooldown_until a - clock (S (S k)))) eqn:E;
      [|reflexivity].
    apply Qltb_lt in E. pose proof (Hmono k (S (S k)) ltac:(lia)). lra. }
  split.
  - intros j e He. split; [apply (Hentry j e He)|].
    intros Hpos. destruct (Stats.is_available e) eqn:Hav; [|reflexivity].
    destruct (Hentry j e He Hav) as [_ H0]. rewrite H0 in Hpos. lra.
  - split.
    + unfold len. apply inj_le.
      apply (count_flagged Stats.is_available entries 0).
      * apply available_from_NoDup.
      * intros h Hh.
        pose proof (available_from_sound clock (accounts (rot s)) 0 (ticks s))
          as [_ Hs].
        destruct (Hs h Hh) as (_ & a & kk & Ha & Hhe & Hkk & Hcd).
        split; [lia|]. rewrite Nat.sub_0_r in *.
        destruct (Hin h a Ha) as (k & Hk & _ & He & _).
        eexists. split; [exact He|].
        rewrite account_stats_eq. cbn. rewrite Hhe. apply Qltb_lt.
        eapply Qlt_le_trans; [exact Hcd|]. apply Hmono. lia.
    + unfold len. rewrite <- Hlen. apply inj_le, List.filter_length_le.
Qed.

Lemma get_stats_is_consistent_witness :
  let clock := stepping_clock 1 in
  let s := fresh_rotator [alice; set_cooldown_until 3%Q bob;
                          set_is_healthy false carol] 1 in
  exists (st : Stats.RotatorStats) (s' : State),
    Stats.get_stats clock s = Ok (st, s') /\
    (forall (j : nat) (e : Stats.AccountStats),
       Stats.accounts st !! j = Some e ->
       (Stats.is_available e = true ->
        Stats.is_healthy e = true /\ Stats.cooldown_remaining e = 0%Q) /\
       ((0 < Stats.cooldown_remaining e)%Q -> Stats.is_available e = false)) /\
    Stats.available_accounts st <=
      len (List.filter Stats.is_available (Stats.accounts st)) <=
      Stats.total_accounts st.
Proof.
  do 2 eexists. split; [vm_compute; reflexivity|].
  eapply (get_stats_is_consistent (stepping_clock 1)
           (fresh_rotator [alice; set_cooldown_until 3%Q bob;
                           set_is_healthy false carol] 1)).
  - apply stepping_clock_monotone. lra.
  - vm_compute. reflexivity.
Defined.

(** X8.  [get_stats] prunes with the 60-second window only.  Under a
    clock that never runs backwards, the rate it reports for an account is
    the number of its timestamps within the 60 seconds before a reading
    made during the call, and every later [requests_in_window] read over a
    window of at most 60 seconds returns what it would have returned had
    [get_stats] not been called. *)
Theorem get_stats_keeps_minute_window (clock : nat -> Q) (s s' : State)
    (st : Stats.RotatorStats) (j : nat) (a : AccountState) :
  monotone clock ->
  Stats.get_stats clock s = Ok (st, s') ->
  accounts (rot s) !! j = Some a ->
  exists (a' : AccountState) (e : Stats.AccountStats) (k : nat),
    accounts (rot s') !! j = Some a' /\
    Stats.accounts st !! j = Some e /\
    (ticks s <= k < ticks s')%nat /\
    Stats.rpm_current e =
      successes_within 60%Q (clock k) (request_timestamps a) /\
    forall (w : Q) (k' : nat),
      (w <= 60)%Q -> (ticks s' <= k')%nat ->
      Account.requests_in_window clock w a' k' =
        Account.requests_in_window clock w a k'.
Proof.
  intros Hmono Hget Hj.
  destruct (get_stats_spec clock s)
    as (entries & s1 & Hrun & _ & _ & _ & _ & Hin).
  rewrite Hget in Hrun. injection Hrun as -> <-.
  destruct (Hin j a Hj) as (k & Hk & Hk' & He & Ha).
  pose proof (available_from_sound clock (accounts (rot s)) 0 (ticks s))
    as [Hticks _].
  rewrite account_stats_eq in *. cbn [fst snd] in *.
  set (k1 := if is_healthy a then S k else k) in *.
  assert (Hk1 : (k <= k1)%nat) by (unfold k1; destruct (is_healthy a); lia).
  do 2 eexists. exists k1. split; [exact Ha|]. split; [exact He|].
  split; [lia|]. split; [reflexivity|].
  intros w k' Hw Hk''. rewrite !requests_in_window_eq.
  cbn [request_timestamps set_request_timestamps].
  rewrite newer_than_nested; [reflexivity|].
  pose proof (Hmono k1 k' ltac:(lia)). lra.
Qed.

Lemma get_stats_keeps_minute_window_witness :
  let clock := stepping_clock 10 in
  let a := set_request_timestamps [5; 60; 95]%Q alice in
  let s := fresh_rotator [a] 10 in
  exists (st : Stats.RotatorStats) (s' : State),
    Stats.get_stats clock s = Ok (st, s') /\
    exists (a' : AccountState) (e : Stats.AccountStats) (k : nat),
      accounts (rot s') !! 0%nat = Some a' /\
      Stats.accounts st !! 0%nat = Some e /\
      (ticks s <= k < ticks s')%nat /\
      Stats.rpm_current e =
        successes_within 60%Q (clock k) (request_timestamps a) /\
      forall (w : Q) (k' : nat),
        (w <= 60)%Q -> (ticks s' <= k')%nat ->
        Account.requests_in_window clock w a' k' =
          Account.requests_in_window clock w a k'.
Proof.
  do 2 eexists. split; [vm_compute; reflexivity|].
  eapply (get_stats_keeps_minute_window (stepping_clock 10)
           (fresh_rotator [set_request_timestamps [5; 60; 95]%Q alice] 10)).
  - apply stepping_clock_monotone. lra.
  - vm_compute. reflexivity.
  - reflexivity.
Defined.

(** ** Replacing in strings *)

Lemma app_String (c : Ascii.ascii) (u v : string) :
  String c u +:+ v = String c (u +:+ v).
Proof. reflexivity. Qed.

Lemma app_empty_l (v : string) : "" +:+ v = v.
Proof. reflexivity. Qed.

Lemma app_assoc_string (u v w : string) : (u +:+ v) +:+ w = u +:+ v +:+ w.
Proof. induction u as [|c u IH]; [reflexivity|]. rewrite !app_String. now f_equal. Qed.

(** Replacing one character by another string. *)
Lemma replace_char_cons (c0 c : Ascii.ascii) (new s : string) :
  replace_from (String c0 "") new 0 (String c s) =
    if Ascii.eqb c0 c then new +:+ replace_from (String c0 "") new 0 s
    else String c (replace_from (String c0 "") new 0 s).
Proof.
  cbn [replace_from String.prefix String.length Nat.sub].
  destruct (Ascii.ascii_dec c0 c) as [->|Hne].
  - rewrite Ascii.eqb_refl. now destruct s.
  - apply Ascii.eqb_neq in Hne. now rewrite Hne.
Qed.

Lemma replace_char_app (c0 : Ascii.ascii) (new u v : string) :
  replace_from (String c0 "") new 0 (u +:+ v) =
    replace_from (String c0 "") new 0 u +:+ replace_from (String c0 "") new 0 v.
Proof.
  induction u as [|c u IH]; [reflexivity|].
  rewrite app_String, !replace_char_cons, IH.
  destruct (Ascii.eqb c0 c); [|reflexivity].
  now rewrite app_assoc_string.
Qed.

Lemma get_app_new (c0 : Ascii.ascii) (new s : string) :
  (forall i : nat, String.get i new <> Some c0) ->
  (forall i : nat, String.get i s <> Some c0) ->
  forall i : nat, String.get i (new +:+ s) <> Some c0.
Proof.
  intros Hnew Hs. induction new as [|c new IH]; [exact Hs|].
  intros [|i]; cbn.
  - apply (Hnew 0%nat).
  - apply IH. intros j. apply (Hnew (S j)).
Qed.

Lemma replace_char_absent (c0 : Ascii.ascii) (new s : string) :
  (forall i : nat, String.get i new <> Some c0) ->
  forall i : nat,
    String.get i (replace_from (String c0 "") new 0 s) <> Some c0.
Proof.
  intros Hnew. induction s as [|c s IH]; [intros [|i]; discriminate|].
  rewrite replace_char_cons. destruct (Ascii.eqb c0 c) eqn:E.
  - now apply get_app_new.
  - intros [|i]; cbn; [|apply IH]. apply Ascii.eqb_neq in E. congruence.
Qed.

(** The scan for ["_at_"]. *)
Lemma prefix_empty (s : string) : String.prefix "" s = true.
Proof. now destruct s. Qed.

Lemma prefix_at_tail (w v : string) :
  w <> "" ->
  String.prefix "_at_" (w +:+ "_") = false ->
  String.prefix "_at_" (w +:+ "_at_" +:+ v) = false.
Proof.
  intros Hne. destruct w as [|c1 w]; [congruence|]. clear Hne.
  rewrite !app_String. cbn [String.prefix].
  destruct (Ascii.ascii_dec _ c1); [|reflexivity].
  destruct w as [|c2 w]; [reflexivity|].
  rewrite !app_String. cbn [String.prefix].
  destruct (Ascii.ascii_dec _ c2); [|reflexivity].
  destruct w as [|c3 w]; [reflexivity|].
  rewrite !app_String. cbn [String.prefix].
  destruct (Ascii.ascii_dec _ c3); [|reflexivity].
  destruct w as [|c4 w]; [intros H; vm_compute in H; discriminate H|].
  rewrite !app_String. cbn [String.prefix].
  destruct (Ascii.ascii_dec _ c4); [|reflexivity].
  rewrite !prefix_empty. discriminate.
Qed.

Lemma replace_at_found (v : string) :
  replace_from "_at_" "@" 0 ("_at_" +:+ v) = "@" +:+ replace_from "_at_" "@" 0 v.
Proof.
  cbn. f_equal. now destruct v.
Qed.

Lemma replace_at_split (u v : string) :
  occurs "_at_" (u +:+ "_") = false ->
  replace_from "_at_" "@" 0 (u +:+ "_at_" +:+ v) =
    u +:+ "@" +:+ replace_from "_at_" "@" 0 v.
Proof.
  induction u as [|c u IH]; intros Hocc.
  - rewrite !app_empty_l. apply replace_at_found.
  - rewrite app_String in Hocc. cbn [occurs] in Hocc.
    apply orb_false_iff in Hocc as [Hp Hocc].
    pose proof (prefix_at_tail (String c u) v ltac:(discriminate) Hp) as Hpre.
    change (String c u +:+ "_at_" +:+ v)
      with (String c (u +:+ "_at_" +:+ v)) in *.
    change (String c u +:+ "@" +:+ replace_from "_at_" "@" 0 v)
      with (String c (u +:+ "@" +:+ replace_from "_at_" "@" 0 v)).
    cbn [replace_from]. rewrite Hpre. f_equal. now apply IH.
Qed.

Lemma replace_at_absent (s : string) :
  occurs "_at_" s = false -> replace_from "_at_" "@" 0 s = s.
Proof.
  induction s as [|c s IH]; intros Hocc; [reflexivity|].
  cbn [occurs] in Hocc. apply orb_false_iff in Hocc as [Hp Hocc].
  cbn [replace_from]. rewrite Hp. f_equal. now apply IH.
Qed.

(** ** E-mail addresses from file names *)

Lemma occurs_underscore_replaced (s : string) :
  occurs "_" (replace_from "_" "." 0 s) = false.
Proof.
  induction s as [|c s IH]; [reflexivity|].
  rewrite replace_char_cons. destruct (Ascii.eqb _ c) eqn:E.
  - cbv [String.append]. cbn [occurs String.prefix]. cbn. exact IH.
  - cbn [occurs String.prefix].
    destruct (Ascii.ascii_dec _ c) as [Heq|Hne].
    + apply Ascii.eqb_neq in E. congruence.
    + exact IH.
Qed.

Lemma replace_nonempty (c : Ascii.ascii) (old new s : string) :
  replace (String c old) new s = replace_from (String c old) new 0 s.
Proof. reflexivity. Qed.

(** X9.  The e-mail address derived from a file name never contains an
    underscore, whatever the name: every underscore left by the first
    replacement is turned into a dot by the second. *)
Theorem email_of_stem_has_no_underscore (stem : string) :
  occurs "_" (Construction.email_of_stem stem) = false.
Proof.
  unfold Construction.email_of_stem. rewrite (replace_nonempty _ "" ".").
  apply occurs_underscore_replaced.
Qed.

(** X10.  The naming convention [name_at_domain_ext] is decoded as meant:
    for a stem [local_at_domain] in which ["_at_"] occurs neither in
    [local] followed by an underscore nor in [domain], the address is
    [local], then ["@"], then [domain], with every underscore of both
    turned into a dot. *)
Theorem email_of_stem_decodes (local domain : string) :
  occurs "_at_" (local +:+ "_") = false ->
  occurs "_at_" domain = false ->
  Construction.email_of_stem (local +:+ "_at_" +:+ domain) =
    replace "_" "." local +:+ "@" +:+ replace "_" "." domain.
Proof.
  intros Hl Hd. unfold Construction.email_of_stem.
  rewrite !replace_nonempty, (replace_at_split _ _ Hl), (replace_at_absent _ Hd).
  rewrite !replace_char_app. reflexivity.
Qed.

Lemma email_of_stem_decodes_witness :
  Construction.email_of_stem ("john_doe" +:+ "_at_" +:+ "mail_example_com") =
    replace "_" "." "john_doe" +:+ "@" +:+ replace "_" "." "mail_example_com" /\
  replace "_" "." "john_doe" +:+ "@" +:+ replace "_" "." "mail_example_com" =
    "john.doe@mail.example.com".
Proof.
  split; [|reflexivity].
  apply (email_of_stem_decodes "john_doe" "mail_example_com"); reflexivity.
Defined.

(** ** Loading the pool *)

Lemma load_one_loaded_from (fs : Construction.FileSystem)
    (f : Construction.Path) (a : AccountState) :
  Construction.load_one fs f = Some a <-> loaded_from fs f a.
Proof.
  unfold Construction.load_one, loaded_from. split.
  - destruct (Construction.json_load fs (Construction.str f)) as [creds|];
      [|discriminate].
    destruct (truthy (dict_get "refresh_token" creds)) eqn:E; [|discriminate].
    intros [= <-]. exists creds. easy.
  - intros (creds & -> & -> & ->). reflexivity.
Qed.

Lemma length_omap_le {A B : Type} (f : A -> option B) (l : list A) :
  (length (omap f l) <= length l)%nat.
Proof.
  induction l as [|x l IH]; [reflexivity|]. cbn.
  destruct (f x); cbn; lia.
Qed.

Lemma load_accounts_eq (fs : Construction.FileSystem) (self : AccountRotator) :
  Construction._load_accounts fs self =
    if Construction.path_exists fs (credentials_dir self)
    then set_accounts
           (accounts self ++
            omap (Construction.load_one fs)
              (Construction.sorted
                 (Construction.glob_json fs (credentials_dir self)))) self
    else self.
Proof. reflexivity. Qed.

Lemma load_accounts_takes_the_usable_files_aux (fs : Construction.FileSystem)
    (self : AccountRotator) :
  let files := Construction.glob_json fs (credentials_dir self) in
  let self' := Construction._load_accounts fs self in
  credentials_dir self' = credentials_dir self /\
  max_rpm self' = max_rpm self /\
  min_gap_s self' = min_gap_s self /\
  _current_index self' = _current_index self /\
  exists loaded : list AccountState,
    accounts self' = accounts self ++ loaded /\
    (length loaded <= length files)%nat /\
    (Construction.path_exists fs (credentials_dir self) = false ->
     loaded = []) /\
    (forall a : AccountState, a ∈ loaded ->
       (exists f : Construction.Path, f ∈ files /\ loaded_from fs f a) /\
       request_timestamps a = [] /\ total_requests a = 0 /\
       total_errors a = 0 /\ is_healthy a = true /\
       cooldown_until a = 0%Q /\ consecutive_errors a = 0 /\
       last_error a = None) /\
    (Construction.path_exists fs (credentials_dir self) = true ->
     forall (f : Construction.Path) (a : AccountState),
       f ∈ files -> loaded_from fs f a -> a ∈ loaded).
Proof.
  cbv zeta. rewrite load_accounts_eq.
  destruct (Construction.path_exists fs (credentials_dir self)) eqn:Hex.
  - repeat (split; [reflexivity|]).
    eexists. split; [reflexivity|]. split.
    { etransitivity; [apply length_omap_le|].
      unfold Construction.sorted. now rewrite merge_sort_Permutation. }
    split; [discriminate|]. split.
    + intros a Ha. apply list_elem_of_omap in Ha as (f & Hf & Hload).
      unfold Construction.sorted in Hf. rewrite merge_sort_Permutation in Hf.
      apply load_one_loaded_from in Hload. split; [now exists f|].
      destruct Hload as (creds & _ & _ & ->). repeat split.
    + intros _ f a Hf Hload. apply list_elem_of_omap. exists f. split.
      * unfold Construction.sorted. now rewrite merge_sort_Permutation.
      * now apply load_one_loaded_from.
  - repeat (split; [reflexivity|]). exists []. rewrite app_nil_r.
    split; [reflexivity|]. split; [cbn; lia|]. split; [reflexivity|].
    split; [intros a Ha; inversion Ha | discriminate].
Qed.

(** X11.  [_load_accounts] changes nothing but [accounts], to which it
    appends at most one account per file listed.  A missing directory adds
    none.  Every account added comes from a listed file that could be
    opened and parsed and holds a non-empty refresh token, carries the
    path, the parsed credentials, the project id and the address derived
    from the stem of that file, and starts healthy, without cooldown,
    timestamps or errors; and every listed file of that kind is loaded. *)
Theorem load_accounts_takes_the_usable_files (fs : Construction.FileSystem)
    (self : AccountRotator) :
  let files := Construction.glob_json fs (credentials_dir self) in
  let self' := Construction._load_accounts fs self in
  credentials_dir self' = credentials_dir self /\
  max_rpm self' = max_rpm self /\
  min_gap_s self' = min_gap_s self /\
  _current_index self' = _current_index self /\
  exists loaded : list AccountState,
    accounts self' = accounts self ++ loaded /\
    (length loaded <= length files)%nat /\
    (Construction.path_exists fs (credentials_dir self) = false ->
     loaded = []) /\
    (forall a : AccountState, a ∈ loaded ->
       (exists f : Construction.Path, f ∈ files /\ loaded_from fs f a) /\
       request_timestamps a = [] /\ total_requests a = 0 /\
       total_errors a = 0 /\ is_healthy a = true /\
       cooldown_until a = 0%Q /\ consecutive_errors a = 0 /\
       last_error a = None) /\
    (Construction.path_exists fs (credentials_dir self) = true ->
     forall (f : Construction.Path) (a : AccountState),
       f ∈ files -> loaded_from fs f a -> a ∈ loaded).
Proof. apply load_accounts_takes_the_usable_files_aux. Qed.

#[local] Instance name_le_trans : Transitive Construction.name_le.
Proof. intros p q r. unfold Construction.name_le. apply transitivity. Qed.

#[local] Instance name_le_total : Total Construction.name_le.
Proof. intros p q. unfold Construction.name_le. apply total, _. Qed.

Lemma sorted_Permutation (l1 l2 : list Construction.Path) :
  (forall p q : Construction.Path,
     p ∈ l1 -> q ∈ l1 -> Construction.name p = Construction.name q -> p = q) ->
  l1 ≡ₚ l2 ->
  Construction.sorted l1 = Construction.sorted l2.
Proof.
  intros Hinj Hperm. unfold Construction.sorted.
  apply (StronglySorted_unique_strong Construction.name_le).
  - intros p q Hp Hq Hpq Hqp. rewrite merge_sort_Permutation in Hp, Hq.
    rewrite <- Hperm in Hq. apply Hinj; [assumption..|].
    unfold Construction.name_le in *. now apply (anti_symm String.le).
  - apply StronglySorted_merge_sort; apply _.
  - apply StronglySorted_merge_sort; apply _.
  - now rewrite !merge_sort_Permutation.
Qed.

(** X12.  The order of the pool is the order of the file names, not the
    order in which the file system lists them: when no two listed files
    share a name, listing the same files in another order gives the same
    rotator, whose accounts are those of the usable files taken in
    ascending order of name. *)
Theorem pool_order_is_the_order_of_file_names (fs : Construction.FileSystem)
    (listing : string -> list Construction.Path) (self : AccountRotator) :
  let dir := credentials_dir self in
  let fs' := Construction.mkFileSystem (Construction.path_exists fs) listing
               (Construction.json_load fs) in
  (forall p q : Construction.Path,
     p ∈ Construction.glob_json fs dir -> q ∈ Construction.glob_json fs dir ->
     Construction.name p = Construction.name q -> p = q) ->
  listing dir ≡ₚ Construction.glob_json fs dir ->
  Construction._load_accounts fs' self = Construction._load_accounts fs self /\
  exists files : list Construction.Path,
    files ≡ₚ Construction.glob_json fs dir /\
    StronglySorted Construction.name_le files /\
    (Construction.path_exists fs dir = true ->
     accounts (Construction._load_accounts fs self) =
       accounts self ++ omap (Construction.load_one fs) files).
Proof.
  cbv zeta. intros Hinj Hperm. split.
  - rewrite !load_accounts_eq. cbn [Construction.path_exists
      Construction.glob_json].
    rewrite (sorted_Permutation (listing (credentials_dir self))
               (Construction.glob_json fs (credentials_dir self))).
    + reflexivity.
    + intros p q Hp Hq. rewrite Hperm in Hp, Hq. now apply Hinj.
    + exact Hperm.
  - exists (Construction.sorted
              (Construction.glob_json fs (credentials_dir self))).
    split; [apply merge_sort_Permutation|]. split.
    + apply StronglySorted_merge_sort; apply _.
    + intros Hex. rewrite load_accounts_eq, Hex. reflexivity.
Qed.

Lemma pool_order_is_the_order_of_file_names_witness :
  let self := mkAccountRotator "./credentials" 10 2%Q [] 0 in
  let fs' := Construction.mkFileSystem (Construction.path_exists sample_fs)
               (fun _ => rev sample_listing)
               (Construction.json_load sample_fs) in
  Construction._load_accounts fs' self =
    Construction._load_accounts sample_fs self /\
  exists files : list Construction.Path,
    files ≡ₚ Construction.glob_json sample_fs "./credentials" /\
    StronglySorted Construction.name_le files /\
    (Construction.path_exists sample_fs "./credentials" = true ->
     accounts (Construction._load_accounts sample_fs self) =
       [] ++ omap (Construction.load_one sample_fs) files).
Proof.
  apply (pool_order_is_the_order_of_file_names sample_fs
           (fun _ => rev sample_listing)
           (mkAccountRotator "./credentials" 10 2%Q [] 0)).
  - intros p q Hp Hq. cbn in Hp, Hq.
    repeat (apply elem_of_cons in Hp as [->|Hp]);
      try (inversion Hp; fail);
      repeat (apply elem_of_cons in Hq as [->|Hq]);
      try (inversion Hq; fail); cbn; try reflexivity; discriminate.
  - change (rev sample_listing ≡ₚ sample_listing).
    symmetry. apply Permutation_rev.
Defined.

(** ** The constructor *)

Lemma init_eq (getenv : string -> option string)
    (fs : Construction.FileSystem) (int : string -> option Z)
    (d : option string) (m g : option Z) (r : AccountRotator) :
  Construction.__init__ getenv fs int d m g = Construction.Returned r ->
  exists (dir : string) (limit gap_ms : Z),
    Construction.or_int_env getenv int m "MAX_RPM_PER_ACCOUNT" "10" =
      Some limit /\
    Construction.or_int_env getenv int g "MIN_REQUEST_GAP_MS" "2000" =
      Some gap_ms /\
    r = Construction._load_accounts fs
          (mkAccountRotator dir limit (inject_Z gap_ms / 1000)%Q [] 0).
Proof.
  unfold Construction.__init__.
  destruct (Construction.or_int_env getenv int m _ _) as [limit|];
    [|discriminate].
  destruct (Construction.or_int_env getenv int g _ _) as [gap_ms|];
    [|discriminate].
  destruct (Construction.float_overflows gap_ms); [discriminate|].
  intros [= <-]. eexists _, limit, gap_ms. easy.
Qed.

Lemma init_accounts (getenv : string -> option string)
    (fs : Construction.FileSystem) (int : string -> option Z)
    (d : option string) (m g : option Z) (r : AccountRotator) :
  Construction.__init__ getenv fs int d m g = Construction.Returned r ->
  _current_index r = 0 /\
  forall a : AccountState, a ∈ accounts r ->
    exists f : Construction.Path,
      f ∈ Construction.glob_json fs (credentials_dir r) /\ loaded_from fs f a.
Proof.
  intros Hinit. apply init_eq in Hinit as (dir & limit & gap_ms & _ & _ & ->).
  destruct (load_accounts_takes_the_usable_files_aux fs
              (mkAccountRotator dir limit (inject_Z gap_ms / 1000)%Q [] 0))
    as (Hd & _ & _ & Hc & loaded & Hacc & _ & _ & Hsound & _).
  split; [exact Hc|]. intros a Ha. rewrite Hacc in Ha. cbn in Ha.
  rewrite Hd. cbn [credentials_dir]. cbn [credentials_dir] in Hsound.
  destruct (Hsound a Ha) as [Hf _]. exact Hf.
Qed.

Lemma set_accounts_id (r : AccountRotator) : set_accounts (accounts r) r = r.
Proof. now destruct r. Qed.

Lemma set_credentials_id (a : AccountState) :
  set_credentials (credentials a) a = a.
Proof. now destruct a. Qed.

Lemma map_id_Forall {A : Type} (f : A -> A) (l : list A) :
  Forall (fun x => f x = x) l -> map f l = l.
Proof.
  induction 1 as [|x l Hx _ IH]; [reflexivity|]. cbn. now rewrite Hx, IH.
Qed.

(** X13.  Loading and reloading round-trip: on a rotator just built,
    [reload_credentials] run against the same files returns normally and
    leaves the rotator as it is. *)
Theorem reload_after_construction_changes_nothing
    (getenv : string -> option string) (fs : Construction.FileSystem)
    (int : string -> option Z) (credentials_dir : option string)
    (max_rpm_per_account min_request_gap_ms : option Z)
    (r : AccountRotator) (k : nat) :
  Construction.__init__ getenv fs int credentials_dir max_rpm_per_account
    min_request_gap_ms = Construction.Returned r ->
  Rotator.reload_credentials (Construction.json_load fs) (mkState r k) =
    Ok (tt, mkState r k).
Proof.
  intros Hinit. destruct (init_accounts _ _ _ _ _ _ _ Hinit) as [_ Hacc].
  unfold Rotator.reload_credentials. cbn [rot ticks].
  rewrite map_id_Forall; [now rewrite set_accounts_id|].
  apply Forall_forall. intros a Ha.
  destruct (Hacc a Ha) as (f & _ & creds & Hload & _ & ->).
  unfold reload_one. cbn [credential_path Account.new]. rewrite Hload.
  reflexivity.
Qed.

Lemma reload_after_construction_changes_nothing_witness :
  exists r : AccountRotator,
    Construction.__init__ sample_getenv sample_fs sample_int None None None =
      Construction.Returned r /\
    length (accounts r) = 2%nat /\
    Rotator.reload_credentials (Construction.json_load sample_fs)
      (mkState r 0) = Ok (tt, mkState r 0).
Proof.
  eexists. split; [vm_compute; reflexivity|]. split; [reflexivity|].
  eapply (reload_after_construction_changes_nothing sample_getenv sample_fs
            sample_int None None None).
  vm_compute. reflexivity.
Defined.

(** X15.  On a rotator just built, with at least one account loaded and a
    positive limit, under a clock that never runs backwards and reads a
    positive instant, the first [get_next_account] returns the first
    account of the pool, moves the cursor to [1 mod len(accounts)] and
    reads the clock once per account and twice more. *)
Theorem first_selection_after_construction (clock : nat -> Q)
    (getenv : string -> option string) (fs : Construction.FileSystem)
    (int : string -> option Z) (credentials_dir : option string)
    (max_rpm_per_account min_request_gap_ms : option Z)
    (r : AccountRotator) (k : nat) :
  Construction.__init__ getenv fs int credentials_dir max_rpm_per_account
    min_request_gap_ms = Construction.Returned r ->
  accounts r <> [] ->
  0 < max_rpm r ->
  monotone clock ->
  (0 < clock k)%Q ->
  exists s' : State,
    get_next_account clock (mkState r k) = Ok (Some 0%nat, s') /\
    _current_index (rot s') = 1 mod len (accounts r) /\
    (ticks s' = k + length (accounts r) + 2)%nat.
Proof.
  intros Hinit Hne Hmax Hmono Hpos.
  destruct (init_accounts _ _ _ _ _ _ _ Hinit) as [Hcur Hacc].
  assert (Hfresh : forall (j : nat) (a : AccountState),
             accounts r !! j = Some a ->
             is_healthy a = true /\ cooldown_until a = 0%Q /\
             request_timestamps a = []).
  { intros j a Hj. destruct (Hacc a) as (f & _ & creds & _ & _ & ->).
    - eapply list_elem_of_lookup_2, Hj.
    - repeat split. }
  destruct (accounts r) as [|a0 l] eqn:El; [congruence|].
  destruct (Hfresh 0%nat a0 eq_refl) as (Hh0 & Hc0 & Ht0).
  pose proof (get_next_account_head clock (mkState r k) a0 Hmono) as Hhead.
  cbv zeta in Hhead. cbn [rot ticks] in Hhead. rewrite Hcur, El in Hhead.
  cbn [length] in Hhead. rewrite Z.mod_0_l in Hhead by lia.
  rewrite Hhead.
  - eexists. split; [reflexivity|]. cbn [examined_state rot _current_index
      ticks]. rewrite Hcur. unfold len. cbn [length]. split; [reflexivity|].
    rewrite examined_passed.
    + cbn. lia.
    + apply examined_no_timestamps; assumption.
  - intros j b Hj. cbn [rot ticks] in *. rewrite El in Hj.
    destruct (Hfresh j b Hj) as (Hh & Hc & _). split; [exact Hh|].
    rewrite Hc. exact Hpos.
  - reflexivity.
  - apply examined_no_timestamps; assumption.
Qed.

Lemma first_selection_after_construction_witness :
  exists (r : AccountRotator) (s' : State),
    Construction.__init__ sample_getenv sample_fs sample_int None None None =
      Construction.Returned r /\
    get_next_account (stepping_clock 1) (mkState r 1) = Ok (Some 0%nat, s') /\
    _current_index (rot s') = 1 mod len (accounts r) /\
    (ticks s' = 1 + length (accounts r) + 2)%nat.
Proof.
  eexists. 
  assert (H : Construction.__init__ sample_getenv sample_fs sample_int
                None None None = Construction.Returned _)
    by (vm_compute; reflexivity).
  destruct (first_selection_after_construction (stepping_clock 1)
              sample_getenv sample_fs sample_int None None None _ 1 H)
    as (s' & Hsel).
  - discriminate.
  - reflexivity.
  - apply stepping_clock_monotone. lra.
  - reflexivity.
  - exists s'. split; [exact H | exact Hsel].
Defined.

(** * Properties of the client *)

(** ** Sequencing *)

Lemma returns_ret {World A : Type} (x : A)
    (Q : A -> Client.Session World -> Prop) (ss : Client.Session World) :
  Q x ss -> returns (mret x) Q ss.
Proof. intros H. exists x, ss. split; [reflexivity | exact H]. Qed.

Lemma returns_bind {World A B : Type} (m : Client.S World A)
    (f : A -> Client.S World B) (Q : B -> Client.Session World -> Prop)
    (ss : Client.Session World) :
  returns m (fun x ss' => returns (f x) Q ss') ss -> returns (m ≫= f) Q ss.
Proof.
  intros (x & ss1 & Hm & y & ss2 & Hf & HQ). exists y, ss2.
  split; [|exact HQ]. unfold mbind, Client.S_bind. now rewrite Hm.
Qed.

Lemma returns_mono {World A : Type} (m : Client.S World A)
    (Q Q' : A -> Client.Session World -> Prop) (ss : Client.Session World) :
  (forall (x : A) (ss' : Client.Session World), Q x ss' -> Q' x ss') ->
  returns m Q ss -> returns m Q' ss.
Proof. intros HQ (x & ss' & Hm & H). exists x, ss'. auto. Qed.

Lemma returns_on_rotator {World A : Type} (m : M A) (x : A) (st : State)
    (Q : A -> Client.Session World -> Prop) (ss : Client.Session World) :
  m (Client.rotator ss) = Ok (x, st) ->
  Q x (Client.mkSession st (Client._onboarded_accounts ss) (Client.world ss)) ->
  returns (Client.on_rotator m) Q ss.
Proof.
  intros Hm HQ. eexists _, _. split; [|exact HQ].
  unfold Client.on_rotator. now rewrite Hm.
Qed.

Lemma returns_ask {World A : Type} (f : World -> A * World)
    (Q : A -> Client.Session World -> Prop) (ss : Client.Session World) :
  Q (f (Client.world ss)).1
    (Client.mkSession (Client.rotator ss) (Client._onboarded_accounts ss)
       (f (Client.world ss)).2) ->
  returns (Client.ask f) Q ss.
Proof.
  intros HQ. eexists _, _. split; [|exact HQ].
  unfold Client.ask. now destruct (f (Client.world ss)).
Qed.

(** ** Steps on the account selected *)

Lemma newer_than_nil (c : Q) : newer_than c [] = [].
Proof. reflexivity. Qed.

Lemma ready_window (clock : nat -> Q) (h : nat) (w : Q) (st : State) :
  ready h st ->
  exists (x : Z) (st' : State),
    call h (Account.requests_in_window clock w) st = Ok (x, st') /\
    ready h st'.
Proof.
  intros (a & Ha & Hts).
  destruct (call_spec h (Account.requests_in_window clock w) st a Ha)
    as (st' & Hcall & Ha' & _).
  eexists _, st'. split; [exact Hcall|]. eexists. split; [exact Ha'|].
  rewrite requests_in_window_eq. cbn. now rewrite Hts.
Qed.

Lemma ready_record_error (clock : nat -> Q) (h : nat) (status_code : Z)
    (error_msg : string) (st : State) :
  ready h st ->
  exists st' : State,
    Rotator.record_error clock h status_code error_msg st = Ok (tt, st') /\
    ready h st'.
Proof.
  intros (a & Ha & Hts).
  destruct (record_error_spec clock st h a status_code error_msg Ha)
    as (st' & Herr & Ha' & _).
  exists st'. split; [exact Herr|]. eexists. split; [exact Ha'|].
  destruct (after_error_fields clock (status_code, error_msg) (ticks st) a)
    as (-> & _). exact Hts.
Qed.

Lemma ready_record_success (clock : nat -> Q) (h : nat) (st : State) :
  ready h st ->
  exists st' : State, record_success clock h st = Ok (tt, st').
Proof.
  intros (a & Ha & _).
  destruct (record_success_spec clock st h a Ha) as (st' & Hok & _).
  now exists st'.
Qed.

Lemma ready_selected (clock : nat -> Q) (st : State) :
  exists (r : option nat) (st' : State),
    get_next_account clock st = Ok (r, st') /\
    forall h : nat, r = Some h -> ready h st'.
Proof.
  destruct (get_next_account_frame clock st) as (r & st' & Hrun & _ & _ & Hres).
  exists r, st'. split; [exact Hrun|]. intros h Hh.
  destruct (Hres h Hh) as (_ & _ & _ & a' & Ha' & Hts). now exists a'.
Qed.

Lemma list_insert_same {A : Type} (l : list A) (i : nat) (x : A) :
  l !! i = Some x -> <[i := x]> l = l.
Proof.
  revert i. induction l as [|y l IH]; intros [|i] H; cbn in *;
    try discriminate.
  - now injection H as ->.
  - f_equal. now apply IH.
Qed.

Lemma getattr_eq {World A : Type} (h : nat) (f : AccountState -> A)
    (a : AccountState) (ss : Client.Session World) :
  accounts (rot (Client.rotator ss)) !! h = Some a ->
  Client.getattr h f ss = Ok (f a, ss).
Proof.
  intros Ha. unfold Client.getattr, Client.on_rotator.
  rewrite (call_ok _ _ _ _ Ha). cbn.
  rewrite (list_insert_same _ _ _ Ha), set_accounts_id, state_eta.
  now destruct ss.
Qed.

Lemma setitem_credentials_eq {World : Type} (h : nat) (key v : string)
    (a : AccountState) (ss : Client.Session World) :
  accounts (rot (Client.rotator ss)) !! h = Some a ->
  Client.setitem_credentials h key v ss =
    Ok (tt,
        Client.mkSession
          (mkState
             (set_accounts
                (<[h := set_credentials (dict_set key v (credentials a)) a]>
                   (accounts (rot (Client.rotator ss))))
                (rot (Client.rotator ss)))
             (ticks (Client.rotator ss)))
          (Client._onboarded_accounts ss) (Client.world ss)).
Proof.
  intros Ha. unfold Client.setitem_credentials, Client.on_rotator.
  now rewrite (call_ok _ _ _ _ Ha).
Qed.

(** ** The two helpers of a request *)

Section Helpers.

Context (clock : nat -> Q) {World datetime : Type}
  (from_authorized_user_info : dict -> option (Client.Credentials datetime))
  (expired : World -> Client.Credentials datetime -> bool)
  (refresh : World -> Client.Credentials datetime ->
             option (string * option datetime) * World)
  (isoformat_utc : datetime -> string)
  (post : World -> Client.Request -> Client.posted * World)
  (CODE_ASSIST_ENDPOINT get_user_agent : string)
  (get_client_metadata : string -> json).

Let get_credentials :=
  Client._get_google_credentials World datetime from_authorized_user_info
    expired refresh isoformat_utc.
Let ensure_onboarded :=
  Client._ensure_onboarded World datetime post CODE_ASSIST_ENDPOINT
    get_user_agent get_client_metadata.

Lemma session_eta (ss : Client.Session World) :
  Client.mkSession (Client.rotator ss) (Client._onboarded_accounts ss)
    (Client.world ss) = ss.
Proof. now destruct ss. Qed.

Lemma get_google_credentials_eq (h : nat) (a : AccountState)
    (ss : Client.Session World) :
  accounts (rot (Client.rotator ss)) !! h = Some a ->
  get_credentials h ss =
    match from_authorized_user_info (credentials a) with
    | None => Ok (None, ss)
    | Some c =>
        if expired (Client.world ss) c
           && Client.truthy_attr (Client.refresh_token c)
        then
          match refresh (Client.world ss) c with
          | (None, w') =>
              Ok (None,
                  Client.mkSession (Client.rotator ss)
                    (Client._onboarded_accounts ss) w')
          | (Some (access_token, new_expiry), w') =>
              let d1 := dict_set "token" access_token (credentials a) in
              let d2 := match new_expiry with
                        | Some e => dict_set "expiry" (isoformat_utc e) d1
                        | None => d1
                        end in
              Ok (Some (Client.mkCredentials (Some access_token)
                          (Client.refresh_token c) new_expiry),
                  Client.mkSession
                    (mkState
                       (set_accounts
                          (<[h := set_credentials d2 a]>
                             (accounts (rot (Client.rotator ss))))
                          (rot (Client.rotator ss)))
                       (ticks (Client.rotator ss)))
                    (Client._onboarded_accounts ss) w')
          end
        else if negb (Client.truthy_attr (Client.token c)) then Ok (None, ss)
        else Ok (Some c, ss)
    end.
Proof.
  intros Ha. unfold get_credentials, Client._get_google_credentials.
  unfold mbind at 1, Client.S_bind at 1. rewrite (getattr_eq h _ a ss Ha).
  destruct (from_authorized_user_info (credentials a)) as [c|]; [|reflexivity].
  unfold mbind at 1, Client.S_bind at 1, Client.ask at 1. cbn [fst snd].
  rewrite session_eta.
  destruct (expired (Client.world ss) c
            && Client.truthy_attr (Client.refresh_token c)).
  - unfold mbind at 1, Client.S_bind at 1, Client.ask at 1.
    destruct (refresh (Client.world ss) c) as [[[tok e]|] w']; [|reflexivity].
    cbv zeta. unfold mbind at 1, Client.S_bind at 1.
    erewrite setitem_credentials_eq by exact Ha.
    destruct e as [e|]; [|reflexivity].
    unfold mbind at 1, Client.S_bind at 1.
    erewrite setitem_credentials_eq.
    2:{ cbn. apply list_lookup_insert_eq. eapply lookup_lt_Some, Ha. }
    cbn. rewrite list_insert_insert_eq. reflexivity.
  - now destruct (negb (Client.truthy_attr (Client.token c))).
Qed.

Lemma ensure_onboarded_spec (c : Client.Credentials datetime)
    (project_id account_email : string) (ss : Client.Session World) :
  exists (b : bool) (w' : World),
    ensure_onboarded c project_id account_email ss =
      Ok (b, Client.mkSession (Client.rotator ss)
               (if b then {[account_email]} ∪ Client._onboarded_accounts ss
                else Client._onboarded_accounts ss) w') /\
    (account_email ∈ Client._onboarded_accounts ss ->
     b = true /\ w' = Client.world ss).
Proof.
  unfold ensure_onboarded, Client._ensure_onboarded.
  destruct (decide (account_email ∈ Client._onboarded_accounts ss)) as [Hin|Hin].
  { exists true, (Client.world ss). split; [|easy].
    rewrite subseteq_union_1_L by (apply singleton_subseteq_l, Hin).
    now rewrite session_eta. }
  unfold mbind, Client.S_bind, Client.ask, Client.add_onboarded, mret,
    Client.S_ret.
  cbn [Client.rotator Client._onboarded_accounts Client.world].
  repeat
    match goal with
    | |- context [let '(_, _) := ?p in _] => destruct p
    | |- context [match ?x with _ => _ end] =>
        lazymatch x with
        | context [match _ with _ => _ end] => fail
        | _ => destruct x eqn:?
        end
    end;
    try (eexists false, _; split; [reflexivity | intros; contradiction]);
    try (eexists true, _; split; [reflexivity | intros; contradiction]).
Qed.

End Helpers.

(** ** A request, step by step *)

Section Requests.

Context (clock : nat -> Q) {World datetime : Type}
  (from_authorized_user_info : dict -> option (Client.Credentials datetime))
  (expired : World -> Client.Credentials datetime -> bool)
  (refresh : World -> Client.Credentials datetime ->
             option (string * option datetime) * World)
  (isoformat_utc : datetime -> string)
  (post : World -> Client.Request -> Client.posted * World)
  (json_loads : string -> option json)
  (type_error_message : json -> string)
  (send_gemini_request :
     World -> list (string * json) -> bool -> Client.Response * World)
  (CODE_ASSIST_ENDPOINT get_user_agent : string)
  (get_client_metadata : string -> json).

Let get_credentials :=
  Client._get_google_credentials World datetime from_authorized_user_info
    expired refresh isoformat_utc.
Let ensure_onboarded :=
  Client._ensure_onboarded World datetime post CODE_ASSIST_ENDPOINT
    get_user_agent get_client_metadata.
Let route :=
  Client.route clock World datetime from_authorized_user_info expired refresh
    isoformat_utc post json_loads type_error_message send_gemini_request
    CODE_ASSIST_ENDPOINT get_user_agent get_client_metadata.

Lemma get_credentials_keeps (R : State -> State -> Prop) (h : nat)
    (ss : Client.Session World) :
  kept_by_requests clock R ->
  ready h (Client.rotator ss) ->
  returns (get_credentials h)
    (fun _ ss' =>
       R (Client.rotator ss) (Client.rotator ss') /\
       ready h (Client.rotator ss') /\
       Client._onboarded_accounts ss' = Client._onboarded_accounts ss) ss.
Proof.
  intros (Hrefl & Htrans & _ & _ & _ & _ & Hset) (a & Ha & Hts).
  unfold returns. unfold get_credentials.
  rewrite (get_google_credentials_eq _ _ _ _ _ _ _ Ha).
  assert (Hsame : R (Client.rotator ss) (Client.rotator ss) /\
                  ready h (Client.rotator ss) /\
                  Client._onboarded_accounts ss = Client._onboarded_accounts ss).
  { split; [apply Hrefl|]. split; [now exists a | reflexivity]. }
  destruct (from_authorized_user_info (credentials a)) as [c|];
    [|eexists _, _; split; [reflexivity | exact Hsame]].
  destruct (expired (Client.world ss) c
            && Client.truthy_attr (Client.refresh_token c)).
  2:{ destruct (negb (Client.truthy_attr (Client.token c)));
        (eexists _, _; split; [reflexivity | exact Hsame]). }
  destruct (refresh (Client.world ss) c) as [[[tok e]|] w'].
  2:{ eexists _, _. split; [reflexivity|]. cbn. split; [apply Hrefl|].
      split; [now exists a | reflexivity]. }
  cbv zeta. eexists _, _. split; [reflexivity|].
  cbn [Client.rotator Client._onboarded_accounts]. 
  pose proof (lookup_lt_Some _ _ _ Ha) as Hlt.
  split; [|split; [|reflexivity]].
  - pose proof (Hset (Client.rotator ss) h a "token" tok Ha
                  ltac:(discriminate)) as H1.
    destruct e as [e|]; [|exact H1].
    eapply Htrans; [exact H1|].
    set (a1 := set_credentials (dict_set "token" tok (credentials a)) a).
    set (st1 := mkState
                  (set_accounts (<[h := a1]> (accounts (rot (Client.rotator ss))))
                     (rot (Client.rotator ss)))
                  (ticks (Client.rotator ss))).
    assert (Ha1 : accounts (rot st1) !! h = Some a1)
      by (cbn; apply list_lookup_insert_eq, Hlt).
    pose proof (Hset st1 h a1 "expiry" (isoformat_utc e) Ha1
                  ltac:(discriminate)) as H2.
    cbn in H2. rewrite list_insert_insert_eq in H2. exact H2.
  - eexists. split; [cbn; apply list_lookup_insert_eq, Hlt|]. exact Hts.
Qed.

Lemma route_keeps (R : State -> State -> Prop)
    (payload : list (string * json)) (is_streaming : bool)
    (ss : Client.Session World) :
  kept_by_requests clock R ->
  returns (route payload is_streaming)
    (fun _ ss' =>
       R (Client.rotator ss) (Client.rotator ss') /\
       Client._onboarded_accounts ss ⊆ Client._onboarded_accounts ss') ss.
Proof.
  intros HR. pose proof HR as (Hrefl & Htrans & Hsel & Hwin & Herr & Hok & _).
  unfold route, Client.route.
  apply returns_bind. eapply returns_on_rotator; [reflexivity|].
  rewrite session_eta.
  destruct (accounts (rot (Client.rotator ss))) as [|a0 pool] eqn:Hpool.
  { apply returns_ask. cbn. split; [apply Hrefl | reflexivity]. }
  clear Hpool a0 pool.
  (* first selection *)
  apply returns_bind.
  destruct (ready_selected clock (Client.rotator ss)) as (r & st1 & Hsel1 & Hr1).
  eapply returns_on_rotator; [exact Hsel1|].
  pose proof (Hsel _ _ _ Hsel1) as R1.
  destruct r as [h|]; [|apply returns_ret; cbn; split; [exact R1 | reflexivity]].
  specialize (Hr1 h eq_refl).
  (* the log line *)
  apply returns_bind.
  destruct (ready_window clock h 60%Q st1 Hr1) as (x & st2 & Hcall & Hr2).
  eapply returns_on_rotator; [exact Hcall|].
  cbn [Client.rotator Client._onboarded_accounts Client.world].
  pose proof (Htrans _ _ _ R1 (Hwin _ _ _ _ _ Hcall)) as R2.
  clear R1 Hr1 Hcall Hsel1 x.
  set (ss2 := Client.mkSession st2 _ _).
  assert (O2 : Client._onboarded_accounts ss ⊆ Client._onboarded_accounts ss2)
    by reflexivity.
  change st2 with (Client.rotator ss2) in R2, Hr2.
  clearbody ss2. clear st1 st2.
  apply returns_bind.
  eapply returns_mono; [|apply (get_credentials_keeps R h ss2 HR Hr2)].
  intros creds ss3 (R3 & Hr3 & O3). cbv beta.
  apply returns_bind.
  match goal with
  | |- returns _ (fun x ss1 => returns (@?K x) ?Q ss1) _ =>
      assert (HK : forall (account : nat)
                     (oc : option (Client.Credentials datetime))
                     (ssc : Client.Session World),
                 (oc <> None -> ready account (Client.rotator ssc)) ->
                 R (Client.rotator ss) (Client.rotator ssc) ->
                 Client._onboarded_accounts ss
                   ⊆ Client._onboarded_accounts ssc ->
                 returns (K (account, oc)) Q ssc)
  end.
  { clear dependent ss2. clear dependent ss3. clear h creds.
    intros account oc ssc Hrc Rc Oc. cbv beta iota.
    destruct oc as [c|]; [|apply returns_ret; split; assumption].
    specialize (Hrc ltac:(discriminate)).
    pose proof Hrc as (a & Ha & Hts).
    apply returns_bind. exists (project_id a), ssc.
    split; [apply getattr_eq, Ha|].
    apply returns_bind. exists (email a), ssc.
    split; [apply getattr_eq, Ha|].
    apply returns_bind.
    destruct (ensure_onboarded_spec post CODE_ASSIST_ENDPOINT get_user_agent
                get_client_metadata c (project_id a) (email a) ssc)
      as (b & w' & Heo & _).
    eexists b, _. split; [exact Heo|].
    assert (Ob : Client._onboarded_accounts ss ⊆
                 (if b then {[email a]} ∪ Client._onboarded_accounts ssc
                  else Client._onboarded_accounts ssc)).
    { destruct b; [|exact Oc]. etransitivity; [exact Oc|].
      apply union_subseteq_r. }
    destruct b.
    - apply returns_bind. apply returns_ask.
      cbn [Client.rotator Client._onboarded_accounts Client.world].
      match goal with |- context [post w' ?req] => destruct (post w' req) as [[resp|e] w''] end;
        cbn [fst snd].
      + apply returns_bind.
        destruct (Client.status_code resp =? 200).
        * destruct (ready_record_success clock account _ Hrc) as (st' & Hs).
          eapply returns_on_rotator; [exact Hs|]. apply returns_ret.
          cbn. split; [|exact Ob].
          eapply Htrans; [exact Rc|]. eapply Hok; eassumption.
        * destruct (ready_record_error clock account (Client.status_code resp)
                      ("HTTP " +:+ pretty (Client.status_code resp)) _ Hrc)
            as (st' & He & _).
          eapply returns_on_rotator; [exact He|]. apply returns_ret.
          cbn. split; [|exact Ob].
          eapply Htrans; [exact Rc|]. eapply Herr; eassumption.
      + apply returns_bind.
        destruct (ready_record_error clock account 502 e _ Hrc)
          as (st' & He & _).
        eapply returns_on_rotator; [exact He|]. apply returns_ret.
        cbn. split; [|exact Ob].
        eapply Htrans; [exact Rc|]. eapply Herr; eassumption.
    - apply returns_bind.
      destruct (ready_record_error clock account 403 "Onboarding failed" _ Hrc)
        as (st' & He & (a' & Ha' & _)).
      eapply returns_on_rotator; [exact He|].
      apply returns_bind. eexists (email a'), _.
      split; [apply getattr_eq; exact Ha'|]. apply returns_ret.
      cbn. split; [|exact Ob].
      eapply Htrans; [exact Rc|]. eapply Herr; eassumption. }
  assert (R3' : R (Client.rotator ss) (Client.rotator ss3))
    by (eapply Htrans; eassumption).
  assert (O3' : Client._onboarded_accounts ss ⊆ Client._onboarded_accounts ss3)
    by (rewrite O3; exact O2).
  destruct creds as [c|]; [apply returns_ret; apply (HK h (Some c) ss3); auto|].
  apply returns_bind.
  destruct (ready_record_error clock h 500 "Failed to get credentials" _ Hr3)
    as (st4 & He4 & Hr4).
  eapply returns_on_rotator; [exact He4|].
  apply returns_bind.
  destruct (ready_selected clock st4) as (r2 & st5 & Hsel5 & Hr5).
  eapply returns_on_rotator; [exact Hsel5|].
  cbn [Client.rotator Client._onboarded_accounts Client.world].
  assert (R5 : R (Client.rotator ss) st5).
  { eapply Htrans; [exact R3'|]. eapply Htrans; [eapply Herr, He4|].
    eapply Hsel, Hsel5. }
  destruct r2 as [h2|].
  - specialize (Hr5 h2 eq_refl). apply returns_bind.
    eapply returns_mono;
      [|apply (get_credentials_keeps R h2 (Client.mkSession st5 _ _) HR Hr5)].
    intros creds2 ss6 (R6 & Hr6 & O6). apply returns_ret.
    apply (HK h2 creds2 ss6).
    + intros _. exact Hr6.
    + eapply Htrans; [exact R5 | exact R6].
    + rewrite O6. exact O3'.
  - apply returns_ret.
    apply (HK h None (Client.mkSession st5 (Client._onboarded_accounts ss3)
                        (Client.world ss3))).
    + intros Hf. now contradiction Hf.
    + exact R5.
    + exact O3'.
Qed.

End Requests.

(** ** Relations that requests stay inside *)

Lemma dict_get_set_ne (key key' v : string) (d : dict) :
  key <> key' -> dict_get key' (dict_set key v d) = dict_get key' d.
Proof.
  intros Hne. induction d as [|[k v0] d IH]; cbn.
  - destruct (String.eqb_spec key key'); [congruence | reflexivity].
  - destruct (String.eqb_spec k key) as [->|Hk]; cbn.
    + destruct (String.eqb_spec key key'); [congruence | reflexivity].
    + destruct (String.eqb_spec k key'); [reflexivity | exact IH].
Qed.

Lemma dict_get_set_eq (key v : string) (d : dict) :
  dict_get key (dict_set key v d) = Some v.
Proof.
  induction d as [|[k v0] d IH]; cbn.
  - now rewrite String.eqb_refl.
  - destruct (String.eqb_spec k key) as [->|Hk]; cbn.
    + now rewrite String.eqb_refl.
    + destruct (String.eqb_spec k key); [congruence | exact IH].
Qed.

Lemma same_pool_refl (st : State) : same_pool st st.
Proof.
  repeat split; try lia. intros j a Hj. exists a. repeat split; try lia.
  - exact Hj.
  - easy.
Qed.

Lemma same_pool_trans (st1 st2 st3 : State) :
  same_pool st1 st2 -> same_pool st2 st3 -> same_pool st1 st3.
Proof.
  intros (L1 & A1 & B1 & T1 & P1) (L2 & A2 & B2 & T2 & P2).
  repeat split; try congruence; try lia.
  intros j a Hj.
  destruct (P1 j a Hj) as (a1 & Hj1 & E1 & C1 & I1 & F1 & Q1 & X1 & H1).
  destruct (P2 j a1 Hj1) as (a2 & Hj2 & E2 & C2 & I2 & F2 & Q2 & X2 & H2).
  exists a2. repeat split; try congruence; try lia. auto.
Qed.

(** A method call that keeps the identity of the object. *)
Lemma same_pool_call {A : Type} (h : nat)
    (method : AccountState -> Clock (A * AccountState)) (st st' : State)
    (x : A) :
  (forall (a : AccountState) (k : nat),
     let r := method a k in
     (k <= r.2)%nat /\
     email r.1.2 = email a /\ credential_path r.1.2 = credential_path a /\
     project_id r.1.2 = project_id a /\ credentials r.1.2 = credentials a /\
     total_requests a <= total_requests r.1.2 /\
     total_errors a <= total_errors r.1.2 /\
     (is_healthy a = false -> is_healthy r.1.2 = false)) ->
  call h method st = Ok (x, st') -> same_pool st st'.
Proof.
  intros Hm Hcall.
  apply call_inv in Hcall as (a & Ha & _ & Ha' & Ht & (Hl & Ho & Hmax & Hgap & _)).
  destruct (Hm a (ticks st)) as (Hk & E & C & I & D & Q & X & H).
  split; [exact Hl|]. split; [exact Hmax|]. split; [exact Hgap|].
  split; [lia|]. intros j b Hj. destruct (decide (j = h)) as [->|Hne].
  - rewrite Ha in Hj. injection Hj as <-. eexists. split; [exact Ha'|].
    rewrite D. repeat split; assumption.
  - rewrite (Ho j Hne). exists b. repeat split; try lia; try easy.
Qed.

Lemma same_pool_pruned (st st' : State) : pruned_state st st' -> same_pool st st'.
Proof.
  intros (Hl & Hmax & Hgap & Ht & Hobj).
  repeat split; try assumption. intros j a Hj.
  destruct (Hobj j a Hj) as (ts & Hj'). eexists. split; [exact Hj'|].
  cbn. repeat split; try lia. easy.
Qed.

Lemma same_pool_kept (clock : nat -> Q) : kept_by_requests clock same_pool.
Proof.
  split; [apply same_pool_refl|]. split; [apply same_pool_trans|].
  split; [|split; [|split; [|split]]].
  - intros st st' r Hsel.
    destruct (get_next_account_frame clock st) as (r' & st1 & Hrun & Hpr & _).
    rewrite Hsel in Hrun. injection Hrun as <- <-.
    now apply same_pool_pruned.
  - intros st st' h w x. apply same_pool_call. intros a k.
    rewrite requests_in_window_eq. cbn. repeat split; try lia. easy.
  - intros st st' h status_code error_msg. unfold Rotator.record_error.
    apply same_pool_call. intros a k. cbv zeta.
    unfold Account.record_error.
    destruct ((status_code =? 429) || (status_code =? 503));
      [|destruct (5 <=? _)];
      unfold mbind, Clock_bind, time_time, mret, Clock_ret;
      cbn -[Z.le Z.add]; repeat split; try lia; try easy.
  - intros st st' h _. unfold record_success. apply same_pool_call.
    intros a k. rewrite record_request_eq. cbn. repeat split; try lia. easy.
  - intros st h a key v Ha Hkey. pose proof (lookup_lt_Some _ _ _ Ha) as Hlt.
    split; [cbn; apply length_insert|]. split; [reflexivity|].
    split; [reflexivity|]. split; [cbn; lia|].
    intros j b Hj. cbn. destruct (decide (j = h)) as [->|Hne].
    + rewrite Ha in Hj. injection Hj as <-.
      rewrite list_lookup_insert_eq by exact Hlt. eexists. split; [reflexivity|].
      cbn. rewrite dict_get_set_ne by exact Hkey. repeat split; try lia. easy.
    + rewrite list_lookup_insert_ne by congruence. exists b.
      repeat split; try lia; try easy.
Qed.

(** A predicate on the accounts of the pool, as a relation between
    states. *)
Lemma Forall_kept (clock : nat -> Q) (P : AccountState -> Prop) :
  kept_by_reads clock P ->
  (forall (a : AccountState) (msg : string) (rl : bool) (k : nat),
     P a -> P (Account.record_error clock msg rl a k).1.2) ->
  (forall (a : AccountState) (k : nat),
     P a -> request_timestamps a = [] ->
     P (Account.record_request clock a k).1.2) ->
  (forall (a : AccountState) (creds : dict), P a -> P (set_credentials creds a)) ->
  kept_by_requests clock
    (fun st st' =>
       Forall P (accounts (rot st)) -> Forall P (accounts (rot st'))).
Proof.
  intros Hread Herr Hreq Hcred.
  split; [easy|]. split; [auto|]. split; [|split; [|split; [|split]]].
  - intros st st' r Hsel Hall. eapply get_next_account_keeps; eassumption.
  - intros st st' h w x Hcall Hall.
    eapply call_keeps; [|exact Hall|exact Hcall]. intros a k. apply Hread.
  - intros st st' h status_code error_msg Hcall Hall.
    eapply call_keeps; [|exact Hall|exact Hcall]. intros a k. apply Herr.
  - intros st st' h (a & Ha & Hts) Hcall Hall.
    unfold record_success in Hcall. rewrite (call_ok _ _ _ _ Ha) in Hcall.
    injection Hcall as <-. cbn. apply Forall_insert; [exact Hall|].
    apply Hreq; [|exact Hts]. eapply Forall_lookup_1; eassumption.
  - intros st h a key v Ha _ Hall. cbn. apply Forall_insert; [exact Hall|].
    apply Hcred. eapply Forall_lookup_1; eassumption.
Qed.

Lemma kept_by_requests_and (clock : nat -> Q) (R1 R2 : State -> State -> Prop) :
  kept_by_requests clock R1 -> kept_by_requests clock R2 ->
  kept_by_requests clock (fun st st' => R1 st st' /\ R2 st st').
Proof.
  intros (A1 & B1 & C1 & D1 & E1 & F1 & G1) (A2 & B2 & C2 & D2 & E2 & F2 & G2).
  split; [split; auto|]. split.
  { intros st1 st2 st3 [H1 H2] [H3 H4]. split; eauto. }
  split; [intros st st' r H; split; eauto|].
  split; [intros st st' h w x H; split; eauto|].
  split; [intros st st' h c m H; split; eauto|].
  split; [intros st st' h Hr H; split; eauto|].
  intros st h a key v Ha Hk. split; eauto.
Qed.

(** ** Requests in a row *)

Section Serving.

Context (clock : nat -> Q) {World datetime : Type}
  (from_authorized_user_info : dict -> option (Client.Credentials datetime))
  (expired : World -> Client.Credentials datetime -> bool)
  (refresh : World -> Client.Credentials datetime ->
             option (string * option datetime) * World)
  (isoformat_utc : datetime -> string)
  (post : World -> Client.Request -> Client.posted * World)
  (json_loads : string -> option json)
  (type_error_message : json -> string)
  (send_gemini_request :
     World -> list (string * json) -> bool -> Client.Response * World)
  (CODE_ASSIST_ENDPOINT get_user_agent : string)
  (get_client_metadata : string -> json).

Let route :=
  Client.route clock World datetime from_authorized_user_info expired refresh
    isoformat_utc post json_loads type_error_message send_gemini_request
    CODE_ASSIST_ENDPOINT get_user_agent get_client_metadata.
Let serve :=
  Client.serve clock World datetime from_authorized_user_info expired refresh
    isoformat_utc post json_loads type_error_message send_gemini_request
    CODE_ASSIST_ENDPOINT get_user_agent get_client_metadata.

Lemma serve_keeps (R : State -> State -> Prop)
    (requests : list (list (string * json) * bool)) :
  kept_by_requests clock R ->
  forall ss : Client.Session World,
    exists (responses : list Client.Response) (ss' : Client.Session World),
      serve requests ss = Ok (responses, ss') /\
      length responses = length requests /\
      R (Client.rotator ss) (Client.rotator ss') /\
      Client._onboarded_accounts ss ⊆ Client._onboarded_accounts ss'.
Proof.
  intros HR. pose proof HR as (Hrefl & Htrans & _).
  induction requests as [|[payload is_streaming] rest IH]; intros ss.
  - exists [], ss. split; [reflexivity|]. split; [reflexivity|].
    split; [apply Hrefl | reflexivity].
  - destruct (route_keeps clock from_authorized_user_info expired refresh
                isoformat_utc post json_loads type_error_message
                send_gemini_request CODE_ASSIST_ENDPOINT get_user_agent
                get_client_metadata R payload is_streaming ss HR)
      as (resp & ss1 & Hroute & R1 & O1).
    destruct (IH ss1) as (resps & ss' & Hserve & Hlen & R2 & O2).
    exists (resp :: resps), ss'. split.
    { unfold serve in *. cbn [Client.serve].
      unfold mbind at 1, Client.S_bind at 1. rewrite Hroute.
      unfold mbind at 1, Client.S_bind at 1. now rewrite Hserve. }
    split; [cbn; lia|]. split; [eapply Htrans; eassumption|].
    etransitivity; eassumption.
Qed.

(** X16.  Requests served one after the other all get a response: no
    call into the rotator raises, whatever the pool, the credentials and
    the answers of the world.  The requests leave the pool with its size
    and limits, every account in its place with its address, file, project
    and refresh token, no counter lower than it was and no disabled account
    enabled again; the set of onboarded accounts only grows; and counters
    that were consistent stay so. *)
Theorem requests_never_raise_and_keep_the_pool
    (requests : list (list (string * json) * bool))
    (ss : Client.Session World) :
  exists (responses : list Client.Response) (ss' : Client.Session World),
    serve requests ss = Ok (responses, ss') /\
    length responses = length requests /\
    same_pool (Client.rotator ss) (Client.rotator ss') /\
    Client._onboarded_accounts ss ⊆ Client._onboarded_accounts ss' /\
    (Forall counters_consistent (accounts (rot (Client.rotator ss))) ->
     Forall counters_consistent (accounts (rot (Client.rotator ss')))).
Proof.
  destruct (serve_keeps
              (fun st st' =>
                 same_pool st st' /\
                 (Forall counters_consistent (accounts (rot st)) ->
                  Forall counters_consistent (accounts (rot st'))))
              requests) with (ss := ss)
    as (responses & ss' & Hserve & Hlen & [Hpool Hcc] & Honb).
  - apply kept_by_requests_and; [apply same_pool_kept|].
    pose proof (counters_consistent_kept clock) as (H1 & H2 & H3 & H4).
    apply Forall_kept; auto.
  - exists responses, ss'. auto.
Qed.

Lemma at_most_one_timestamp_kept :
  kept_by_requests clock
    (fun st st' =>
       Forall at_most_one_timestamp (accounts (rot st)) ->
       Forall at_most_one_timestamp (accounts (rot st'))).
Proof.
  apply Forall_kept; unfold at_most_one_timestamp.
  - intros a w k H. rewrite requests_in_window_eq. cbn.
    pose proof (newer_than_length (clock k - w)%Q (request_timestamps a)). lia.
  - intros a msg rl k H.
    destruct (after_error_fields clock (if rl then 429 else 0, msg) k a)
      as (Hts & _).
    unfold after_error in Hts. cbn [fst snd] in Hts.
    replace ((if rl then 429 else 0) =? 429) with rl in Hts by now destruct rl.
    replace (rl || ((if rl then 429 else 0) =? 503)) with rl in Hts
      by now destruct rl.
    now rewrite Hts.
  - intros a k _ Hts. rewrite record_request_eq. cbn. rewrite Hts. cbn. lia.
  - intros a creds H. exact H.
Qed.

(** X17.  The client never lets an account hold two timestamps.  When
    every account holds at most one, as on a pool just built, this is still
    so after any number of requests.  The read over 60 seconds of
    [get_next_account] then counts at most 1: with [max_rpm >= 2] the
    per-minute check rejects no account, and an account passes the checks
    exactly when its timestamp lies outside the minimum gap. *)
Theorem requests_keep_at_most_one_timestamp
    (requests : list (list (string * json) * bool))
    (ss : Client.Session World) :
  Forall at_most_one_timestamp (accounts (rot (Client.rotator ss))) ->
  exists (responses : list Client.Response) (ss' : Client.Session World),
    serve requests ss = Ok (responses, ss') /\
    Forall at_most_one_timestamp (accounts (rot (Client.rotator ss'))) /\
    (2 <= max_rpm (rot (Client.rotator ss')) ->
     forall (j : nat) (a : AccountState) (k : nat),
       accounts (rot (Client.rotator ss')) !! j = Some a ->
       len (newer_than (clock k - 60)%Q (request_timestamps a))
         < max_rpm (rot (Client.rotator ss')) /\
       ((examined clock (rot (Client.rotator ss')) k a).1.1 = true <->
        newer_than (clock (S k) - min_gap_s (rot (Client.rotator ss')))%Q
          (newer_than (clock k - 60)%Q (request_timestamps a)) = [])).
Proof.
  intros Hall.
  destruct (serve_keeps _ requests at_most_one_timestamp_kept ss)
    as (responses & ss' & Hserve & _ & Hkeep & _).
  exists responses, ss'. split; [exact Hserve|].
  specialize (Hkeep Hall). split; [exact Hkeep|].
  intros Hmax j a k Hj.
  pose proof (Forall_lookup_1 _ _ _ _ Hkeep Hj) as Ha.
  unfold at_most_one_timestamp in Ha.
  pose proof (newer_than_length (clock k - 60)%Q (request_timestamps a)) as Hl.
  assert (Hlt : len (newer_than (clock k - 60)%Q (request_timestamps a))
                < max_rpm (rot (Client.rotator ss'))) by (unfold len; lia).
  split; [exact Hlt|]. rewrite examined_passes. tauto.
Qed.

Lemma unhealthy_pool_selects_nothing (st : State) :
  Forall (fun a => is_healthy a = false) (accounts (rot st)) ->
  get_next_account clock st = Ok (None, st).
Proof.
  intros Hall. unfold get_next_account.
  assert (Hav : forall (l : list AccountState) (i k : nat),
             Forall (fun a => is_healthy a = false) l ->
             available_from clock i l k = ([], k)).
  { induction l as [|a l IH]; intros i k Hl; [reflexivity|].
    apply Forall_cons in Hl as [Ha Hl].
    rewrite available_from_cons, is_available_eq, Ha, (IH _ _ Hl).
    reflexivity. }
  rewrite (M_bind_ok _ _ _ _ _ (available_accounts_eq clock st)).
  rewrite (Hav _ _ _ Hall). cbn [fst snd]. now rewrite state_eta.
Qed.

(** X18.  When the pool is not empty and every account is disabled, every
    request is answered with the reply [exhausted], of status 429, and
    changes nothing: no clock reading, no call into the world, no change to
    the pool or to the onboarded set. *)
Theorem disabled_pool_answers_429
    (requests : list (list (string * json) * bool))
    (ss : Client.Session World) :
  accounts (rot (Client.rotator ss)) <> [] ->
  Forall (fun a => is_healthy a = false) (accounts (rot (Client.rotator ss))) ->
  serve requests ss = Ok (map (fun _ => Client.exhausted) requests, ss) /\
  Client.response_status Client.exhausted = 429.
Proof.
  intros Hne Hall. split; [|reflexivity].
  induction requests as [|[payload is_streaming] rest IH]; [reflexivity|].
  unfold serve in *. cbn [Client.serve map].
  assert (Hroute : route payload is_streaming ss = Ok (Client.exhausted, ss)).
  { unfold route, Client.route.
    unfold mbind at 1, Client.S_bind at 1, Client.on_rotator at 1, attr.
    rewrite session_eta.
    destruct (accounts (rot (Client.rotator ss))) as [|a0 l] eqn:E;
      [congruence|].
    unfold mbind at 1, Client.S_bind at 1, Client.on_rotator at 1.
    rewrite unhealthy_pool_selects_nothing by (rewrite E; exact Hall).
    now rewrite session_eta. }
  unfold mbind at 1, Client.S_bind at 1. unfold route in Hroute.
  rewrite Hroute. unfold mbind at 1, Client.S_bind at 1. now rewrite IH.
Qed.

End Serving.

Lemma requests_keep_at_most_one_timestamp_witness :
  exists (responses : list Client.Response) (ss' : Client.Session nat),
    sample_serve sample_requests sample_session = Ok (responses, ss') /\
    Forall at_most_one_timestamp (accounts (rot (Client.rotator ss'))).
Proof.
  destruct (requests_keep_at_most_one_timestamp (stepping_clock 1)
              sample_from_authorized_user_info sample_expired sample_refresh
              sample_isoformat_utc sample_post sample_json_loads
              sample_type_error_message sample_send_gemini_request
              "https://cloudcode-pa.googleapis.com" "geminicli2api"
              (fun _ => JObject []) sample_requests sample_session)
    as (responses & ss' & Hserve & Hkeep & _).
  - repeat (constructor; [unfold at_most_one_timestamp; cbn; lia|]).
    constructor.
  - exists responses, ss'. split; assumption.
Defined.

Lemma disabled_pool_answers_429_witness :
  sample_serve sample_requests disabled_session =
    Ok ([Client.exhausted; Client.exhausted], disabled_session).
Proof.
  destruct (disabled_pool_answers_429 (stepping_clock 1)
              sample_from_authorized_user_info sample_expired sample_refresh
              sample_isoformat_utc sample_post sample_json_loads
              sample_type_error_message sample_send_gemini_request
              "https://cloudcode-pa.googleapis.com" "geminicli2api"
              (fun _ => JObject []) sample_requests disabled_session)
    as [Hserve _].
  - discriminate.
  - repeat constructor.
  - exact Hserve.
Defined.

(** ** Onboarding and credentials *)

Section Onboarding.

Context {World datetime : Type}
  (from_authorized_user_info : dict -> option (Client.Credentials datetime))
  (expired : World -> Client.Credentials datetime -> bool)
  (refresh : World -> Client.Credentials datetime ->
             option (string * option datetime) * World)
  (isoformat_utc : datetime -> string)
  (post : World -> Client.Request -> Client.posted * World)
  (CODE_ASSIST_ENDPOINT get_user_agent : string)
  (get_client_metadata : string -> json).

Let get_credentials :=
  Client._get_google_credentials World datetime from_authorized_user_info
    expired refresh isoformat_utc.
Let ensure_onboarded :=
  Client._ensure_onboarded World datetime post CODE_ASSIST_ENDPOINT
    get_user_agent get_client_metadata.

(** X19.  [_ensure_onboarded] returns normally and leaves the rotator
    alone.  It returns [True] exactly when the address is in
    [_onboarded_accounts] afterwards; a call that returns [False] leaves
    the set as it was.  Once it has returned [True] for an address, every
    later call for that address, whatever the credentials, the project and
    the state of the world, returns [True] without a call into the world,
    as long as the set has only grown. *)
Theorem onboarding_is_asked_once (creds : Client.Credentials datetime)
    (project_id account_email : string) (ss : Client.Session World) :
  exists (onboarded : bool) (ss1 : Client.Session World),
    ensure_onboarded creds project_id account_email ss = Ok (onboarded, ss1) /\
    Client.rotator ss1 = Client.rotator ss /\
    Client._onboarded_accounts ss ⊆ Client._onboarded_accounts ss1 /\
    (onboarded = true <-> account_email ∈ Client._onboarded_accounts ss1) /\
    (onboarded = false ->
     Client._onboarded_accounts ss1 = Client._onboarded_accounts ss) /\
    forall (creds' : Client.Credentials datetime) (project_id' : string)
           (ss2 : Client.Session World),
      onboarded = true ->
      Client._onboarded_accounts ss1 ⊆ Client._onboarded_accounts ss2 ->
      ensure_onboarded creds' project_id' account_email ss2 = Ok (true, ss2).
Proof.
  destruct (ensure_onboarded_spec post CODE_ASSIST_ENDPOINT get_user_agent
              get_client_metadata creds project_id account_email ss)
    as (b & w' & Hrun & Hin).
  fold ensure_onboarded in Hrun.
  eexists b, _. split; [exact Hrun|].
  cbn [Client.rotator Client._onboarded_accounts].
  split; [reflexivity|].
  split; [destruct b; [apply union_subseteq_r | reflexivity]|].
  split; [|split].
  - destruct b.
    + split; [|reflexivity]. intros _.
      apply elem_of_union_l, elem_of_singleton. reflexivity.
    + split; [discriminate|]. intros Hmem.
      destruct (Hin Hmem) as [H _]. discriminate H.
  - now intros ->.
  - intros creds' project_id' ss2 -> Hsub.
    unfold ensure_onboarded, Client._ensure_onboarded.
    destruct (decide (account_email ∈ Client._onboarded_accounts ss2))
      as [_|Hout]; [reflexivity|].
    exfalso. apply Hout, Hsub, elem_of_union_l, elem_of_singleton.
    reflexivity.
Qed.

(** X20.  [_get_google_credentials] on an account of the pool returns
    normally and changes at most the [credentials] of that account, in
    which every entry other than ["token"] and ["expiry"] reads as before
    (the refresh token among them).  Credentials it returns either were
    not refreshed, then nothing changed and their access token is not
    empty, or were refreshed, then the ["token"] entry stored is the access
    token returned.  When it returns [None] the rotator is as before. *)
Theorem credentials_change_only_the_token (h : nat) (a : AccountState)
    (ss : Client.Session World) :
  accounts (rot (Client.rotator ss)) !! h = Some a ->
  exists (creds : option (Client.Credentials datetime))
         (ss' : Client.Session World) (d : dict),
    get_credentials h ss = Ok (creds, ss') /\
    Client._onboarded_accounts ss' = Client._onboarded_accounts ss /\
    Client.rotator ss' =
      mkState
        (set_accounts
           (<[h := set_credentials d a]> (accounts (rot (Client.rotator ss))))
           (rot (Client.rotator ss)))
        (ticks (Client.rotator ss)) /\
    (forall key : string,
       key <> "token" -> key <> "expiry" ->
       dict_get key d = dict_get key (credentials a)) /\
    (forall c : Client.Credentials datetime,
       creds = Some c ->
       (ss' = ss /\ Client.truthy_attr (Client.token c) = true) \/
       dict_get "token" d = Client.token c) /\
    (creds = None -> Client.rotator ss' = Client.rotator ss).
Proof.
  intros Ha.
  assert (Hsame : mkState
            (set_accounts
               (<[h := set_credentials (credentials a) a]>
                  (accounts (rot (Client.rotator ss))))
               (rot (Client.rotator ss)))
            (ticks (Client.rotator ss)) = Client.rotator ss).
  { rewrite set_credentials_id, list_insert_same by exact Ha.
    now rewrite set_accounts_id, state_eta. }
  pose proof (get_google_credentials_eq from_authorized_user_info expired
                refresh isoformat_utc h a ss Ha) as Heq.
  fold get_credentials in Heq. rewrite Heq. clear Heq.
  destruct (from_authorized_user_info (credentials a)) as [c|].
  2:{ exists None, ss, (credentials a). rewrite Hsame.
      split; [reflexivity|]. repeat split; try easy. }
  destruct (expired (Client.world ss) c
            && Client.truthy_attr (Client.refresh_token c)).
  - destruct (refresh (Client.world ss) c) as [[[tok e]|] w'].
    + cbv zeta. eexists _, _, _. split; [reflexivity|].
      cbn [Client._onboarded_accounts Client.rotator].
      split; [reflexivity|]. split; [reflexivity|]. split; [|split].
      * intros key Htok Hexp. destruct e as [e|].
        -- rewrite dict_get_set_ne by congruence.
           now rewrite dict_get_set_ne by congruence.
        -- now rewrite dict_get_set_ne by congruence.
      * intros c' [= <-]. right. cbn [Client.token]. destruct e as [e|].
        -- rewrite dict_get_set_ne by discriminate.
           apply dict_get_set_eq.
        -- apply dict_get_set_eq.
      * discriminate.
    + exists None, (Client.mkSession (Client.rotator ss)
                      (Client._onboarded_accounts ss) w'), (credentials a).
      cbn [Client._onboarded_accounts Client.rotator]. rewrite Hsame.
      split; [reflexivity|]. repeat split; try easy.
  - destruct (Client.truthy_attr (Client.token c)) eqn:Htok; cbn [negb].
    + exists (Some c), ss, (credentials a). rewrite Hsame.
      split; [reflexivity|]. repeat split; try easy.
      intros c' [= <-]. left. split; [reflexivity | exact Htok].
    + exists None, ss, (credentials a). rewrite Hsame.
      split; [reflexivity|]. repeat split; try easy.
Qed.

End Onboarding.

Lemma credentials_change_only_the_token_witness :
  exists (ss' : Client.Session nat) (d : dict),
    Client._get_google_credentials nat unit sample_from_authorized_user_info
      sample_expired sample_refresh sample_isoformat_utc 0 sample_session =
      Ok (Some (Client.mkCredentials (Some "t-fresh") (Some "r-alice")
                  (Some tt)), ss') /\
    dict_get "token" d = Some "t-fresh" /\
    dict_get "refresh_token" d = Some "r-alice".
Proof.
  destruct (credentials_change_only_the_token
              sample_from_authorized_user_info sample_expired sample_refresh
              sample_isoformat_utc 0 alice sample_session eq_refl)
    as (creds & ss' & d & Hrun & _ & _ & Hkeys & Htoken & _).
  assert (Hcreds : creds = Some (Client.mkCredentials (Some "t-fresh")
                                   (Some "r-alice") (Some tt))).
  { vm_compute in Hrun. now injection Hrun as <- _. }
  exists ss', d. split; [now rewrite Hrun, Hcreds|].
  split.
  - destruct (Htoken _ Hcreds) as [[Hss _]|Hd]; [|exact Hd].
    rewrite Hss in Hrun. vm_compute in Hrun. discriminate Hrun.
  - now rewrite Hkeys.
Defined.

(** ** The response handlers *)

Section Handlers.

Context (json_loads : string -> option json)
  (type_error_message : json -> string).

Let handle_non_streaming := Client._handle_non_streaming_response json_loads.
Let handle_streaming :=
  Client._handle_streaming_response json_loads type_error_message.
Let stream_generator := Client.stream_generator json_loads type_error_message.

(** X21.  Both handlers answer with the status code of the upstream
    reply.  The streaming handler always answers an event stream, of one
    event when the upstream status is not 200; the other handler leaves out
    the media type only when it passes the upstream body on as it is. *)
Theorem handlers_keep_the_status_code (resp : Client.HttpResponse) :
  Client.response_status (handle_non_streaming resp) = Client.status_code resp /\
  Client.response_status (handle_streaming resp) = Client.status_code resp /\
  Client.media_type (handle_streaming resp) = Some "text/event-stream" /\
  (Client.media_type (handle_non_streaming resp) = None ->
   handle_non_streaming resp = Client.passed_on resp) /\
  exists chunks : list Client.event,
    Client.response_body (handle_streaming resp) = Client.Events chunks /\
    (Client.status_code resp <> 200 -> length chunks = 1%nat).
Proof.
  unfold handle_non_streaming, handle_streaming,
    Client._handle_non_streaming_response, Client._handle_streaming_response.
  destruct (Z.eqb_spec (Client.status_code resp) 200) as [E|E]; cbn [negb].
  - repeat split.
    + destruct (json_loads _) as [[]|]; cbn; congruence.
    + cbn. congruence.
    + destruct (json_loads _) as [[]|]; cbn; congruence.
    + eexists. split; [reflexivity|]. congruence.
  - repeat split.
    + destruct (Client.json_body resp) as [[]|]; try reflexivity.
      now destruct (members_lookup _ _).
    + destruct (Client.json_body resp) as [[]|]; try reflexivity.
      destruct (members_lookup _ _); [discriminate | reflexivity].
    + eexists. split; reflexivity.
Qed.

Lemma prefix_data_empty : String.prefix "data: " "" = false.
Proof. reflexivity. Qed.

Lemma stream_generator_cons (chunk : string) (rest : list string)
    (lines_error : option string) :
  stream_generator (chunk :: rest) lines_error =
    if String.prefix "data: " chunk then
      match json_loads (drop_chars (String.length "data: ") chunk) with
      | None => stream_generator rest lines_error
      | Some obj =>
          match Client.yielded obj with
          | Some v => Client.Data true v :: stream_generator rest lines_error
          | None => [Client.stream_error (type_error_message obj)]
          end
      end
    else stream_generator rest lines_error.
Proof.
  unfold stream_generator. cbn [Client.stream_generator].
  destruct (String.eqb_spec chunk "") as [->|_]; reflexivity.
Qed.

(** X22.  What [stream_generator] yields is a run of compact data
    events, at most one per line that starts with ["data: "], followed by
    nothing or by one error event that ends the stream.  Lines that do not
    start with ["data: "], empty lines among them, change nothing: dropping
    them gives the same events. *)
Theorem stream_ends_at_the_first_failure (lines : list string)
    (lines_error : option string) :
  (exists (values : list json) (tail : list Client.event),
     stream_generator lines lines_error =
       map (Client.Data true) values ++ tail /\
     (length values <= length (filter (fun l => String.prefix "data: " l) lines))%nat /\
     (tail = [] \/
      exists message : string, tail = [Client.stream_error message])) /\
  stream_generator (filter (fun l => String.prefix "data: " l) lines)
    lines_error = stream_generator lines lines_error.
Proof.
  split.
  - induction lines as [|chunk rest (values & tail & IH & Hlen & Htail)].
    + exists [], (stream_generator [] lines_error).
      split; [reflexivity|]. split; [reflexivity|].
      cbn. destruct lines_error; eauto.
    + rewrite stream_generator_cons, filter_cons.
      destruct (String.prefix "data: " chunk) eqn:Hp.
      * rewrite decide_True by exact I.
        destruct (json_loads _) as [obj|].
        -- destruct (Client.yielded obj) as [v|].
           ++ exists (v :: values), tail. rewrite IH.
              split; [reflexivity|]. split; [cbn; lia | exact Htail].
           ++ exists [], [Client.stream_error (type_error_message obj)].
              split; [reflexivity|]. split; [cbn; lia | eauto].
        -- exists values, tail. split; [exact IH|].
           split; [cbn; lia | exact Htail].
      * rewrite decide_False by exact id.
        exists values, tail. split; [exact IH|]. split; assumption.
  - induction lines as [|chunk rest IH]; [reflexivity|].
    rewrite filter_cons, (stream_generator_cons chunk rest).
    destruct (String.prefix "data: " chunk) eqn:Hp.
    + rewrite decide_True by exact I.
      rewrite stream_generator_cons, Hp, IH. reflexivity.
    + rewrite decide_False by exact id. exact IH.
Qed.

(** X23.  Lines are handled one by one: when no line of a first batch
    raises [TypeError], the events for the batch followed by more lines are
    the events for the batch, followed by the events for the other
    lines. *)
Theorem stream_of_appended_lines (lines1 lines2 : list string)
    (lines_error : option string) :
  Forall (fun chunk => raises_type_error json_loads chunk = false) lines1 ->
  stream_generator (lines1 ++ lines2) lines_error =
    stream_generator lines1 None ++ stream_generator lines2 lines_error.
Proof.
  induction 1 as [|chunk rest Hchunk _ IH]; [reflexivity|].
  cbn [app]. rewrite !stream_generator_cons, IH.
  unfold raises_type_error in Hchunk.
  destruct (String.prefix "data: " chunk); [|reflexivity].
  destruct (json_loads _) as [obj|]; [|reflexivity].
  destruct (Client.yielded obj); [reflexivity | discriminate].
Qed.

End Handlers.

Lemma stream_of_appended_lines_witness :
  Client.stream_generator sample_json_loads sample_type_error_message
    (["data: {}"; ""; ": keep-alive"] ++ ["data: 1"; "data: []"]) None =
  [Client.Data true (JObject []);
   Client.stream_error "argument of type 'int' is not iterable"].
Proof.
  rewrite (stream_of_appended_lines sample_json_loads
             sample_type_error_message).
  - reflexivity.
  - repeat constructor.
Defined.

(** ** A request, from the global rotator on *)

Section Process.

Context (clock : nat -> Q) {World datetime : Type}
  (from_authorized_user_info : dict -> option (Client.Credentials datetime))
  (expired : World -> Client.Credentials datetime -> bool)
  (refresh : World -> Client.Credentials datetime ->
             option (string * option datetime) * World)
  (isoformat_utc : datetime -> string)
  (post : World -> Client.Request -> Client.posted * World)
  (json_loads : string -> option json)
  (type_error_message : json -> string)
  (send_gemini_request :
     World -> list (string * json) -> bool -> Client.Response * World)
  (CODE_ASSIST_ENDPOINT get_user_agent : string)
  (get_client_metadata : string -> json).

Let route :=
  Client.route clock World datetime from_authorized_user_info expired refresh
    isoformat_utc post json_loads type_error_message send_gemini_request
    CODE_ASSIST_ENDPOINT get_user_agent get_client_metadata.
Let send_rotated_request :=
  Client.send_rotated_request clock World datetime from_authorized_user_info
    expired refresh isoformat_utc post json_loads type_error_message
    send_gemini_request CODE_ASSIST_ENDPOINT get_user_agent
    get_client_metadata.

Lemma send_rotated_request_eq (getenv : string -> option string)
    (fs : Construction.FileSystem) (int : string -> option Z)
    (payload : list (string * json)) (is_streaming : bool)
    (p : Client.Process World) :
  match Construction.get_rotator getenv fs int (Client._rotator p) with
  | (Construction.ValueError, global) =>
      Client._rotator p = None /\ global = None /\
      send_rotated_request getenv fs int payload is_streaming p =
        (Client.RaisedValueError, p)
  | (Construction.OverflowError, global) =>
      Client._rotator p = None /\ global = None /\
      send_rotated_request getenv fs int payload is_streaming p =
        (Client.RaisedOverflowError, p)
  | (Construction.Returned r, global) =>
      global = Some r /\
      exists (response : Client.Response) (ss : Client.Session World),
        route payload is_streaming
          (Client.mkSession (mkState r (Client.readings p))
             (Client.onboarded_accounts p) (Client.outside p)) =
          Ok (response, ss) /\
        send_rotated_request getenv fs int payload is_streaming p =
          (Client.Answered response,
           Client.mkProcess (Some (rot (Client.rotator ss)))
             (ticks (Client.rotator ss)) (Client._onboarded_accounts ss)
             (Client.world ss)) /\
        same_pool (mkState r (Client.readings p)) (Client.rotator ss) /\
        Client.onboarded_accounts p ⊆ Client._onboarded_accounts ss
  end.
Proof.
  unfold send_rotated_request, Client.send_rotated_request.
  destruct (Construction.get_rotator getenv fs int (Client._rotator p))
    as [[r| |] global] eqn:Hget.
  - split.
    { unfold Construction.get_rotator in Hget.
      destruct (Client._rotator p); [congruence|].
      destruct (Construction.__init__ _ _ _ _ _ _); congruence. }
    destruct (route_keeps clock from_authorized_user_info expired refresh
                isoformat_utc post json_loads type_error_message
                send_gemini_request CODE_ASSIST_ENDPOINT get_user_agent
                get_client_metadata same_pool payload is_streaming
                (Client.mkSession (mkState r (Client.readings p))
                   (Client.onboarded_accounts p) (Client.outside p))
                (same_pool_kept clock))
      as (response & ss & Hroute & Hpool & Honb).
    exists response, ss. fold route in Hroute.
    split; [exact Hroute|]. unfold route in Hroute. rewrite Hroute.
    split; [reflexivity|]. split; assumption.
  - unfold Construction.get_rotator in Hget.
    destruct (Client._rotator p) as [r|] eqn:Hp; [congruence|].
    destruct (Construction.__init__ _ _ _ _ _ _); try congruence.
    injection Hget as <-. repeat split. f_equal.
    destruct p; cbn in *; congruence.
  - unfold Construction.get_rotator in Hget.
    destruct (Client._rotator p) as [r|] eqn:Hp; [congruence|].
    destruct (Construction.__init__ _ _ _ _ _ _); try congruence.
    injection Hget as <-. repeat split. f_equal.
    destruct p; cbn in *; congruence.
Qed.

(** X24.  What [send_rotated_request] ends with.  No exception of the
    rotator escapes it.  It raises [ValueError] or [OverflowError] only
    when the global rotator is not built yet and the constructor raises
    that exception; the process is then as before, the global still unset.
    Otherwise it answers, the global holds a rotator afterwards, the pool
    is the one [get_rotator] returned as a request may leave it, and the
    onboarded set has only grown. *)
Theorem send_rotated_request_outcomes (getenv : string -> option string)
    (fs : Construction.FileSystem) (int : string -> option Z)
    (payload : list (string * json)) (is_streaming : bool)
    (p : Client.Process World) :
  exists (outcome : Client.ended) (p' : Client.Process World),
    send_rotated_request getenv fs int payload is_streaming p = (outcome, p') /\
    match outcome with
    | Client.Raised _ => False
    | Client.RaisedValueError =>
        p' = p /\ Client._rotator p = None /\
        Construction.__init__ getenv fs int None None None =
          Construction.ValueError
    | Client.RaisedOverflowError =>
        p' = p /\ Client._rotator p = None /\
        Construction.__init__ getenv fs int None None None =
          Construction.OverflowError
    | Client.Answered _ =>
        exists r r' : AccountRotator,
          Construction.get_rotator getenv fs int (Client._rotator p) =
            (Construction.Returned r, Some r) /\
          Client._rotator p' = Some r' /\
          same_pool (mkState r (Client.readings p))
            (mkState r' (Client.readings p')) /\
          Client.onboarded_accounts p ⊆ Client.onboarded_accounts p'
    end.
Proof.
  pose proof (send_rotated_request_eq getenv fs int payload is_streaming p)
    as H.
  destruct (Construction.get_rotator getenv fs int (Client._rotator p))
    as [[r| |] global] eqn:Hget.
  - destruct H as (-> & response & ss & _ & -> & Hpool & Honb).
    eexists _, _. split; [reflexivity|]. exists r, (rot (Client.rotator ss)).
    cbn [Client._rotator Client.readings Client.onboarded_accounts].
    rewrite state_eta. auto.
  - destruct H as (Hp & -> & ->). eexists _, _. split; [reflexivity|].
    split; [reflexivity|]. split; [exact Hp|].
    unfold Construction.get_rotator in Hget. rewrite Hp in Hget.
    destruct (Construction.__init__ _ _ _ _ _ _);
      [discriminate | reflexivity | discriminate].
  - destruct H as (Hp & -> & ->). eexists _, _. split; [reflexivity|].
    split; [reflexivity|]. split; [exact Hp|].
    unfold Construction.get_rotator in Hget. rewrite Hp in Hget.
    destruct (Construction.__init__ _ _ _ _ _ _);
      [discriminate | discriminate | reflexivity].
Qed.

(** X25.  The rotator is built once.  After a request that was answered,
    the environment, the credentials directory and [int] are not consulted
    again: every later request behaves the same under any other
    environment and file system, and is answered. *)
Theorem rotator_is_built_once (getenv : string -> option string)
    (fs : Construction.FileSystem) (int : string -> option Z)
    (payload : list (string * json)) (is_streaming : bool)
    (p p' : Client.Process World) (response : Client.Response) :
  send_rotated_request getenv fs int payload is_streaming p =
    (Client.Answered response, p') ->
  forall (getenv' : string -> option string) (fs' : Construction.FileSystem)
         (int' : string -> option Z) (payload' : list (string * json))
         (is_streaming' : bool),
    send_rotated_request getenv' fs' int' payload' is_streaming' p' =
      send_rotated_request getenv fs int payload' is_streaming' p' /\
    exists (response' : Client.Response) (p'' : Client.Process World),
      send_rotated_request getenv' fs' int' payload' is_streaming' p' =
        (Client.Answered response', p'').
Proof.
  intros Hsend getenv' fs' int' payload' is_streaming'.
  pose proof (send_rotated_request_eq getenv fs int payload is_streaming p)
    as H.
  destruct (Construction.get_rotator getenv fs int (Client._rotator p))
    as [[r| |] global].
  2,3: destruct H as (_ & _ & H); congruence.
  destruct H as (_ & response0 & ss & _ & H & _).
  rewrite H in Hsend. injection Hsend as _ <-.
  split; [reflexivity|].
  pose proof (send_rotated_request_eq getenv' fs' int' payload' is_streaming'
                (Client.mkProcess (Some (rot (Client.rotator ss)))
                   (ticks (Client.rotator ss)) (Client._onboarded_accounts ss)
                   (Client.world ss))) as H'.
  cbn [Client._rotator Construction.get_rotator] in H'.
  destruct H' as (_ & response' & ss' & _ & H' & _). eauto.
Qed.

(** X26.  Without a credentials directory the client is a pass-through.
    When the directory the constructor looks for does not exist, and the
    two numbers it reads are accepted, the first request builds a rotator
    with an empty pool and is answered by [send_gemini_request] on the same
    payload, and so is every request made while that rotator is the
    global one; no clock reading is made and the onboarded set is not
    touched. *)
Theorem missing_directory_falls_back (getenv : string -> option string)
    (fs : Construction.FileSystem) (int : string -> option Z)
    (max_rpm gap_ms : Z) (payload : list (string * json))
    (is_streaming : bool) (p : Client.Process World) :
  Client._rotator p = None ->
  Construction.path_exists fs
    (Construction.os_getenv getenv "CREDENTIALS_DIR" "./credentials") = false ->
  int (Construction.os_getenv getenv "MAX_RPM_PER_ACCOUNT" "10") =
    Some max_rpm ->
  int (Construction.os_getenv getenv "MIN_REQUEST_GAP_MS" "2000") =
    Some gap_ms ->
  Construction.float_overflows gap_ms = false ->
  let r :=
    mkAccountRotator
      (Construction.os_getenv getenv "CREDENTIALS_DIR" "./credentials")
      max_rpm (inject_Z gap_ms / 1000)%Q [] 0 in
  let fallback (payload : list (string * json)) (is_streaming : bool)
      (p : Client.Process World) :=
    (Client.Answered
       (send_gemini_request (Client.outside p) payload is_streaming).1,
     Client.mkProcess (Some r) (Client.readings p)
       (Client.onboarded_accounts p)
       (send_gemini_request (Client.outside p) payload is_streaming).2) in
  send_rotated_request getenv fs int payload is_streaming p =
    fallback payload is_streaming p /\
  forall (payload' : list (string * json)) (is_streaming' : bool)
         (q : Client.Process World),
    Client._rotator q = Some r ->
    send_rotated_request getenv fs int payload' is_streaming' q =
      fallback payload' is_streaming' q.
Proof.
  intros Hp Hdir Hrpm Hgap Hfits r fallback.
  assert (Hroute : forall (payload : list (string * json)) (s : bool)
                     (q : Client.Process World),
             route payload s
               (Client.mkSession (mkState r (Client.readings q))
                  (Client.onboarded_accounts q) (Client.outside q)) =
             Ok ((send_gemini_request (Client.outside q) payload s).1,
                 Client.mkSession (mkState r (Client.readings q))
                   (Client.onboarded_accounts q)
                   (send_gemini_request (Client.outside q) payload s).2)).
  { intros payload0 s q. unfold route, Client.route.
    unfold mbind at 1, Client.S_bind at 1, Client.on_rotator at 1, attr.
    cbn [Client.rotator Client._onboarded_accounts Client.world rot accounts r].
    unfold Client.ask.
    cbn [Client.rotator Client._onboarded_accounts Client.world].
    now destruct (send_gemini_request (Client.outside q) payload0 s). }
  split.
  - unfold send_rotated_request, Client.send_rotated_request,
      Construction.get_rotator, Construction.__init__,
      Construction.or_int_env.
    rewrite Hp, Hrpm, Hgap, Hfits, load_accounts_eq. cbn [credentials_dir].
    rewrite Hdir. fold r. unfold route in Hroute. rewrite Hroute.
    reflexivity.
  - intros payload' is_streaming' q Hq.
    unfold send_rotated_request, Client.send_rotated_request, fallback.
    rewrite Hq. cbn [Construction.get_rotator].
    unfold route in Hroute. rewrite Hroute. reflexivity.
Qed.

End Process.


Lemma rotator_is_built_once_witness :
  exists (response : Client.Response) (p' : Client.Process nat),
    sample_send_rotated_request [("model", JString "gemini-2.5-pro")] false
      sample_process = (Client.Answered response, p') /\
    Client.send_rotated_request (stepping_clock 1) nat unit
      sample_from_authorized_user_info sample_expired sample_refresh
      sample_isoformat_utc sample_post sample_json_loads
      sample_type_error_message sample_send_gemini_request
      "https://cloudcode-pa.googleapis.com" "geminicli2api"
      (fun _ => JObject []) (fun _ => Some "ten") no_directory (fun _ => None)
      [] true p' =
    sample_send_rotated_request [] true p'.
Proof.
  pose proof (send_rotated_request_eq (stepping_clock 1)
                sample_from_authorized_user_info sample_expired sample_refresh
                sample_isoformat_utc sample_post sample_json_loads
                sample_type_error_message sample_send_gemini_request
                "https://cloudcode-pa.googleapis.com" "geminicli2api"
                (fun _ => JObject []) sample_getenv sample_fs sample_int
                [("model", JString "gemini-2.5-pro")] false sample_process)
    as H.
  change (Client._rotator sample_process) with (@None AccountRotator) in H.
  assert (Hget : exists r : AccountRotator,
             Construction.get_rotator sample_getenv sample_fs sample_int None =
               (Construction.Returned r, Some r))
    by (eexists; vm_compute; reflexivity).
  destruct Hget as [r Hget]. rewrite Hget in H.
  destruct H as (_ & response & ss & _ & H & _).
  eexists _, _. split; [exact H|].
  apply (rotator_is_built_once (stepping_clock 1)
           sample_from_authorized_user_info sample_expired sample_refresh
           sample_isoformat_utc sample_post sample_json_loads
           sample_type_error_message sample_send_gemini_request
           "https://cloudcode-pa.googleapis.com" "geminicli2api"
           (fun _ => JObject []) sample_getenv sample_fs sample_int _ _ _ _ _ H).
Defined.

Lemma missing_directory_falls_back_witness :
  Client.send_rotated_request (stepping_clock 1) nat unit
    sample_from_authorized_user_info sample_expired sample_refresh
    sample_isoformat_utc sample_post sample_json_loads
    sample_type_error_message sample_send_gemini_request
    "https://cloudcode-pa.googleapis.com" "geminicli2api"
    (fun _ => JObject []) sample_getenv no_directory sample_int [] false
    sample_process =
  (Client.Answered
     (Client.mkResponse (Client.Raw "single-account reply") 200 None),
   Client.mkProcess
     (Some (mkAccountRotator "./credentials" 10 (inject_Z 2000 / 1000)%Q [] 0))
     1%nat ∅ 1%nat).
Proof.
  destruct (missing_directory_falls_back (stepping_clock 1)
              sample_from_authorized_user_info sample_expired sample_refresh
              sample_isoformat_utc sample_post sample_json_loads
              sample_type_error_message sample_send_gemini_request
              "https://cloudcode-pa.googleapis.com" "geminicli2api"
              (fun _ => JObject []) sample_getenv no_directory sample_int
              10 2000 [] false sample_process) as [H _];
    [reflexivity..|exact H].
Defined.
